(** * BadgerDB lab 3: buffer manager (buffer.cpp) and join executor (executor.cpp)

    A shallow embedding of [BufMgr] (clock replacement, pin/unpin, flush)
    and of the join operators of executor.cpp, followed by the theorems
    that settle the properties stated about them.

    Conventions.
    - [std::uint32_t] / [unsigned int] values are [N] with the wrap-around
      at [2^32] written out where the code increments them.
    - a [File*] is the address of a [File] object, an [N]; the null pointer
      is [0]; the live [File] objects are the keys of [files].
    - a [Page*] handed out by the pool is [&bufPool[frame]]: the embedding
      returns the frame number and the caller reads [bufPool] through it.
    - a C++ exception is [Throw e]; undefined behaviour (null or dangling
      dereference, index out of the array, [% 0]) is [Undefined]. What a
      call leaves behind in the pool when it throws is not kept: nothing
      below continues after an exception. *)

From Stdlib Require Import ZArith NArith Lia Ascii String.
From stdpp Require Import gmap strings list pretty.

Local Open Scope N_scope.

(** ** Outcomes of a call *)

Inductive Exn : Type :=
| BufferExceededException
| PageNotPinnedException (pageNo frame : N)
| PagePinnedException (pageNo frame : N)
| BadBufferException (frame : N) (dirty valid refbit : bool)
| InvalidPageException
| std_out_of_range.

Inductive Res (A : Type) : Type :=
| Ok (a : A)
| Throw (e : Exn)
| Undefined.
Arguments Ok {A} a.
Arguments Throw {A} e.
Arguments Undefined {A}.

#[global] Instance Res_ret : MRet Res := fun A a => Ok a.
#[global] Instance Res_bind : MBind Res := fun A B f m =>
  match m with
  | Ok a => f a
  | Throw e => Throw e
  | Undefined => Undefined
  end.

(** The loop [for (x : l) body] run over a state, stopping at the first
    exception. *)
Fixpoint forM {A S : Type} (body : A -> S -> Res S) (l : list A) (s : S) : Res S :=
  match l with
  | [] => Ok s
  | x :: l' => s' ← body x s; forM body l' s'
  end.

(** ** Pages, files, descriptors *)

Abbreviation bytes := (list ascii).
Abbreviation PageId := N (only parsing).
Abbreviation FrameId := N (only parsing).
Abbreviation FilePtr := N (only parsing).

Definition NULL : FilePtr := 0.
Definition UINT32 : N := 2 ^ 32.

(** Modelled from the spec: [Page] (page.h is not part of the sources): a
    page number and the records a [PageIterator] yields, in order. *)
Record Page : Type := mkPage { page_number : PageId; records : list bytes }.

Definition INVALID_NUMBER : PageId := 0.
Definition emptyPage : Page := mkPage INVALID_NUMBER [].

(** Modelled from the spec: [BufDesc] (buffer.h is not part of the sources),
    the frame descriptor {ownerFile, pageId, pinCount:uint, dirty,
    referenced, valid}. *)
Record BufDesc : Type := mkBufDesc {
  file : FilePtr;
  pageNo : PageId;
  frameNo : FrameId;
  pinCnt : N;
  dirty : bool;
  valid : bool;
  refbit : bool
}.

(** Modelled from the spec: [BufDesc::Clear], "clear its descriptor fields". *)
Definition BufDesc_Clear (d : BufDesc) : BufDesc :=
  mkBufDesc NULL INVALID_NUMBER (frameNo d) 0 false false false.

(** Modelled from the spec: [BufDesc::Set], the descriptor becomes
    {file, pageId, pinCount=1, referenced=true, dirty=false, valid=true}. *)
Definition BufDesc_Set (f : FilePtr) (p : PageId) (d : BufDesc) : BufDesc :=
  mkBufDesc f p (frameNo d) 1 false true true.

Definition with_refbit (b : bool) (d : BufDesc) : BufDesc :=
  mkBufDesc (file d) (pageNo d) (frameNo d) (pinCnt d) (dirty d) (valid d) b.
Definition with_pinCnt (n : N) (d : BufDesc) : BufDesc :=
  mkBufDesc (file d) (pageNo d) (frameNo d) n (dirty d) (valid d) (refbit d).
Definition with_dirty (b : bool) (d : BufDesc) : BufDesc :=
  mkBufDesc (file d) (pageNo d) (frameNo d) (pinCnt d) b (valid d) (refbit d).

(** ** The buffer manager *)

(** The fields of [BufMgr], and the files its [File*] reach. [numBufs] is
    the length of [bufDescTable], fixed by the constructor. *)
Record BufMgr : Type := mkBufMgr {
  bufDescTable : list BufDesc;
  bufPool : list Page;
  hashTable : gmap (FilePtr * PageId) FrameId;
  clockHand : FrameId;
  files : gmap FilePtr (list Page)
}.

Definition numBufs (s : BufMgr) : N := N.of_nat (length (bufDescTable s)).

Definition set_desc (i : FrameId) (d : BufDesc) (s : BufMgr) : BufMgr :=
  mkBufMgr (<[N.to_nat i := d]> (bufDescTable s)) (bufPool s) (hashTable s)
           (clockHand s) (files s).
Definition set_page (i : FrameId) (p : Page) (s : BufMgr) : BufMgr :=
  mkBufMgr (bufDescTable s) (<[N.to_nat i := p]> (bufPool s)) (hashTable s)
           (clockHand s) (files s).
Definition set_hashTable (h : gmap (FilePtr * PageId) FrameId) (s : BufMgr) : BufMgr :=
  mkBufMgr (bufDescTable s) (bufPool s) h (clockHand s) (files s).
Definition set_clockHand (c : FrameId) (s : BufMgr) : BufMgr :=
  mkBufMgr (bufDescTable s) (bufPool s) (hashTable s) c (files s).
Definition set_files (fs : gmap FilePtr (list Page)) (s : BufMgr) : BufMgr :=
  mkBufMgr (bufDescTable s) (bufPool s) (hashTable s) (clockHand s) fs.

Definition desc_at (s : BufMgr) (i : FrameId) : Res BufDesc :=
  match bufDescTable s !! N.to_nat i with
  | Some d => Ok d
  | None => Undefined
  end.
Definition page_at (s : BufMgr) (i : FrameId) : Res Page :=
  match bufPool s !! N.to_nat i with
  | Some p => Ok p
  | None => Undefined
  end.

(** Modelled from the spec: [File::readPage], [File::writePage] and
    [File::allocatePage] (file.cpp is not part of the sources). A file is
    the list of its pages in iteration order. *)
Definition find_page (n : PageId) (ps : list Page) : option Page :=
  List.find (fun p => page_number p =? n) ps.

Definition File_readPage (f : FilePtr) (n : PageId) (s : BufMgr) : Res Page :=
  match files s !! f with
  | None => Undefined
  | Some ps =>
      match find_page n ps with
      | Some p => Ok p
      | None => Throw InvalidPageException
      end
  end.

Definition File_writePage (f : FilePtr) (p : Page) (s : BufMgr) : Res BufMgr :=
  match files s !! f with
  | None => Undefined
  | Some ps =>
      match find_page (page_number p) ps with
      | Some _ =>
          Ok (set_files
                (<[f := map (fun q => if page_number q =? page_number p then p else q) ps]>
                   (files s)) s)
      | None => Throw InvalidPageException
      end
  end.

Definition fresh_page_number (ps : list Page) : PageId :=
  foldr (fun p m => N.max (page_number p) m) 0 ps + 1.

Definition File_allocatePage (f : FilePtr) (s : BufMgr) : Res (Page * BufMgr) :=
  match files s !! f with
  | None => Undefined
  | Some ps =>
      let p := mkPage (fresh_page_number ps) [] in
      Ok (p, set_files (<[f := ps ++ [p]]> (files s)) s)
  end.

(** [BufMgr::BufMgr(bufs)]. *)
Definition BufMgr_new (bufs : N) (fs : gmap FilePtr (list Page)) : BufMgr :=
  mkBufMgr
    (map (fun i => mkBufDesc NULL INVALID_NUMBER (N.of_nat i) 0 false false false)
         (seq 0 (N.to_nat bufs)))
    (replicate (N.to_nat bufs) emptyPage)
    ∅
    ((bufs + UINT32 - 1) mod UINT32)
    fs.

(** [BufMgr::advanceClock]: [clockHand = (clockHand+1) % numBufs]. *)
Definition advanceClock (s : BufMgr) : Res BufMgr :=
  if numBufs s =? 0 then Undefined
  else Ok (set_clockHand (((clockHand s + 1) mod UINT32) mod numBufs s) s).

(** [BufMgr::allocBuf]: the [while (!findNext)] loop; one unit of fuel per
    iteration, [pinned] is the local counter. *)
Fixpoint allocBuf_loop (fuel : nat) (pinned : N) (s : BufMgr)
  : option (Res (FrameId * BufMgr)) :=
  match fuel with
  | O => None
  | S fuel' =>
      match advanceClock s with
      | Throw e => Some (Throw e)
      | Undefined => Some Undefined
      | Ok s1 =>
          if pinned =? numBufs s1 then Some (Throw BufferExceededException)
          else
            let hand := clockHand s1 in
            match bufDescTable s1 !! N.to_nat hand with
            | None => Some Undefined
            | Some d =>
                if negb (valid d) then
                  Some (Ok (hand, set_desc hand (BufDesc_Clear d) s1))
                else if refbit d then
                  allocBuf_loop fuel' pinned (set_desc hand (with_refbit false d) s1)
                else if 0 <? pinCnt d then
                  allocBuf_loop fuel' ((pinned + 1) mod UINT32) s1
                else if negb (refbit d) then
                  Some (s2 ← (if dirty d
                              then p ← page_at s1 hand; File_writePage (file d) p s1
                              else Ok s1);
                        let s3 := set_hashTable (delete (file d, pageNo d) (hashTable s2)) s2 in
                        Ok (hand, set_desc hand (BufDesc_Clear d) s3))
                else allocBuf_loop fuel' pinned s1
            end
      end
  end.

(** An iteration of the loop clears a reference bit, counts a pinned
    frame, or ends the loop: [2 * numBufs + 1] iterations are enough
    ([allocBuf_loop_fuel] below), so [None] is not reached. *)
Definition allocBuf_fuel (s : BufMgr) : nat := S (2 * length (bufDescTable s)).

Definition allocBuf (s : BufMgr) : Res (FrameId * BufMgr) :=
  match allocBuf_loop (allocBuf_fuel s) 0 s with
  | Some r => r
  | None => Undefined
  end.

(** [BufMgr::readPage]; the result is the frame whose page is handed out. *)
Definition readPage (f : FilePtr) (n : PageId) (s : BufMgr) : Res (FrameId * BufMgr) :=
  match hashTable s !! (f, n) with
  | Some frame =>
      d ← desc_at s frame;
      Ok (frame,
          set_desc frame
            (with_pinCnt ((pinCnt d + 1) mod UINT32) (with_refbit true d)) s)
  | None =>
      '(frame, s1) ← allocBuf s;
      p ← File_readPage f n s1;
      let s2 := set_page frame p s1 in
      let s3 := set_hashTable (<[(f, n) := frame]> (hashTable s2)) s2 in
      d ← desc_at s3 frame;
      Ok (frame, set_desc frame (BufDesc_Set f n d) s3)
  end.

(** [BufMgr::unPinPage]. *)
Definition unPinPage (f : FilePtr) (n : PageId) (isDirty : bool) (s : BufMgr) : Res BufMgr :=
  match hashTable s !! (f, n) with
  | Some frame =>
      d ← desc_at s frame;
      if 0 <? pinCnt d then
        let d1 := with_pinCnt (pinCnt d - 1) d in
        let d2 := if isDirty then with_dirty isDirty d1 else d1 in
        Ok (set_desc frame d2 s)
      else Throw (PageNotPinnedException n frame)
  | None => Ok s
  end.

(** [BufMgr::flushFile]: the body of the [for] loop at frame [i]. *)
Definition flushFile_frame (f : FilePtr) (i : nat) (s : BufMgr) : Res BufMgr :=
  d ← desc_at s (N.of_nat i);
  if file d =? f then
    if negb (pinCnt d =? 0) then Throw (PagePinnedException (pageNo d) (frameNo d))
    else if negb (valid d) then
      Throw (BadBufferException (frameNo d) (dirty d) false (refbit d))
    else
      p ← page_at s (N.of_nat i);
      s1 ← (if dirty d
            then s' ← File_writePage (file d) p s;
                 Ok (set_desc (N.of_nat i) (with_dirty false d) s')
            else Ok s);
      let s2 := set_hashTable (delete (f, page_number p) (hashTable s1)) s1 in
      d' ← desc_at s2 (N.of_nat i);
      Ok (set_desc (N.of_nat i) (BufDesc_Clear d') s2)
  else Ok s.

Definition flushFile (f : FilePtr) (s : BufMgr) : Res BufMgr :=
  forM (flushFile_frame f) (seq 0 (length (bufDescTable s))) s.

(** [BufMgr::allocPage]; the result is the new page number and its frame. *)
Definition allocPage (f : FilePtr) (s : BufMgr) : Res (PageId * FrameId * BufMgr) :=
  '(new_page, s1) ← File_allocatePage f s;
  '(frame, s2) ← allocBuf s1;
  let s3 := set_hashTable (<[(f, page_number new_page) := frame]> (hashTable s2)) s2 in
  d ← desc_at s3 frame;
  let s4 := set_desc frame (BufDesc_Set f (page_number new_page) d) s3 in
  Ok (page_number new_page, frame, set_page frame new_page s4).

(** ** Schemas and tuples *)

(** Modelled from the spec: [DataType], [Attribute] and [TableSchema]
    (schema.h is not part of the sources), with the read-only accessors the
    executor calls. The enumerators are numbered as [handle_tuple] tests
    them: INT is 0, CHAR is 1, VARCHAR is 2. *)
Inductive DataType : Type := INT | CHAR | VARCHAR.

#[global] Instance DataType_eq_dec : EqDecision DataType.
Proof. solve_decision. Defined.

Record Attribute : Type := mkAttribute {
  attrName : string;
  attrType : DataType;
  attrMaxSize : Z;
  isNotNull : bool;
  isUnique : bool
}.

Record TableSchema : Type := mkTableSchema {
  tableName : string;
  attrs : list Attribute
}.

Definition getAttr (t : TableSchema) (i : nat) : Res Attribute :=
  match attrs t !! i with
  | Some a => Ok a
  | None => Undefined
  end.

Fixpoint index_of (name : string) (l : list Attribute) : option nat :=
  match l with
  | [] => None
  | a :: l' => if bool_decide (attrName a = name) then Some O
               else S <$> index_of name l'
  end.

(** [TableSchema::getAttrNum]: the position of the attribute of that name. *)
Definition getAttrNum (t : TableSchema) (name : string) : Res nat :=
  match index_of name (attrs t) with
  | Some i => Ok i
  | None => Undefined
  end.

(** [std::count]. *)
Definition count {A : Type} `{EqDecision A} (l : list A) (x : A) : nat :=
  length (List.filter (fun y => bool_decide (y = x)) l).

(** ** Common attributes *)

Definition same_attr (l r : Attribute) : bool :=
  bool_decide (attrType l = attrType r) && bool_decide (attrName l = attrName r).

(** [JoinOperator::getCommonAttributes]: for every right attribute, one
    copy per left attribute of the same type and name. *)
Definition getCommonAttributes (leftTableSchema rightTableSchema : TableSchema)
  : list Attribute :=
  flat_map
    (fun r =>
       flat_map
         (fun l =>
            if same_attr l r
            then [mkAttribute (attrName r) (attrType r) (attrMaxSize r)
                              (isNotNull r) (isUnique r)]
            else [])
         (attrs leftTableSchema))
    (attrs rightTableSchema).

(** The first two loops of [NestedLoopJoinOperator::execute]: [attrname]
    collects the left names, [sameName] the right names found among them. *)
Definition attrname (leftTableSchema : TableSchema) : list string :=
  attrName <$> attrs leftTableSchema.

Definition sameName (leftTableSchema rightTableSchema : TableSchema) : list string :=
  List.filter (fun n => negb (Nat.eqb (count (attrname leftTableSchema) n) 0))
              (attrName <$> attrs rightTableSchema).

(** ** [handle_tuple] *)

(** [std::string::operator[]]: the character at [pos], the terminating
    zero at [pos == size()], undefined beyond. *)
Definition char_at (tup : bytes) (pos : Z) : Res ascii :=
  if (pos <? 0)%Z then Undefined
  else match tup !! Z.to_nat pos with
       | Some c => Ok c
       | None => if (pos =? Z.of_nat (length tup))%Z then Ok zero else Undefined
       end.

(** [std::string::erase(pos, len)]: throws when [pos > size()], removes at
    most [len] characters otherwise. *)
Definition erase (pos len : N) (l : bytes) : Res bytes :=
  if N.of_nat (length l) <? pos then Throw std_out_of_range
  else Ok (take (N.to_nat pos) l ++ drop (N.to_nat pos + N.to_nat len) l).

(** [int - unsigned int] converted to [size_type]: the difference modulo
    [2^32]. *)
Definition sub_u32 (index : Z) (already_delete : N) : N :=
  Z.to_N ((index - Z.of_N already_delete) mod Z.of_N UINT32).

(** [stringstream ss; ss << c; int size = 0; ss >> size]: the value of a
    decimal digit, 0 when the extraction fails. *)
Definition stream_int (c : ascii) : Z :=
  let n := N_of_ascii c in
  if (48 <=? n) && (n <=? 57) then Z.of_N (n - 48) else 0%Z.

(** The locals of [handle_tuple] that its loops update. *)
Record Locals : Type := mkLocals {
  hashString : bytes;
  last : bytes;
  already_delete : N;
  index : Z
}.

(** [hashString += tup[index + k]] for [k] in [0, n). *)
Fixpoint append_chars (tup : bytes) (from : Z) (n : nat) (acc : bytes) : Res bytes :=
  match n with
  | O => Ok acc
  | S n' => c ← char_at tup from; append_chars tup (from + 1)%Z n' (acc ++ [c])
  end.

Definition erase_at (len : N) (v : Locals) : Res Locals :=
  l ← erase (sub_u32 (index v) (already_delete v)) len (last v);
  Ok (mkLocals (hashString v) l ((already_delete v + len) mod UINT32) (index v)).

Definition advance (n : Z) (v : Locals) : Locals :=
  mkLocals (hashString v) (last v) (already_delete v) (index v + n)%Z.

(** The body of the inner loop, at attribute [j] of the schema. *)
Definition handle_attr (tup : bytes) (tableSchema : TableSchema) (rank j : nat)
    (v : Locals) : Res Locals :=
  a ← getAttr tableSchema j;
  match attrType a with
  | INT =>
      v1 ← (if bool_decide (j = rank) then
              h ← append_chars tup (index v) 4 (hashString v);
              erase_at 4 (mkLocals h (last v) (already_delete v) (index v))
            else Ok v);
      Ok (advance 4 v1)
  | CHAR =>
      v1 ← (if bool_decide (j = rank) then
              let k := Z.to_nat (attrMaxSize a) in
              h ← append_chars tup (index v) k (hashString v);
              erase_at (N.of_nat k) (mkLocals h (last v) (already_delete v) (index v))
            else Ok v);
      Ok (advance (attrMaxSize a) v1)
  | VARCHAR =>
      c ← char_at tup (index v);
      let size := stream_int c in
      v1 ← (if bool_decide (j = rank) then
              let k := Z.to_nat size in
              h ← append_chars tup (index v + 1)%Z k (hashString v);
              erase_at (N.of_nat k + 1) (mkLocals h (last v) (already_delete v) (index v))
            else Ok v);
      Ok (advance (size + 1) v1)
  end.

(** The body of the outer loop, for the common attribute [comAttr]. *)
Definition handle_common (tup : bytes) (tableSchema : TableSchema)
    (comAttr : string) (v : Locals) : Res Locals :=
  rank ← getAttrNum tableSchema comAttr;
  v1 ← forM (handle_attr tup tableSchema rank) (seq 0 (S rank))
            (mkLocals (hashString v) (last v) (already_delete v) 0);
  if bool_decide (Z.rem (index v1) 4 ≠ 0)%Z then
    let pad := (4 - Z.rem (index v1) 4)%Z in
    v2 ← erase_at (Z.to_N pad) v1;
    Ok (advance pad v2)
  else Ok v1.

(** [handle_tuple(hashString, sameName, tup, last, tableSchema)]; the
    result is the pair of the two output strings. *)
Definition handle_tuple (hashString0 : bytes) (sameName0 : list string) (tup : bytes)
    (last0 : bytes) (tableSchema : TableSchema) : Res (bytes * bytes) :=
  v ← forM (handle_common tup tableSchema) sameName0
           (mkLocals hashString0 (last0 ++ tup) 0 0);
  Ok (hashString v, last v).

(** ** Join operators *)

(** The fields of [JoinOperator] that [execute] reads and writes.
    [leftfile] and [rightfile] stand for the two [File] objects that
    [execute] opens through the catalog; the counters are [Z].  *)
Record JoinOperator : Type := mkJoinOperator {
  leftTableSchema : TableSchema;
  rightTableSchema : TableSchema;
  leftfile : FilePtr;
  rightfile : FilePtr;
  isComplete : bool;
  numResultTuples : Z;
  numUsedBufPages : Z;
  numIOs : Z
}.

(** What a call of [execute] can change: the operator, the buffer manager
    with the files behind it, and the records of the result file. *)
Record Exec : Type := mkExec {
  op : JoinOperator;
  mgr : BufMgr;
  resultFile : list bytes
}.

Definition set_op (o : JoinOperator) (x : Exec) : Exec := mkExec o (mgr x) (resultFile x).
Definition set_mgr (m : BufMgr) (x : Exec) : Exec := mkExec (op x) m (resultFile x).

Definition with_counters (complete : bool) (nres nbuf nio : Z) (o : JoinOperator)
  : JoinOperator :=
  mkJoinOperator (leftTableSchema o) (rightTableSchema o) (leftfile o) (rightfile o)
                 complete nres nbuf nio.

(** Modelled from the spec: [HeapFileManager::insertTuple] (storage.cpp is
    not part of the sources), "insert the result into resultFile": the
    tuple becomes the last record of the result file. The pool traffic of
    the insertion is not modelled: the insertion itself needs a frame of
    the pool and can throw, so a statement about [execute] is about the
    appended records and the counters of a call that returns, not about
    the pool during an insertion. *)
Definition insertTuple (t : bytes) (x : Exec) : Res Exec :=
  Ok (mkExec (op x) (mgr x) (resultFile x ++ [t])).

(** [File::open] followed by an iteration from [begin()] to [end()]. *)
Definition file_pages (f : FilePtr) (x : Exec) : Res (list Page) :=
  match files (mgr x) !! f with
  | Some ps => Ok ps
  | None => Undefined
  end.

(** [OnePassJoinOperator::execute]. *)
Definition OnePassJoin_execute (numAvailableBufPages : Z) (x : Exec) : Res (bool * Exec) :=
  if isComplete (op x) then Ok (true, x)
  else Ok (true, set_op (with_counters true 0 0 0 (op x)) x).

(** [GraceHashJoinOperator::execute]. *)
Definition GraceHashJoin_execute (numAvailableBufPages : Z) (x : Exec) : Res (bool * Exec) :=
  if isComplete (op x) then Ok (true, x)
  else Ok (true, set_op (with_counters true 0 0 0 (op x)) x).

(** The locals of [NestedLoopJoinOperator::execute] that live across the
    macro-passes of its [while] loop. *)
Record Pass : Type := mkPass {
  usedPage : list PageId;
  already_in_buf : list Page;
  hashMap : gmap bytes (list bytes);
  read_page_num : Z;
  usedPageNum : Z
}.

(** [hashMap] after a right tuple with key [k] and remainder [v]. *)
Definition hashMap_add (k v : bytes) (m : gmap bytes (list bytes))
  : gmap bytes (list bytes) :=
  match m !! k with
  | Some vs => <[k := vs ++ [v]]> m
  | None => <[k := [v]]> m
  end.

(** Build: the tuples of one right page go to [hashMap]. *)
Definition build_tuple (names : list string) (schema : TableSchema) (righttuple : bytes)
    (m : gmap bytes (list bytes)) : Res (gmap bytes (list bytes)) :=
  '(k, v) ← handle_tuple [] names righttuple [] schema;
  Ok (hashMap_add k v m).

Definition bump_io (o : JoinOperator) : JoinOperator :=
  with_counters (isComplete o) (numResultTuples o) (numUsedBufPages o + 1) (numIOs o + 1) o.

(** [int] is 32 bits wide. *)
Definition INT_MIN : Z := (-2147483648)%Z.

(** [numAvailableBufPages - 1] on [int]. At [INT_MIN] the subtraction
    overflows: the C++ standard leaves that undefined, the x86 targets of
    the project wrap around to [INT_MAX], and that is the value taken
    here. An [int] minus one never exceeds [INT_MAX]. *)
Definition int_pred (n : Z) : Z :=
  if (n <=? INT_MIN)%Z then (n - 1 + 2 ^ 32)%Z else (n - 1)%Z.

(** Build: the [for] loop over the pages of the right file. *)
Fixpoint build (numAvailableBufPages : Z) (names : list string) (pages : list Page)
    (st : Exec * Pass) : Res (Exec * Pass) :=
  match pages with
  | [] => Ok st
  | pg :: rest =>
      let '(x, lp) := st in
      if (int_pred numAvailableBufPages <=? read_page_num lp)%Z then Ok st
      else
        let pagenum := page_number pg in
        if negb (Nat.eqb (count (usedPage lp) pagenum) 0) then
          build numAvailableBufPages names rest st
        else
          '(frame, m1) ← readPage (rightfile (op x)) pagenum (mgr x);
          new_page ← page_at m1 frame;
          hm ← forM (build_tuple names (rightTableSchema (op x)))
                    (records new_page) (hashMap lp);
          build numAvailableBufPages names rest
            (mkExec (bump_io (op x)) m1 (resultFile x),
             mkPass (usedPage lp ++ [pagenum]) (already_in_buf lp ++ [new_page]) hm
                    (read_page_num lp + 1) (usedPageNum lp))
  end.

(** Probe: the loop over the matches [same] of one left tuple. The call
    [lefttuple.insert(lefttuple.size(), temp)] appends to [lefttuple]
    itself, so the state of the loop carries it. *)
Definition emit (temp : bytes) (st : bytes * Exec) : Res (bytes * Exec) :=
  let '(lefttuple, x) := st in
  let o := op x in
  let x1 := set_op (with_counters (isComplete o) (numResultTuples o + 1)
                                  (numUsedBufPages o) (numIOs o) o) x in
  let resultString := lefttuple ++ temp in
  x2 ← insertTuple resultString x1;
  Ok (resultString, x2).

Definition probe_tuple (names : list string) (m : gmap bytes (list bytes))
    (lefttuple : bytes) (x : Exec) : Res Exec :=
  '(k, _) ← handle_tuple [] names lefttuple [] (leftTableSchema (op x));
  match m !! k with
  | Some same => '(_, x') ← forM emit same (lefttuple, x); Ok x'
  | None => Ok x
  end.

(** Probe: the body of the loop over the pages of the left file. *)
Definition probe_page (names : list string) (m : gmap bytes (list bytes))
    (pg : Page) (x : Exec) : Res Exec :=
  let leftPagenum := page_number pg in
  '(frame, m1) ← readPage (leftfile (op x)) leftPagenum (mgr x);
  p ← page_at m1 frame;
  let x1 := mkExec (bump_io (op x)) m1 (resultFile x) in
  x2 ← forM (probe_tuple names m) (records p) x1;
  m2 ← unPinPage (leftfile (op x2)) leftPagenum false (mgr x2);
  Ok (set_mgr m2 x2).

Definition unpin_right (pg : Page) (x : Exec) : Res Exec :=
  m ← unPinPage (rightfile (op x)) (page_number pg) false (mgr x);
  Ok (set_mgr m x).

(** One macro-pass: the body of [while (usedPageNum < sum)]. *)
Definition macro_pass (numAvailableBufPages : Z) (names : list string)
    (st : Exec * Pass) : Res (Exec * Pass) :=
  rpages ← file_pages (rightfile (op st.1)) st.1;
  '(x1, lp1) ← build numAvailableBufPages names rpages st;
  let lp2 := mkPass (usedPage lp1) (already_in_buf lp1) (hashMap lp1)
                    (read_page_num lp1) (usedPageNum lp1 + read_page_num lp1) in
  lpages ← file_pages (leftfile (op x1)) x1;
  x2 ← forM (probe_page names (hashMap lp2)) lpages x1;
  x3 ← forM unpin_right (already_in_buf lp2) x2;
  m4 ← flushFile (rightfile (op x3)) (mgr x3);
  Ok (set_mgr m4 x3,
      mkPass (usedPage lp2) [] (hashMap lp2) 0 (usedPageNum lp2)).

(** The [while] loop, one unit of fuel per macro-pass. *)
Fixpoint macro_passes (fuel : nat) (numAvailableBufPages : Z) (names : list string)
    (sum : Z) (st : Exec * Pass) : option (Res (Exec * Pass)) :=
  if (usedPageNum st.2 <? sum)%Z then
    match fuel with
    | O => None
    | S fuel' =>
        match macro_pass numAvailableBufPages names st with
        | Ok st' => macro_passes fuel' numAvailableBufPages names sum st'
        | Throw e => Some (Throw e)
        | Undefined => Some Undefined
        end
    end
  else Some (Ok st).

(** [NestedLoopJoinOperator::execute]. *)
Definition NestedLoopJoin_execute (fuel : nat) (numAvailableBufPages : Z) (x : Exec)
  : option (Res (bool * Exec)) :=
  if isComplete (op x) then Some (Ok (true, x))
  else
    let x0 := set_op (with_counters false 0 0 0 (op x)) x in
    let names := sameName (leftTableSchema (op x0)) (rightTableSchema (op x0)) in
    match file_pages (rightfile (op x0)) x0, file_pages (leftfile (op x0)) x0 with
    | Ok rpages, Ok _ =>
        let sum := Z.of_nat (length rpages) in
        match macro_passes fuel numAvailableBufPages names sum
                (x0, mkPass [] [] ∅ 0 0) with
        | None => None
        | Some (Ok (x1, _)) =>
            let o := op x1 in
            Some (Ok (true,
                      set_op (with_counters true (numResultTuples o) (numUsedBufPages o)
                                            (numIOs o) o) x1))
        | Some (Throw e) => Some (Throw e)
        | Some Undefined => Some Undefined
        end
    | _, _ => Some Undefined
    end.

(** The three operators behind the virtual [execute]. *)
Inductive JoinKind : Type := OnePassJoin | NestedLoopJoin | GraceHashJoin.

Definition execute (kind : JoinKind) (fuel : nat) (numAvailableBufPages : Z) (x : Exec)
  : option (Res (bool * Exec)) :=
  match kind with
  | OnePassJoin => Some (OnePassJoin_execute numAvailableBufPages x)
  | NestedLoopJoin => NestedLoopJoin_execute fuel numAvailableBufPages x
  | GraceHashJoin => Some (GraceHashJoin_execute numAvailableBufPages x)
  end.

(** [JoinOperator::createResultTableSchema]: the left attributes, then the
    right attributes that have no left attribute of the same type and
    name. *)
Definition createResultTableSchema (leftTableSchema rightTableSchema : TableSchema)
  : TableSchema :=
  mkTableSchema "TEMP_TABLE"
    (attrs leftTableSchema ++
     List.filter
       (fun r => negb (existsb (fun l => same_attr l r) (attrs leftTableSchema)))
       (attrs rightTableSchema)).

(** ** Auxiliary notions used by the statements *)

(** What the clock sweep never changes on a frame it passes over. *)
Definition pinview (s : BufMgr) : list (bool * N) :=
  (fun d => (valid d, pinCnt d)) <$> bufDescTable s.

(** Frames that still hold a reference bit the sweep can clear. *)
Definition referenced (d : BufDesc) : bool := valid d && refbit d.
Definition num_referenced (l : list BufDesc) : nat :=
  length (List.filter referenced l).

(** Every frame holds a page and is pinned. *)
Definition all_pinned (s : BufMgr) : Prop :=
  Forall (fun d => valid d = true /\ 0 < pinCnt d) (bufDescTable s).

(** A file [A] of four pages, and pools of one and two frames over it. *)
Definition fileA : FilePtr := 1.
Definition pagesA : list Page :=
  [mkPage 1 []; mkPage 2 []; mkPage 3 []; mkPage 4 []].
Definition pool1 : BufMgr := BufMgr_new 1 {[fileA := pagesA]}.
Definition pool2 : BufMgr := BufMgr_new 2 {[fileA := pagesA]}.

(** fetch (A,1); fetch (A,2); unpin (A,2); fetch (A,3); unpin (A,3). *)
Definition pool2_history : Res BufMgr :=
  '(_, s) ← readPage fileA 1 pool2;
  '(_, s) ← readPage fileA 2 s;
  s ← unPinPage fileA 2 false s;
  '(_, s) ← readPage fileA 3 s;
  unPinPage fileA 3 false s.

(** The unpinned, unreferenced frames of a pool: those a sweep may evict. *)
Definition evictable (d : BufDesc) : bool :=
  negb (valid d) || (negb (refbit d) && (pinCnt d =? 0)).

(** [pool2] after fetch (A,1): frame 0 holds (A,1), pinned once. *)
Definition pool2_A1 : BufMgr :=
  match readPage fileA 1 pool2 with Ok (_, s) => s | _ => pool2 end.
(** ... and after the page was unpinned again. *)
Definition pool2_A1_unpinned : BufMgr :=
  match unPinPage fileA 1 false pool2_A1 with Ok s => s | _ => pool2 end.

(** A pool of three frames after fetch (A,1); fetch (A,2); fetch (A,3);
    unpin (A,2): frames 0 and 2 are pinned, frame 1 is not, and every
    reference bit is set. *)
Definition pool3_pinned : BufMgr :=
  match ('(_, s) ← readPage fileA 1 (BufMgr_new 3 {[fileA := pagesA]});
         '(_, s) ← readPage fileA 2 s;
         '(_, s) ← readPage fileA 3 s;
         unPinPage fileA 2 false s) with
  | Ok s => s
  | _ => BufMgr_new 3 {[fileA := pagesA]}
  end.
(** ... and after the [allocBuf] that follows. *)
Definition pool3_swept : BufMgr :=
  match allocBuf pool3_pinned with Ok (_, s) => s | _ => pool3_pinned end.

(** ** Sample relations *)

Definition str (s : string) : bytes := list_ascii_of_string s.

(** L(a INT, b INT) and R(a INT, c INT): one common attribute, [a]. *)
Definition schemaL : TableSchema :=
  mkTableSchema "L" [mkAttribute "a" INT 4 true false; mkAttribute "b" INT 4 true false].
Definition schemaR : TableSchema :=
  mkTableSchema "R" [mkAttribute "a" INT 4 true false; mkAttribute "c" INT 4 true false].

Definition fileL : FilePtr := 2.
Definition fileR : FilePtr := 3.

Definition join_input (bufs : N) (lpages rpages : list Page) : Exec :=
  mkExec (mkJoinOperator schemaL schemaR fileL fileR false 0 0 0)
         (BufMgr_new bufs {[fileL := lpages; fileR := rpages]})
         [].

(** One left tuple; two right tuples with its key, on one page. *)
Definition input_two_matches : Exec :=
  join_input 3 [mkPage 1 [str "KKKKLLLL"]]
               [mkPage 1 [str "KKKK1111"; str "KKKK2222"]].

(** One left tuple; two right tuples with its key, on two pages. *)
Definition input_two_passes : Exec :=
  join_input 3 [mkPage 1 [str "KKKKLLLL"]]
               [mkPage 1 [str "KKKK1111"]; mkPage 2 [str "KKKK2222"]].

(** The state in which the first macro-pass of [execute] starts. *)
Definition first_pass_state (x : Exec) : Exec * Pass :=
  (set_op (with_counters false 0 0 0 (op x)) x, mkPass [] [] ∅ 0 0).

Definition first_pass (numAvailableBufPages : Z) (x : Exec) : Res (Exec * Pass) :=
  macro_pass numAvailableBufPages
    (sameName (leftTableSchema (op x)) (rightTableSchema (op x)))
    (first_pass_state x).

(** The first [k] macro-passes of the [while] loop, without its exit
    test: what the loop does for as long as it is not left. *)
Fixpoint passes (k : nat) (numAvailableBufPages : Z) (names : list string)
    (st : Exec * Pass) : Res (Exec * Pass) :=
  match k with
  | O => Ok st
  | S k' =>
      st' ← macro_pass numAvailableBufPages names st;
      passes k' numAvailableBufPages names st'
  end.

(** One left and one right page behind a pool of one frame, whose frame
    another user of the pool holds pinned with page (A,1). *)
Definition x_pinned : Exec :=
  mkExec (mkJoinOperator schemaL schemaR fileL fileR false 0 0 0)
         (match readPage fileA 1
                  (BufMgr_new 1 {[fileA := pagesA;
                                  fileL := [mkPage 1 [str "KKKKLLLL"]];
                                  fileR := [mkPage 1 [str "KKKK1111"]]]}) with
          | Ok (_, m) => m
          | _ => BufMgr_new 1 ∅
          end)
         [].

(** A call that did not report success: it returned [false], threw, or
    did not return. *)
Definition reports_failure (r : option (Res (bool * Exec))) : Prop :=
  match r with
  | Some (Ok (true, _)) => False
  | _ => True
  end.

(** A right relation of one page and an empty left relation. *)
Definition input_empty_left : Exec :=
  join_input 3 [] [mkPage 1 [str "KKKK1111"]].

(** ** The tuple layout and the join as the specification words them *)

Definition pad4 (n : nat) : nat := (n + (4 - n mod 4) mod 4)%nat.

(** The span of an attribute at the head of [tup]: 4 bytes for INT, [n]
    padded to 4 for CHAR(n), [1 + L] padded to 4 for VARCHAR where [L] is
    the value of the length byte. *)
Definition attributeSpan (a : Attribute) (tup : bytes) : nat :=
  match attrType a with
  | INT => 4%nat
  | CHAR => pad4 (Z.to_nat (attrMaxSize a))
  | VARCHAR => pad4 (1 + match tup with c :: _ => nat_of_ascii c | [] => 0 end)
  end.

(** The key and the remainder of the specification: the spans of the
    attributes named in [commonAttrNames], in schema order, and the tuple
    with those spans deleted. *)
Fixpoint extractJoinKeyAndRemainder (schema : list Attribute)
    (commonAttrNames : list string) (tuple : bytes) : bytes * bytes :=
  match schema with
  | [] => ([], tuple)
  | a :: rest =>
      let n := attributeSpan a tuple in
      let '(key, remainder) :=
        extractJoinKeyAndRemainder rest commonAttrNames (drop n tuple) in
      if bool_decide (attrName a ∈ commonAttrNames)
      then (take n tuple ++ key, remainder)
      else (key, take n tuple ++ remainder)
  end.

(** The join of the specification: for every left tuple L and right tuple
    R with equal keys, L followed by the remainder of R. *)
Definition join_of_spec (leftSchema rightSchema : TableSchema)
    (lefts rights : list bytes) : list bytes :=
  let names := attrName <$> getCommonAttributes leftSchema rightSchema in
  flat_map
    (fun L =>
       flat_map
         (fun R =>
            let kl := (extractJoinKeyAndRemainder (attrs leftSchema) names L).1 in
            let '(kr, rem) := extractJoinKeyAndRemainder (attrs rightSchema) names R in
            if bool_decide (kl = kr) then [L ++ rem] else [])
         rights)
    lefts.

(** R'(a CHAR(5), b INT): a padded attribute before the common one. *)
Definition schemaR5 : TableSchema :=
  mkTableSchema "R" [mkAttribute "a" CHAR 5 true false; mkAttribute "b" INT 4 true false].
Definition tupleR5 : bytes := str "aaaaa" ++ [zero; zero; zero] ++ str "BBBB".

(** L(a INT, b INT) against R''(a CHAR(4), c INT): [a] is common by name
    only. *)
Definition schemaRc : TableSchema :=
  mkTableSchema "R" [mkAttribute "a" CHAR 4 true false; mkAttribute "c" INT 4 true false].
Definition input_name_only : Exec :=
  mkExec (mkJoinOperator schemaL schemaRc fileL fileR false 0 0 0)
         (BufMgr_new 3 {[fileL := [mkPage 1 [str "KKKKLLLL"]];
                         fileR := [mkPage 1 [str "KKKK1111"]]]})
         [].

(** The operator of [x] after a completed [execute]. *)
Definition completed (x : Exec) : Exec :=
  match NestedLoopJoin_execute 1 2 x with
  | Some (Ok (_, x')) => x'
  | _ => x
  end.

(** What the two unimplemented operators leave behind. *)
Definition stub_result (x : Exec) : Exec :=
  if isComplete (op x) then x else set_op (with_counters true 0 0 0 (op x)) x.

(** ** Schemas without padding *)

(** An attribute whose encoding has no padding and no length byte: INT, or
    CHAR(n) with [n] a multiple of 4. *)
Definition aligned (a : Attribute) : Prop :=
  attrType a = INT \/
  (attrType a = CHAR /\ (0 <= attrMaxSize a)%Z /\ (attrMaxSize a mod 4 = 0)%Z).

(** The number of bytes by which [handle_tuple] steps over an attribute
    of fixed size. *)
Definition width (a : Attribute) : Z :=
  match attrType a with
  | INT => 4%Z
  | _ => attrMaxSize a
  end.

(** The offset after the attributes [pre]. *)
Definition offset (pre : list Attribute) : Z :=
  foldr (fun a z => (width a + z)%Z) 0%Z pre.

(** ** The rest of the buffer manager *)

(** Modelled from the spec: [File::deletePage] (file.cpp is not part of
    the sources): the page of that number leaves the file. *)
Definition File_deletePage (f : FilePtr) (n : PageId) (s : BufMgr) : Res BufMgr :=
  match files s !! f with
  | None => Undefined
  | Some ps =>
      match find_page n ps with
      | Some _ =>
          Ok (set_files
                (<[f := List.filter (fun q => negb (page_number q =? n)) ps]> (files s)) s)
      | None => Throw InvalidPageException
      end
  end.

(** [BufMgr::disposePage]. *)
Definition disposePage (f : FilePtr) (n : PageId) (s : BufMgr) : Res BufMgr :=
  match hashTable s !! (f, n) with
  | Some frame =>
      d ← desc_at s frame;
      let s1 := set_desc frame (BufDesc_Clear d) s in
      s2 ← File_deletePage f n s1;
      Ok (set_hashTable (delete (f, n) (hashTable s2)) s2)
  | None => File_deletePage f n s
  end.

(** [BufMgr::~BufMgr]: the loop that flushes the file of every dirty
    frame; the three [delete]s that follow it end the object.
    [BufMgr_destroy] is the loop, whose [flushFile] can throw;
    [BufMgr_dtor] below is the destructor around it. *)
Definition destroy_frame (i : nat) (s : BufMgr) : Res BufMgr :=
  d ← desc_at s (N.of_nat i);
  if dirty d then flushFile (file d) s else Ok s.

Definition BufMgr_destroy (s : BufMgr) : Res BufMgr :=
  forM destroy_frame (seq 0 (length (bufDescTable s))) s.

(** How a function that lets no exception out ends: it returns, or an
    exception reaches its [noexcept] boundary and [std::terminate] ends
    the process; no caller sees that exception. *)
Inductive Outcome (A : Type) : Type :=
  | Returns (a : A)
  | Terminates (e : Exn)
  | UndefinedBehaviour.
Arguments Returns {A} a.
Arguments Terminates {A} e.
Arguments UndefinedBehaviour {A}.

(** [BufMgr::~BufMgr] as a whole. The destructor declares no exception
    specification and its members are pointers and integers, so it is
    [noexcept] (C++11): an exception of [flushFile] does not leave it. *)
Definition BufMgr_dtor (s : BufMgr) : Outcome BufMgr :=
  match BufMgr_destroy s with
  | Ok s' => Returns s'
  | Throw e => Terminates e
  | Undefined => UndefinedBehaviour
  end.

(** ** Consistency of the pool *)

(** Page [n] exists in file [f]. *)
Definition has_page (fs : gmap FilePtr (list Page)) (f : FilePtr) (n : PageId) : Prop :=
  exists ps, fs !! f = Some ps /\ is_Some (find_page n ps).

(** The state every operation of the pool expects and leaves: the hash
    table and the valid descriptors describe the same resident pages, a
    frame holds the page its descriptor names, that page exists in its
    file, an invalid descriptor is clear, and no [File] object lives at
    the null address. *)
Record wf (s : BufMgr) : Prop := mk_wf {
  wf_pool : length (bufPool s) = length (bufDescTable s);
  wf_hash : forall f n i,
      hashTable s !! (f, n) = Some i ->
      exists d, bufDescTable s !! N.to_nat i = Some d /\
                valid d = true /\ file d = f /\ pageNo d = n;
  wf_desc : forall i d,
      bufDescTable s !! i = Some d -> valid d = true ->
      hashTable s !! (file d, pageNo d) = Some (N.of_nat i) /\
      (exists p, bufPool s !! i = Some p /\ page_number p = pageNo d) /\
      has_page (files s) (file d) (pageNo d);
  wf_invalid : forall i d,
      bufDescTable s !! i = Some d -> valid d = false ->
      pinCnt d = 0 /\ dirty d = false /\ file d = NULL;
  wf_null : files s !! NULL = None
}.

(** A frame of file [f] that is pinned, and what [flushFile] makes of a
    descriptor. *)
Definition pinned_in (f : FilePtr) (d : BufDesc) : bool :=
  (file d =? f) && negb (pinCnt d =? 0).
Definition released (f : FilePtr) (d : BufDesc) : BufDesc :=
  if file d =? f then BufDesc_Clear d else d.

(** The page of number [n] that file [f] holds. *)
Definition stored (fs : gmap FilePtr (list Page)) (f : FilePtr) (n : PageId)
  : option Page :=
  fs !! f ≫= find_page n.

(** The descriptors without their reference bits: what a clock sweep
    leaves alone on the frames it does not select. *)
Definition norefbits (s : BufMgr) : list BufDesc :=
  with_refbit false <$> bufDescTable s.

(** [pool2_A1] with (A,1) unpinned dirty: frame 0 holds a dirty page. *)
Definition pool2_dirty : BufMgr :=
  match unPinPage fileA 1 true pool2_A1 with Ok s => s | _ => pool2 end.

(** [pool1] after fetch (A,1): its only frame is pinned. *)
Definition pool1_A1 : BufMgr :=
  match readPage fileA 1 pool1 with Ok (_, s) => s | _ => pool1 end.

(** [pool1_A1] with (A,1) unpinned dirty. *)
Definition pool1_dirty : BufMgr :=
  match unPinPage fileA 1 true pool1_A1 with Ok s => s | _ => pool1 end.

(** [pool2_dirty] after [flushFile(A)], and after the destructor's loop. *)
Definition pool2_flushed : BufMgr :=
  match flushFile fileA pool2_dirty with Ok s => s | _ => pool2 end.
Definition pool2_destroyed : BufMgr :=
  match BufMgr_destroy pool2_dirty with Ok s => s | _ => pool2 end.

(** [pool2_A1] after [disposePage(A, 1)], the page still pinned. *)
Definition pool2_disposed : BufMgr :=
  match disposePage fileA 1 pool2_A1 with Ok s => s | _ => pool2 end.

(** [pool2] after [allocPage(A)]. *)
Definition pool2_alloc : BufMgr :=
  match allocPage fileA pool2 with Ok (_, _, s) => s | _ => pool2 end.

(** [pool2] with (A,1) fetched twice and unpinned once, dirty: frame 0 is
    dirty and still pinned. *)
Definition pool2_dirty_pinned : BufMgr :=
  match ('(_, s) ← readPage fileA 1 pool2_A1; unPinPage fileA 1 true s) with
  | Ok s => s
  | _ => pool2
  end.

(** The history of [pool3_pinned] with (A,2) unpinned dirty and its page
    rewritten in frame 1: the next [allocBuf] evicts it between two
    pinned frames. *)
Definition pool3_dirty : BufMgr :=
  set_page 1 (mkPage 2 [str "new"])
    (match ('(_, s) ← readPage fileA 1 (BufMgr_new 3 {[fileA := pagesA]});
            '(_, s) ← readPage fileA 2 s;
            '(_, s) ← readPage fileA 3 s;
            unPinPage fileA 2 true s) with
     | Ok s => s
     | _ => pool3_pinned
     end).
Definition pool3_written : BufMgr :=
  match allocBuf pool3_dirty with Ok (_, s) => s | _ => pool3_dirty end.

(** ** The rest of the executor *)

(** [std::string(str, pos, len)]: throws when [pos > str.size()], copies at
    most [len] characters otherwise. [pos] and [len] are [int]s converted
    to [size_type]: a negative one becomes larger than any size. *)
Definition substr (str : bytes) (pos len : Z) : Res bytes :=
  if (pos <? 0)%Z || (Z.of_nat (length str) <? pos)%Z then Throw std_out_of_range
  else Ok (take (if (len <? 0)%Z then length str else Z.to_nat len)
                (drop (Z.to_nat pos) str)).

(** The value of a [char] as an [int]; [char] is signed, as on the x86
    targets of the project. *)
Definition int_of_char (c : ascii) : Z :=
  let n := Z.of_N (N_of_ascii c) in
  if (n <? 128)%Z then n else (n - 256)%Z.

(** [(4 - (n % 4)) % 4], the padding to the next multiple of 4. *)
Definition align (n : Z) : Z := Z.rem (4 - Z.rem n 4) 4.

Definition has_same (leftTableSchema : TableSchema) (r : Attribute) : bool :=
  existsb (fun l => same_attr l r) (attrs leftTableSchema).

(** [JoinOperator::joinTuples]: the body of the loop over the right
    attributes; the state is [cur_right_index] and [result_tuple]. *)
Definition join_attr (rightTuple : bytes) (leftTableSchema : TableSchema)
    (r : Attribute) (st : Z * bytes) : Res (Z * bytes) :=
  let '(cur, result) := st in
  let same := has_same leftTableSchema r in
  match attrType r with
  | INT =>
      result1 ← (if same then Ok result
                 else t ← substr rightTuple cur 4; Ok (result ++ t));
      Ok ((cur + 4)%Z, result1)
  | CHAR =>
      let max_len := attrMaxSize r in
      result1 ← (if same then Ok result
                 else t ← substr rightTuple cur max_len; Ok (result ++ t));
      let pad := Z.to_nat (align max_len) in
      Ok ((cur + max_len + Z.of_nat pad)%Z, result1 ++ replicate pad "0"%char)
  | VARCHAR =>
      c ← char_at rightTuple cur;
      let actual_len := int_of_char c in
      t0 ← substr rightTuple cur 1;
      let result0 := result ++ t0 in
      result1 ← (if same then Ok result0
                 else t ← substr rightTuple (cur + 1) actual_len; Ok (result0 ++ t));
      let pad := Z.to_nat (align (actual_len + 1)) in
      Ok ((cur + 1 + actual_len + Z.of_nat pad)%Z, result1 ++ replicate pad "0"%char)
  end.

Definition joinTuples (leftTuple rightTuple : bytes)
    (leftTableSchema rightTableSchema : TableSchema) : Res bytes :=
  '(_, result) ← forM (join_attr rightTuple leftTableSchema)
                      (attrs rightTableSchema) (0%Z, leftTuple);
  Ok result.

(** [TableScanner::print]: the INT case. A character of the key is read
    as [std::string(key, pos, 1)[0]], which is the terminating zero at
    [pos == key.size()]; the products with [pow(128, 3 - j)] and their
    sum are whole numbers below [2^31], exact in [double]. *)
Definition char_sub (key : bytes) (pos : Z) : Res ascii :=
  t ← substr key pos 1;
  Ok (match t with c :: _ => c | [] => zero end).

Fixpoint decode_int (key : bytes) (current_index : Z) (j : nat) (n : nat)
    (true_value : Z) : Res Z :=
  match n with
  | O => Ok true_value
  | S n' =>
      c ← char_sub key (current_index + Z.of_nat j);
      if bool_decide (c = zero) then
        decode_int key current_index (S j) n' true_value
      else
        decode_int key current_index (S j) n'
          (true_value + int_of_char c * 128 ^ (3 - Z.of_nat j))%Z
  end.

(** The body of the loop over the attributes; the state is
    [print_key] and [current_index]. *)
Definition print_attr (key : bytes) (a : Attribute) (st : bytes * Z) : Res (bytes * Z) :=
  let '(print_key, current_index) := st in
  '(print_key1, current_index1) ←
    match attrType a with
    | INT =>
        v ← decode_int key current_index 0 4 0;
        Ok (print_key ++ list_ascii_of_string (pretty v), (current_index + 4)%Z)
    | CHAR =>
        let max_len := attrMaxSize a in
        t ← substr key current_index max_len;
        Ok (print_key ++ t, (current_index + max_len + align max_len)%Z)
    | VARCHAR =>
        c ← char_at key current_index;
        let actual_len := int_of_char c in
        t ← substr key (current_index + 1) actual_len;
        Ok (print_key ++ t,
            (current_index + 1 + actual_len + align (actual_len + 1))%Z)
    end;
  Ok (print_key1 ++ [","%char], current_index1).

(** The line printed for one tuple. *)
Definition print_key (tableSchema : TableSchema) (key : bytes) : Res bytes :=
  '(line, _) ← forM (print_attr key) (attrs tableSchema) (["("%char], 0%Z);
  Ok (take (length line - 1) line ++ [")"%char]).

Fixpoint mapM {A B : Type} (f : A -> Res B) (l : list A) : Res (list B) :=
  match l with
  | [] => Ok []
  | x :: l' => y ← f x; ys ← mapM f l'; Ok (y :: ys)
  end.

(** The body of the loop over the pages of the table; the state is the
    lines written to [cout] and the buffer manager. *)
Definition print_page (tableSchema : TableSchema) (f : FilePtr) (pg : Page)
    (st : list bytes * BufMgr) : Res (list bytes * BufMgr) :=
  let '(out, s) := st in
  '(frame, s1) ← readPage f (page_number pg) s;
  buffered_page ← page_at s1 frame;
  lines ← mapM (print_key tableSchema) (records buffered_page);
  s2 ← unPinPage f (page_number pg) false s1;
  Ok (out ++ lines, s2).

(** [TableScanner::print]; [f] stands for the [File] object it opens. *)
Definition TableScanner_print (tableSchema : TableSchema) (f : FilePtr) (s : BufMgr)
  : Res (list bytes * BufMgr) :=
  match files s !! f with
  | None => Undefined
  | Some pages =>
      '(out, s1) ← forM (print_page tableSchema f) pages ([], s);
      s2 ← flushFile f s1;
      Ok (out, s2)
  end.

(** The tuples [execute] inserts for a left tuple whose key has the
    matches [same]: each one extends the one before. *)
Fixpoint running (lefttuple : bytes) (same : list bytes) : list bytes :=
  match same with
  | [] => []
  | temp :: rest => (lefttuple ++ temp) :: running (lefttuple ++ temp) rest
  end.

(** [x] after the probe of the left tuple 'KKKKLLLL' against a [hashMap]
    that holds two remainders for its key. *)
Definition probed (x : Exec) : Exec :=
  match probe_tuple ["a"%string] {[str "KKKK" := [str "1111"; str "2222"]]}
                    (str "KKKKLLLL") x with
  | Ok x' => x'
  | _ => x
  end.

(** The bookkeeping [execute] keeps between two states: the two I/O
    counters move together, and the result counter moves with the number
    of records of the result file, which only grows at its end. *)
Definition counted (x0 x : Exec) : Prop :=
  (numUsedBufPages (op x) - numUsedBufPages (op x0)
   = numIOs (op x) - numIOs (op x0))%Z /\
  (0 <= numIOs (op x) - numIOs (op x0))%Z /\
  (exists new, resultFile x = resultFile x0 ++ new /\
               (numResultTuples (op x) - numResultTuples (op x0)
                = Z.of_nat (length new))%Z).

(** What [execute] never changes of its operator before it completes. *)
Definition same_tables (x x' : Exec) : Prop :=
  leftTableSchema (op x') = leftTableSchema (op x) /\
  rightTableSchema (op x') = rightTableSchema (op x) /\
  leftfile (op x') = leftfile (op x) /\
  rightfile (op x') = rightfile (op x) /\
  isComplete (op x') = isComplete (op x).

Definition progress (x x' : Exec) : Prop := counted x x' /\ same_tables x x'.

(** A left relation of one page and an empty right relation. *)
Definition input_empty_right : Exec :=
  join_input 3 [mkPage 1 [str "KKKKLLLL"]] [].

(** ** The pages of a file *)

(** The page numbers of the file [f], in iteration order. *)
Definition page_numbers (s : BufMgr) (f : FilePtr) : option (list PageId) :=
  match files s !! f with
  | Some ps => Some (page_number <$> ps)
  | None => None
  end.

(** No file gained, lost or renumbered a page between [s] and [s']. *)
Definition same_pages (s s' : BufMgr) : Prop :=
  forall f, page_numbers s' f = page_numbers s f.

(** The state of [execute] at the head of its [while] loop, for a right
    file with the page numbers [rnums]: [read_page_num] is 0 and
    [usedPageNum] is the size of [usedPage]. *)
Definition pass_start (rnums : list PageId) (st : Exec * Pass) : Prop :=
  page_numbers (mgr st.1) (rightfile (op st.1)) = Some rnums /\
  read_page_num st.2 = 0%Z /\
  usedPageNum st.2 = Z.of_nat (length (usedPage st.2)).

(** ** Tuples without padding *)

(** A column of a tuple, an attribute with the bytes of its field, whose
    encoding has no padding and no length byte. *)
Definition fits (c : Attribute * bytes) : Prop :=
  aligned c.1 /\ Z.of_nat (length c.2) = width c.1.

(** The right columns that have no left attribute of their type and
    name. *)
Definition kept (leftTableSchema : TableSchema) (cols : list (Attribute * bytes))
  : list (Attribute * bytes) :=
  List.filter (fun c => negb (has_same leftTableSchema c.1)) cols.

(** The number an INT field is printed as: its bytes as digits in base
    128, the most significant first. *)
Definition value128 (v : bytes) : Z :=
  foldl (fun acc c => (acc * 128 + int_of_char c)%Z) 0%Z v.

(** The text of a column in a printed line. *)
Definition shown (c : Attribute * bytes) : bytes :=
  match attrType c.1 with
  | INT => list_ascii_of_string (pretty (value128 c.2))
  | _ => c.2
  end.

(** ** The pool while a table is scanned *)

(** The pool during [TableScanner::print] of the file [f] with the pages
    [ps]: no frame is pinned between two pages, the file still holds
    [ps], and a frame of [f] is clean and holds the page of the file. *)
Definition scanning (f : FilePtr) (ps : list Page) (t : BufMgr) : Prop :=
  wf t /\ numBufs t <> 0 /\ numBufs t < UINT32 /\
  Forall (fun d => pinCnt d = 0) (bufDescTable t) /\
  (forall n, stored (files t) f n = find_page n ps) /\
  (forall i d, bufDescTable t !! i = Some d -> valid d = true -> file d = f ->
     dirty d = false /\
     exists p, bufPool t !! i = Some p /\ find_page (pageNo d) ps = Some p).

(** A table L of two pages with one tuple each, behind a pool of one
    frame. *)
Definition tableL : list Page :=
  [mkPage 1 [[zero; zero; zero; one; zero; zero; one; "002"%char]];
   mkPage 2 [str "KKKKLLLL"]].
Definition pool1_L : BufMgr := BufMgr_new 1 {[fileL := tableL]}.

(** * The buffer manager: clock replacement *)

Lemma numBufs_set_desc i d s : numBufs (set_desc i d s) = numBufs s.
Proof. unfold numBufs, set_desc; simpl. by rewrite length_insert. Qed.

Lemma advanceClock_Ok s s1 :
  advanceClock s = Ok s1 ->
  s1 = set_clockHand (((clockHand s + 1) mod UINT32) mod numBufs s) s /\
  numBufs s <> 0.
Proof.
  unfold advanceClock. destruct (N.eqb_spec (numBufs s) 0); [done|].
  intros [= <-]. done.
Qed.

Lemma advanceClock_hand_lt s s1 :
  advanceClock s = Ok s1 -> clockHand s1 < numBufs s1.
Proof.
  intros [-> Hn]%advanceClock_Ok. simpl.
  change (numBufs (set_clockHand _ s)) with (numBufs s).
  by apply N.mod_lt.
Qed.

Lemma pinview_set_refbit s i d b :
  bufDescTable s !! N.to_nat i = Some d ->
  pinview (set_desc i (with_refbit b d) s) = pinview s.
Proof.
  intros Hd. unfold pinview, set_desc; simpl.
  rewrite list_fmap_insert. apply list_insert_id.
  by rewrite list_lookup_fmap, Hd.
Qed.

Lemma pinview_lookup s s1 i d1 :
  pinview s1 = pinview s ->
  bufDescTable s1 !! i = Some d1 ->
  exists d, bufDescTable s !! i = Some d /\ valid d = valid d1 /\ pinCnt d = pinCnt d1.
Proof.
  intros Hv Hd1.
  assert (H : pinview s !! i = Some (valid d1, pinCnt d1)).
  { rewrite <- Hv. unfold pinview. by rewrite list_lookup_fmap, Hd1. }
  unfold pinview in H. rewrite list_lookup_fmap in H.
  destruct (bufDescTable s !! i) as [d|]; [|done].
  injection H as H1 H2. eauto.
Qed.

(** The frame the sweep ends on was, on entry, invalid or unpinned. *)
Lemma allocBuf_loop_victim fuel : forall pinned s frame s',
  allocBuf_loop fuel pinned s = Some (Ok (frame, s')) ->
  exists d, bufDescTable s !! N.to_nat frame = Some d /\
            (valid d = false \/ pinCnt d = 0).
Proof.
  induction fuel as [|fuel IH]; intros pinned s frame s' H; [done|].
  simpl in H.
  destruct (advanceClock s) as [s1| |] eqn:Hadv; [|done..].
  apply advanceClock_Ok in Hadv as [Hs1 _].
  assert (Hv1 : pinview s1 = pinview s) by (by subst s1).
  destruct (pinned =? numBufs s1); [done|].
  destruct (bufDescTable s1 !! N.to_nat (clockHand s1)) as [d|] eqn:Hd; [|done].
  destruct (valid d) eqn:Hvalid; simpl in H.
  - destruct (refbit d) eqn:Href.
    + apply IH in H as (d' & Hd' & Hp).
      destruct (pinview_lookup s _ _ d' (eq_trans (pinview_set_refbit s1 _ d false Hd) Hv1) Hd')
        as (d0 & ? & Hva & Hpi).
      exists d0. split; [done|]. by rewrite Hva, Hpi.
    + destruct (N.ltb_spec 0 (pinCnt d)) as [Hpin|Hpin].
      * apply IH in H as (d' & Hd' & Hp).
        destruct (pinview_lookup s _ _ d' Hv1 Hd') as (d0 & ? & Hva & Hpi).
        exists d0. split; [done|]. by rewrite Hva, Hpi.
      * simpl in H.
        assert (frame = clockHand s1) as ->.
        { destruct (dirty d); simpl in H.
          - destruct (page_at s1 (clockHand s1)); simpl in H; [|done..].
            destruct (File_writePage (file d) a s1); simpl in H; [|done..].
            by injection H.
          - by injection H. }
        destruct (pinview_lookup s _ _ d Hv1 Hd) as (d0 & ? & Hva & Hpi).
        exists d0. split; [done|]. right. rewrite Hpi. lia.
  - injection H as <- _.
    destruct (pinview_lookup s _ _ d Hv1 Hd) as (d0 & ? & Hva & Hpi).
    exists d0. split; [done|]. left. by rewrite Hva.
Qed.

(** C2. Whenever [allocBuf] hands out a frame, that frame's descriptor had
    [pinCnt = 0] or [valid = false] when the call was made; the sweep
    changes neither field of a frame it passes over, so this is also the
    descriptor's state at the moment of selection. A frame with
    [pinCnt > 0] that holds a page is never the victim. *)
Theorem allocBuf_never_selects_pinned (s s' : BufMgr) (frame : FrameId) :
  allocBuf s = Ok (frame, s') ->
  exists d, bufDescTable s !! N.to_nat frame = Some d /\
            (pinCnt d = 0 \/ valid d = false).
Proof.
  unfold allocBuf. intros H.
  destruct (allocBuf_loop (allocBuf_fuel s) 0 s) as [r|] eqn:Hl; [|done].
  subst r. apply allocBuf_loop_victim in Hl as (d & Hd & Hp).
  exists d. tauto.
Qed.

Lemma allocBuf_never_selects_pinned_witness :
  pinCnt <$> bufDescTable pool3_pinned = [1; 0; 1] /\
  exists d, bufDescTable pool3_pinned !! N.to_nat 1 = Some d /\
            (pinCnt d = 0 \/ valid d = false).
Proof.
  split; [vm_compute; reflexivity|].
  apply (allocBuf_never_selects_pinned pool3_pinned pool3_swept 1).
  vm_compute. reflexivity.
Defined.

(** ** The sweep terminates *)

Lemma num_referenced_clear l i d :
  l !! i = Some d -> referenced d = true ->
  S (num_referenced (<[i := with_refbit false d]> l)) = num_referenced l.
Proof.
  intros Hd Hr. unfold num_referenced.
  rewrite insert_take_drop by (by eapply lookup_lt_Some).
  rewrite <- (take_drop_middle l i d Hd) at 3.
  rewrite !List.filter_app, !length_app. simpl.
  rewrite Hr. unfold referenced at 2. simpl.
  rewrite andb_false_r. simpl. lia.
Qed.

Lemma num_referenced_le l : (num_referenced l <= length l)%nat.
Proof. apply List.filter_length_le. Qed.

Lemma allocBuf_loop_fuel fuel : forall pinned s,
  numBufs s < UINT32 -> pinned <= numBufs s ->
  (num_referenced (bufDescTable s) + N.to_nat (numBufs s - pinned) < fuel)%nat ->
  is_Some (allocBuf_loop fuel pinned s).
Proof.
  induction fuel as [|fuel IH]; intros pinned s Hn Hp Hf; [lia|].
  simpl.
  destruct (advanceClock s) as [s1| |] eqn:Hadv; [|done..].
  pose proof (advanceClock_hand_lt _ _ Hadv) as Hlt.
  apply advanceClock_Ok in Hadv as [Hs1 Hn0].
  assert (Hn1 : numBufs s1 = numBufs s) by (by subst s1).
  assert (Ht1 : bufDescTable s1 = bufDescTable s) by (by subst s1).
  rewrite Hn1.
  destruct (N.eqb_spec pinned (numBufs s)); [done|].
  destruct (bufDescTable s1 !! N.to_nat (clockHand s1)) as [d|] eqn:Hd; [|done].
  destruct (valid d) eqn:Hvalid; simpl; [|done].
  destruct (refbit d) eqn:Href.
  - apply IH.
    + by rewrite numBufs_set_desc, Hn1.
    + by rewrite numBufs_set_desc, Hn1.
    + rewrite numBufs_set_desc, Hn1. simpl.
      pose proof (num_referenced_clear _ _ d Hd) as Hc.
      rewrite Ht1 in Hc. rewrite Ht1.
      unfold referenced in Hc at 1. rewrite Hvalid, Href in Hc.
      specialize (Hc eq_refl). lia.
  - destruct (N.ltb_spec 0 (pinCnt d)); [|done].
    assert (Hw : (pinned + 1) mod UINT32 = pinned + 1).
    { apply N.mod_small. lia. }
    rewrite Hw. apply IH; rewrite ?Hn1, ?Ht1; lia.
Qed.

(** X1. [allocBuf] never runs out of its iterations on a pool built with a
    [uint32] size: it selects a frame, throws or hits undefined behaviour
    within [2 * numBufs + 1] iterations. *)
Lemma allocBuf_loop_terminates s :
  numBufs s < UINT32 ->
  exists r, allocBuf_loop (allocBuf_fuel s) 0 s = Some r /\ allocBuf s = r.
Proof.
  intros Hn.
  destruct (allocBuf_loop_fuel (allocBuf_fuel s) 0 s Hn) as [r Hr].
  - lia.
  - unfold allocBuf_fuel. pose proof (num_referenced_le (bufDescTable s)).
    unfold numBufs. lia.
  - exists r. split; [done|]. unfold allocBuf. by rewrite Hr.
Qed.

(** ** Exhaustion *)

Lemma all_pinned_set_refbit s i d b :
  all_pinned s -> bufDescTable s !! N.to_nat i = Some d ->
  all_pinned (set_desc i (with_refbit b d) s).
Proof.
  unfold all_pinned, set_desc; simpl. intros Hall Hd.
  apply Forall_insert; [done|].
  rewrite Forall_lookup in Hall. exact (Hall _ _ Hd).
Qed.

Lemma allocBuf_loop_all_pinned fuel : forall pinned s,
  all_pinned s -> numBufs s < UINT32 -> pinned <= numBufs s -> numBufs s <> 0 ->
  (num_referenced (bufDescTable s) + N.to_nat (numBufs s - pinned) < fuel)%nat ->
  allocBuf_loop fuel pinned s = Some (Throw BufferExceededException).
Proof.
  induction fuel as [|fuel IH]; intros pinned s Hall Hn Hp Hn0 Hf; [lia|].
  simpl.
  destruct (advanceClock s) as [s1| |] eqn:Hadv;
    [|unfold advanceClock in Hadv; destruct (N.eqb_spec (numBufs s) 0); done..].
  pose proof (advanceClock_hand_lt _ _ Hadv) as Hlt.
  apply advanceClock_Ok in Hadv as [Hs1 _].
  assert (Hn1 : numBufs s1 = numBufs s) by (by subst s1).
  assert (Ht1 : bufDescTable s1 = bufDescTable s) by (by subst s1).
  assert (Hall1 : all_pinned s1) by (unfold all_pinned; by rewrite Ht1).
  rewrite Hn1.
  destruct (N.eqb_spec pinned (numBufs s)); [done|].
  destruct (bufDescTable s1 !! N.to_nat (clockHand s1)) as [d|] eqn:Hd.
  2:{ apply lookup_ge_None in Hd. unfold numBufs in Hlt. lia. }
  assert (Hd' := Hd). rewrite Ht1 in Hd'.
  unfold all_pinned in Hall. rewrite Forall_lookup in Hall.
  destruct (Hall _ _ Hd') as [Hvalid Hpin].
  rewrite Hvalid; simpl.
  destruct (refbit d) eqn:Href.
  - apply IH.
    + by apply all_pinned_set_refbit.
    + by rewrite numBufs_set_desc, Hn1.
    + by rewrite numBufs_set_desc, Hn1.
    + by rewrite numBufs_set_desc, Hn1.
    + rewrite numBufs_set_desc, Hn1. simpl.
      pose proof (num_referenced_clear _ _ d Hd) as Hc.
      rewrite Ht1 in Hc. rewrite Ht1.
      unfold referenced in Hc at 1. rewrite Hvalid, Href in Hc.
      specialize (Hc eq_refl). lia.
  - destruct (N.ltb_spec 0 (pinCnt d)); [|lia].
    assert (Hw : (pinned + 1) mod UINT32 = pinned + 1).
    { apply N.mod_small. lia. }
    rewrite Hw. apply IH; rewrite ?Hn1, ?Ht1; try done; lia.
Qed.

(** X2. When every frame holds a pinned page, the sweep throws
    [BufferExceededException]: exhaustion is always detected. *)
Lemma allocBuf_all_pinned s :
  all_pinned s -> numBufs s <> 0 -> numBufs s < UINT32 ->
  allocBuf s = Throw BufferExceededException.
Proof.
  intros Hall Hn0 Hn. unfold allocBuf.
  rewrite (allocBuf_loop_all_pinned _ 0 s Hall Hn); [done|lia|done|].
  unfold allocBuf_fuel. pose proof (num_referenced_le (bufDescTable s)).
  unfold numBufs. lia.
Qed.

(** The exception of [allocBuf] leaves [readPage] and [allocPage]
    unhandled: the only handler there is for [HashNotFoundException]. *)
Lemma readPage_propagates f n s e :
  hashTable s !! (f, n) = None -> allocBuf s = Throw e ->
  readPage f n s = Throw e.
Proof. intros Hm He. unfold readPage. by rewrite Hm, He. Qed.

Lemma allocPage_propagates f s p s1 e :
  File_allocatePage f s = Ok (p, s1) -> allocBuf s1 = Throw e ->
  allocPage f s = Throw e.
Proof. intros Hp He. unfold allocPage. rewrite Hp. simpl. by rewrite He. Qed.

(** Capacity 1: with (A,1) fetched and held, fetching (A,2) throws. *)
Lemma exhaustion_scenario :
  exists s1, readPage fileA 1 pool1 = Ok (0, s1) /\
             (pinCnt <$> bufDescTable s1) = [1] /\
             readPage fileA 2 s1 = Throw BufferExceededException.
Proof. eexists. split; [vm_compute; reflexivity|]. split; vm_compute; reflexivity. Qed.

(** C3. [BufferExceededException] without exhaustion. After fetch (A,1),
    fetch (A,2), unpin (A,2), fetch (A,3), unpin (A,3) on a pool of two
    frames, frame 1 holds (A,3) with [pinCnt = 0], yet fetching (A,4)
    throws: the sweep meets the pinned frame 0 twice (once before and once
    after clearing the reference bit of frame 1) and [pinned] reaches
    [numBufs] although an unpinned frame exists. *)
Theorem allocBuf_premature_BufferExceeded :
  exists s,
    pool2_history = Ok s /\
    numBufs s = 2 /\
    (exists d, bufDescTable s !! 1%nat = Some d /\
               valid d = true /\ pinCnt d = 0 /\ refbit d = true /\
               evictable (with_refbit false d) = true) /\
    ~ all_pinned s /\
    hashTable s !! (fileA, 4) = None /\
    allocBuf s = Throw BufferExceededException /\
    readPage fileA 4 s = Throw BufferExceededException.
Proof.
  eexists. split; [vm_compute; reflexivity|].
  split; [reflexivity|].
  split; [eexists; split; [vm_compute; reflexivity|by vm_compute]|].
  split.
  { unfold all_pinned. rewrite Forall_lookup. intros H.
    specialize (H 1%nat _ eq_refl) as [_ H]. simpl in H. lia. }
  repeat split; vm_compute; reflexivity.
Qed.

(** ** Unpinning *)

(** C7. [unPinPage] on a resident page whose [pinCnt] is 0 throws
    [PageNotPinnedException]; on a resident page with [pinCnt > 0] it
    decrements [pinCnt] and sets the dirty bit when [isDirty] holds, never
    clearing it; on a page that is not resident it returns with the state
    unchanged. *)
Theorem unPinPage_spec (f : FilePtr) (n : PageId) (isDirty : bool) (s : BufMgr) :
  (forall frame d,
      hashTable s !! (f, n) = Some frame ->
      bufDescTable s !! N.to_nat frame = Some d ->
      pinCnt d = 0 ->
      unPinPage f n isDirty s = Throw (PageNotPinnedException n frame)) /\
  (forall frame d,
      hashTable s !! (f, n) = Some frame ->
      bufDescTable s !! N.to_nat frame = Some d ->
      0 < pinCnt d ->
      unPinPage f n isDirty s =
        Ok (set_desc frame
              (mkBufDesc (file d) (pageNo d) (frameNo d) (pinCnt d - 1)
                         (isDirty || dirty d) (valid d) (refbit d)) s)) /\
  (hashTable s !! (f, n) = None -> unPinPage f n isDirty s = Ok s).
Proof.
  unfold unPinPage, desc_at. repeat split.
  - intros frame d -> -> Hp. simpl. rewrite Hp. done.
  - intros frame d -> -> Hp. simpl.
    destruct (N.ltb_spec 0 (pinCnt d)); [|lia].
    destruct isDirty; destruct d; reflexivity.
  - intros ->. done.
Qed.

Lemma unPinPage_spec_witness :
  unPinPage fileA 1 false pool2_A1_unpinned = Throw (PageNotPinnedException 1 0) /\
  unPinPage fileA 1 true pool2_A1 =
    Ok (set_desc 0 (mkBufDesc fileA 1 0 0 true true true) pool2_A1) /\
  unPinPage fileA 2 true pool2_A1 = Ok pool2_A1.
Proof.
  split; [|split].
  - apply (proj1 (unPinPage_spec fileA 1 false pool2_A1_unpinned) 0
             (mkBufDesc fileA 1 0 0 false true true));
      vm_compute; reflexivity.
  - apply (proj1 (proj2 (unPinPage_spec fileA 1 true pool2_A1)) 0
             (mkBufDesc fileA 1 0 1 false true true));
      vm_compute; reflexivity.
  - apply (proj2 (proj2 (unPinPage_spec fileA 2 true pool2_A1)));
      vm_compute; reflexivity.
Defined.

(** * The join operators *)

Ltac res_cases H :=
  repeat match type of H with
    | context [mbind _ ?m] =>
        let E := fresh "E" in
        destruct m as [?| |] eqn:E; simpl in H; [|discriminate H..]
    | (let '(_, _) := ?p in _) = _ => destruct p; simpl in H
    | context [match ?p with pair _ _ => _ end] => destruct p; simpl in H
    end.

(** ** A budget of one page *)

Lemma int_pred_small n : (INT_MIN < n)%Z -> int_pred n = (n - 1)%Z.
Proof.
  intros Hn. unfold int_pred. by destruct (Z.leb_spec n INT_MIN); [lia|].
Qed.

Lemma build_no_budget numAvail names pages st :
  (INT_MIN < numAvail <= 1)%Z -> read_page_num st.2 = 0%Z ->
  build numAvail names pages st = Ok st.
Proof.
  intros Hn Hr. destruct pages as [|pg rest]; [done|].
  destruct st as [x lp]. simpl in *. rewrite Hr, int_pred_small by lia.
  destruct (Z.leb_spec (numAvail - 1) 0); [done|lia].
Qed.

Lemma macro_pass_no_budget numAvail names st st' :
  (INT_MIN < numAvail <= 1)%Z -> read_page_num st.2 = 0%Z ->
  macro_pass numAvail names st = Ok st' ->
  usedPageNum st'.2 = usedPageNum st.2 /\ read_page_num st'.2 = 0%Z /\
  usedPage st'.2 = usedPage st.2 /\ hashMap st'.2 = hashMap st.2.
Proof.
  intros Hn Hr H. unfold macro_pass in H.
  destruct (file_pages (rightfile (op st.1)) st.1) as [rp| |]; simpl in H; [|done..].
  rewrite (build_no_budget _ _ _ _ Hn Hr) in H. simpl in H.
  destruct st as [x lp]. simpl in *.
  res_cases H.
  injection H as <-. simpl. rewrite Hr. repeat split; lia.
Qed.

(** Without a budget the loop is never left by its test: it runs its
    macro-passes until one of them fails. *)
Lemma macro_passes_no_budget fuel : forall numAvail names sum st,
  (INT_MIN < numAvail <= 1)%Z -> (0 < sum)%Z ->
  read_page_num st.2 = 0%Z -> usedPageNum st.2 = 0%Z ->
  macro_passes fuel numAvail names sum st
  = match passes fuel numAvail names st with
    | Ok _ => None
    | Throw e => Some (Throw e)
    | Undefined => Some Undefined
    end.
Proof.
  induction fuel as [|fuel IH]; intros numAvail names sum st Hn Hs Hr Hu; simpl;
    rewrite Hu; destruct (Z.ltb_spec 0 sum); try lia; [done|].
  destruct (macro_pass numAvail names st) as [st1| |] eqn:Hp; [|done..].
  destruct (macro_pass_no_budget _ _ _ _ Hn Hr Hp) as (Hu1 & Hr1 & _).
  simpl. apply IH; [done..|]. by rewrite Hu1.
Qed.

(** C10 (amended). With [INT_MIN < numAvailableBufPages <= 1] and a right
    relation of at least one page, a first call of
    [NestedLoopJoinOperator::execute] never returns. The build step of
    every macro-pass stops before its first fetch and leaves every local
    as it was; a macro-pass that completes leaves [usedPageNum] and
    [usedPage] unchanged; the test of the [while] loop never ends it: the
    call goes on for as long as its macro-passes complete, and ends
    exactly when one of them throws (or has undefined behaviour), with
    that exception. *)
Theorem NestedLoopJoin_no_budget_never_returns
    (fuel : nat) (numAvailableBufPages : Z) (x : Exec) (rpages lpages : list Page) :
  isComplete (op x) = false ->
  (INT_MIN < numAvailableBufPages <= 1)%Z ->
  files (mgr x) !! rightfile (op x) = Some rpages -> rpages <> [] ->
  files (mgr x) !! leftfile (op x) = Some lpages ->
  (forall names pages st,
      read_page_num st.2 = 0%Z ->
      build numAvailableBufPages names pages st = Ok st) /\
  (forall names st st',
      read_page_num st.2 = 0%Z ->
      macro_pass numAvailableBufPages names st = Ok st' ->
      usedPageNum st'.2 = usedPageNum st.2 /\ read_page_num st'.2 = 0%Z /\
      usedPage st'.2 = usedPage st.2) /\
  NestedLoopJoin_execute fuel numAvailableBufPages x
  = match passes fuel numAvailableBufPages
            (sameName (leftTableSchema (op x)) (rightTableSchema (op x)))
            (first_pass_state x) with
    | Ok _ => None
    | Throw e => Some (Throw e)
    | Undefined => Some Undefined
    end /\
  (forall r, NestedLoopJoin_execute fuel numAvailableBufPages x <> Some (Ok r)).
Proof.
  intros Hc Hn Hf Hne Hl.
  assert (Hrun : NestedLoopJoin_execute fuel numAvailableBufPages x
                 = match passes fuel numAvailableBufPages
                           (sameName (leftTableSchema (op x)) (rightTableSchema (op x)))
                           (first_pass_state x) with
                   | Ok _ => None
                   | Throw e => Some (Throw e)
                   | Undefined => Some Undefined
                   end).
  { unfold NestedLoopJoin_execute. rewrite Hc.
    unfold file_pages. simpl. rewrite Hf, Hl.
    rewrite (macro_passes_no_budget fuel numAvailableBufPages _ _ _ Hn);
      [|destruct rpages; [done|simpl; lia]|done..].
    unfold first_pass_state. simpl. by destruct (passes _ _ _ _). }
  split_and!.
  - intros. by apply build_no_budget.
  - intros names st st' Hr Hp.
    destruct (macro_pass_no_budget _ _ _ _ Hn Hr Hp) as (? & ? & ? & _). done.
  - exact Hrun.
  - intros r. rewrite Hrun. by destruct (passes _ _ _ _).
Qed.

Lemma NestedLoopJoin_no_budget_never_returns_witness :
  build 1 (sameName schemaL schemaR)
        [mkPage 1 [str "KKKK1111"]; mkPage 2 [str "KKKK2222"]]
        (first_pass_state input_two_passes)
    = Ok (first_pass_state input_two_passes) /\
  NestedLoopJoin_execute 3 1 input_two_passes = None.
Proof.
  assert (H := NestedLoopJoin_no_budget_never_returns 3 1 input_two_passes
                 [mkPage 1 [str "KKKK1111"]; mkPage 2 [str "KKKK2222"]]
                 [mkPage 1 [str "KKKKLLLL"]]).
  destruct H as (Hbuild & _ & Hrun & _).
  - reflexivity.
  - done.
  - vm_compute. reflexivity.
  - discriminate.
  - vm_compute. reflexivity.
  - split.
    + apply Hbuild. reflexivity.
    + rewrite Hrun. vm_compute. reflexivity.
Defined.

(** With a budget of one page and a right relation of one page, a first
    call of [execute] on a pool whose only frame another user holds
    pinned ends in its first macro-pass: the fetch of the left page throws
    [BufferExceededException]. *)
Lemma NestedLoopJoin_no_budget_throws :
  isComplete (op x_pinned) = false /\
  files (mgr x_pinned) !! rightfile (op x_pinned) = Some [mkPage 1 [str "KKKK1111"]] /\
  NestedLoopJoin_execute 1 1 x_pinned = Some (Throw BufferExceededException).
Proof. split_and!; vm_compute; reflexivity. Qed.

(** At [INT_MIN] the budget test of the build loop wraps around: the
    call reads the right page and returns. *)
Lemma NestedLoopJoin_INT_MIN_returns :
  exists x', NestedLoopJoin_execute 1 INT_MIN input_two_matches = Some (Ok (true, x')).
Proof. eexists. vm_compute. reflexivity. Qed.

(** On a concrete input the loop runs forever without an exception: no
    amount of fuel gives a result. *)
Lemma NestedLoopJoin_no_budget_diverges fuel :
  NestedLoopJoin_execute fuel 1 input_empty_left = None.
Proof.
  assert (Hstep : first_pass 1 input_empty_left = Ok (first_pass_state input_empty_left))
    by (vm_compute; reflexivity).
  assert (Hloop : forall n,
             macro_passes n 1 (sameName schemaL schemaR) 1
               (first_pass_state input_empty_left) = None).
  { induction n as [|n IH]; [reflexivity|].
    simpl. unfold first_pass in Hstep. simpl in Hstep. rewrite Hstep. exact IH. }
  unfold NestedLoopJoin_execute. simpl.
  change (file_pages fileR _) with (Ok [mkPage 1 [str "KKKK1111"]] : Res (list Page)).
  change (file_pages fileL _) with (Ok [] : Res (list Page)).
  simpl. unfold first_pass_state in Hloop. simpl in Hloop. by rewrite Hloop.
Qed.

(** ** Repeated calls *)

(** Every call of [execute] that returns reports [true] and leaves the
    operator complete. *)
Lemma execute_returns_complete kind fuel n x b x' :
  execute kind fuel n x = Some (Ok (b, x')) ->
  b = true /\ isComplete (op x') = true.
Proof.
  destruct kind; simpl.
  - unfold OnePassJoin_execute.
    destruct (isComplete (op x)) eqn:Hc; intros [= <- <-]; done.
  - unfold NestedLoopJoin_execute.
    destruct (isComplete (op x)) eqn:Hc.
    + intros [= <- <-]. done.
    + destruct (file_pages _ _) as [rp| |]; [|done..].
      destruct (file_pages _ _) as [lp| |]; [|done..].
      destruct (macro_passes _ _ _ _ _) as [[[x1 lp1]| |]|]; [|done..].
      intros [= <- <-]. done.
  - unfold GraceHashJoin_execute.
    destruct (isComplete (op x)) eqn:Hc; intros [= <- <-]; done.
Qed.

(** C8. A call of [execute] on an operator that is complete returns
    [true] and changes nothing: neither the operator and its counters, nor
    the buffer manager (no page is fetched), nor the result file. *)
Theorem execute_idempotent (kind : JoinKind) (fuel : nat) (numAvailableBufPages : Z)
    (x : Exec) :
  isComplete (op x) = true ->
  execute kind fuel numAvailableBufPages x = Some (Ok (true, x)).
Proof.
  intros Hc. destruct kind; simpl;
    unfold OnePassJoin_execute, NestedLoopJoin_execute, GraceHashJoin_execute;
    by rewrite Hc.
Qed.

Lemma execute_idempotent_witness :
  execute NestedLoopJoin 0 7 (completed input_two_matches)
    = Some (Ok (true, completed input_two_matches)).
Proof.
  apply (execute_idempotent NestedLoopJoin 0 7 (completed input_two_matches)).
  vm_compute. reflexivity.
Defined.

(** A second call after any call that returned is such a call. *)
Lemma execute_twice kind fuel n fuel' n' x b x' :
  execute kind fuel n x = Some (Ok (b, x')) ->
  execute kind fuel' n' x' = Some (Ok (true, x')).
Proof.
  intros H. destruct (execute_returns_complete _ _ _ _ _ _ H) as [_ Hc].
  destruct kind; simpl;
    unfold OnePassJoin_execute, NestedLoopJoin_execute, GraceHashJoin_execute;
    by rewrite Hc.
Qed.

(** ** The unimplemented operators *)

(** C9, as stated, fails: on an operator that is not complete both
    unimplemented operators return [true] and leave the result file
    empty. *)
Lemma stub_joins_report_success :
  ~ reports_failure (execute OnePassJoin 0 2 input_two_matches) /\
  ~ reports_failure (execute GraceHashJoin 0 2 input_two_matches) /\
  (exists x', execute OnePassJoin 0 2 input_two_matches = Some (Ok (true, x')) /\
              resultFile x' = []) /\
  (exists x', execute GraceHashJoin 0 2 input_two_matches = Some (Ok (true, x')) /\
              resultFile x' = []).
Proof.
  split; [|split; [|split]].
  - vm_compute. tauto.
  - vm_compute. tauto.
  - eexists. split; [reflexivity|]. reflexivity.
  - eexists. split; [reflexivity|]. reflexivity.
Qed.

(** C9, amended. [OnePassJoinOperator::execute] and
    [GraceHashJoinOperator::execute] always return [true]: a first call
    sets the three counters to 0 and marks the operator complete, a later
    call changes nothing; neither touches the buffer manager or the
    result file. *)
Theorem stub_joins_return_true (fuel : nat) (numAvailableBufPages : Z) (x : Exec) :
  execute OnePassJoin fuel numAvailableBufPages x = Some (Ok (true, stub_result x)) /\
  execute GraceHashJoin fuel numAvailableBufPages x = Some (Ok (true, stub_result x)) /\
  mgr (stub_result x) = mgr x /\
  resultFile (stub_result x) = resultFile x /\
  isComplete (op (stub_result x)) = true /\
  numResultTuples (op (stub_result x))
    = (if isComplete (op x) then numResultTuples (op x) else 0%Z) /\
  numUsedBufPages (op (stub_result x))
    = (if isComplete (op x) then numUsedBufPages (op x) else 0%Z) /\
  numIOs (op (stub_result x)) = (if isComplete (op x) then numIOs (op x) else 0%Z).
Proof.
  unfold execute, OnePassJoin_execute, GraceHashJoin_execute, stub_result.
  destruct (isComplete (op x)) eqn:Hc; simpl; repeat split; done.
Qed.

(** ** Join columns *)

(** C4. The join columns of [execute] are the names common to both
    schemas, whatever their types. For L(a INT, b INT) and
    R(a CHAR(4), c INT) [getCommonAttributes] is empty and
    [createResultTableSchema] keeps both attributes [a], yet [execute]
    joins on [a]: it emits the 12-byte tuple of three attributes where the
    result schema has four. *)
Theorem sameName_ignores_type :
  getCommonAttributes schemaL schemaRc = [] /\
  sameName schemaL schemaRc = ["a"%string] /\
  length (attrs (createResultTableSchema schemaL schemaRc)) = 4%nat /\
  (exists x, execute NestedLoopJoin 1 2 input_name_only = Some (Ok (true, x)) /\
             resultFile x = [str "KKKKLLLL1111"]) /\
  join_of_spec schemaL schemaRc [str "KKKKLLLL"] [str "KKKK1111"] = [str "KKKKLLLLKKKK1111"].
Proof.
  split; [reflexivity|]. split; [reflexivity|]. split; [reflexivity|].
  split; [|vm_compute; reflexivity].
  eexists. split; [vm_compute; reflexivity|]. reflexivity.
Qed.

(** ** Key and remainder *)

(** C6. [handle_tuple] steps over the attributes before the common one by
    their unpadded sizes. For R(a CHAR(5), b INT) and the tuple
    "aaaaa" 0 0 0 "BBBB" it reads the key at offset 5 instead of 8 and
    deletes the padding of [a] together with three bytes of [b]; the
    specification gives key "BBBB" and remainder "aaaaa" 0 0 0. *)
Theorem handle_tuple_ignores_padding :
  handle_tuple [] ["b"%string] tupleR5 [] schemaR5
    = Ok ([zero; zero; zero] ++ str "B", str "aaaaa") /\
  extractJoinKeyAndRemainder (attrs schemaR5) ["b"%string] tupleR5
    = (str "BBBB", str "aaaaa" ++ [zero; zero; zero]).
Proof. split; vm_compute; reflexivity. Qed.

(** ** The result of the join *)

(** C1. A left tuple with two matches in one macro-pass. [execute] appends
    each remainder to [lefttuple] itself, so the second result tuple is
    L followed by both remainders; the tuple for the second pair is never
    inserted. *)
Theorem NestedLoopJoin_second_match_accumulates :
  exists x,
    execute NestedLoopJoin 1 2 input_two_matches = Some (Ok (true, x)) /\
    resultFile x = [str "KKKKLLLL1111"; str "KKKKLLLL11112222"] /\
    join_of_spec schemaL schemaR [str "KKKKLLLL"] [str "KKKK1111"; str "KKKK2222"]
      = [str "KKKKLLLL1111"; str "KKKKLLLL2222"] /\
    str "KKKKLLLL2222" ∉ resultFile x.
Proof.
  eexists. split; [vm_compute; reflexivity|].
  split; [reflexivity|]. split; [vm_compute; reflexivity|].
  simpl. rewrite !not_elem_of_cons. repeat split; try discriminate.
  apply not_elem_of_nil.
Qed.

(** ** The end of a macro-pass *)

(** C5. With two right pages and a budget of two, the first macro-pass
    ends with the right page unpinned and flushed out of the pool, but
    [hashMap] still holds its tuple; the second macro-pass probes it again
    and the pair of the first page is emitted twice. *)
Theorem macro_pass_keeps_hashMap :
  (exists x lp,
      first_pass 2 input_two_passes = Ok (x, lp) /\
      hashMap lp !! str "KKKK" = Some [str "1111"] /\ hashMap lp <> ∅ /\
      already_in_buf lp = [] /\ usedPage lp = [1] /\
      Forall (fun d => file d <> fileR /\ pinCnt d = 0) (bufDescTable (mgr x)) /\
      hashTable (mgr x) !! (fileR, 1) = None) /\
  (exists x,
      execute NestedLoopJoin 2 2 input_two_passes = Some (Ok (true, x)) /\
      resultFile x = [str "KKKKLLLL1111"; str "KKKKLLLL1111"; str "KKKKLLLL11112222"]).
Proof.
  split.
  - eexists _, _. split; [vm_compute; reflexivity|].
    split; [vm_compute; reflexivity|].
    split; [intros H; apply (f_equal (fun m => m !! str "KKKK")) in H;
            vm_compute in H; discriminate H|].
    split; [reflexivity|]. split; [reflexivity|].
    split; [|vm_compute; reflexivity].
    repeat constructor; discriminate.
  - eexists. split; [vm_compute; reflexivity|]. reflexivity.
Qed.

(** ** Where [handle_tuple] and the specification agree *)

Lemma forM_app {A S : Type} (body : A -> S -> Res S) l1 l2 s :
  forM body (l1 ++ l2) s = (s' ← forM body l1 s; forM body l2 s').
Proof.
  revert s. induction l1 as [|x l1 IH]; intros s; simpl; [done|].
  destruct (body x s); simpl; [apply IH|done..].
Qed.

Lemma offset_app l1 l2 : offset (l1 ++ l2) = (offset l1 + offset l2)%Z.
Proof. unfold offset. induction l1; simpl; lia. Qed.

Lemma offset_aligned pre :
  Forall aligned pre -> (0 <= offset pre)%Z /\ (offset pre mod 4 = 0)%Z.
Proof.
  induction 1 as [|a pre Ha _ [IH1 IH2]]; [done|].
  change (offset (a :: pre)) with (width a + offset pre)%Z.
  unfold width.
  destruct Ha as [->|(-> & H0 & H4)].
  - split; [lia|]. rewrite Z.add_mod, IH2 by lia. done.
  - split; [lia|]. rewrite Z.add_mod, IH2, H4 by lia. done.
Qed.

Lemma index_of_app pre a post :
  Forall (fun b => attrName b <> attrName a) pre ->
  index_of (attrName a) (pre ++ a :: post) = Some (length pre).
Proof.
  induction 1 as [|b pre Hb _ IH]; simpl.
  - by rewrite bool_decide_eq_true_2.
  - rewrite bool_decide_eq_false_2 by done. by rewrite IH.
Qed.

(** The attributes before the common one only move [index]. *)
Lemma handle_attr_skip tup tname pre a post v : forall n,
  Forall aligned pre -> (n <= length pre)%nat ->
  forM (handle_attr tup (mkTableSchema tname (pre ++ a :: post)) (length pre))
       (seq 0 n) v
  = Ok (advance (offset (take n pre)) v).
Proof.
  intros n Hal. induction n as [|n IH]; intros Hn.
  - simpl. unfold advance. destruct v; simpl. by rewrite Z.add_0_r.
  - rewrite seq_S, forM_app, IH by lia. simpl.
    destruct (lookup_lt_is_Some_2 pre n ltac:(lia)) as [b Hb].
    unfold handle_attr, getAttr. simpl.
    rewrite lookup_app_l by lia. rewrite Hb. simpl.
    rewrite (take_S_r _ _ _ Hb), offset_app.
    rewrite Forall_lookup in Hal. specialize (Hal _ _ Hb).
    rewrite bool_decide_eq_false_2 by lia.
    unfold advance, offset at 3; simpl.
    destruct Hal as [Ht|(Ht & _ & _)]; rewrite Ht; simpl;
      unfold width; rewrite Ht; do 2 f_equal; lia.
Qed.

Lemma append_chars_take tup : forall n from acc,
  (0 <= from)%Z -> (from + Z.of_nat n <= Z.of_nat (length tup))%Z ->
  append_chars tup from n acc = Ok (acc ++ take n (drop (Z.to_nat from) tup)).
Proof.
  induction n as [|n IH]; intros from acc H0 Hl; simpl.
  - by rewrite take_0, app_nil_r.
  - unfold char_at. destruct (Z.ltb_spec from 0); [lia|].
    destruct (lookup_lt_is_Some_2 tup (Z.to_nat from) ltac:(lia)) as [c Hc].
    rewrite Hc. simpl. rewrite IH by lia.
    rewrite (drop_S _ _ _ Hc). simpl.
    rewrite <- app_assoc. simpl.
    replace (Z.to_nat (from + 1)) with (S (Z.to_nat from)) by lia. done.
Qed.

(** X29. For a common attribute of type INT behind attributes without padding,
    [handle_tuple] returns the four bytes at the attribute's offset and
    the tuple without them. *)
Lemma handle_tuple_aligned_INT tname pre a post tup :
  Forall aligned pre ->
  Forall (fun b => attrName b <> attrName a) pre ->
  attrType a = INT ->
  (offset pre + 4 <= Z.of_nat (length tup))%Z ->
  (Z.of_nat (length tup) < Z.of_N UINT32)%Z ->
  handle_tuple [] [attrName a] tup [] (mkTableSchema tname (pre ++ a :: post))
  = Ok (take 4 (drop (Z.to_nat (offset pre)) tup),
        take (Z.to_nat (offset pre)) tup ++ drop (Z.to_nat (offset pre) + 4) tup).
Proof.
  intros Hal Hne Ha Hlen H32.
  destruct (offset_aligned _ Hal) as [Hoff0 Hoff4].
  unfold handle_tuple, forM at 1, handle_common, getAttrNum.
  cbn [attrs]. rewrite (index_of_app _ _ _ Hne).
  cbn [mbind Res_bind].
  rewrite seq_S, forM_app, (handle_attr_skip _ _ _ _ _ _ _ Hal) by lia.
  rewrite take_ge by lia.
  cbn [mbind Res_bind forM plus].
  unfold handle_attr, getAttr. cbn [attrs].
  rewrite list_lookup_middle by done. cbn [mbind Res_bind]. rewrite Ha.
  rewrite bool_decide_eq_true_2 by done.
  unfold advance. cbn [hashString last already_delete index app].
  rewrite Z.add_0_l.
  rewrite append_chars_take by (simpl; lia). cbn [mbind Res_bind app].
  unfold erase_at, erase, sub_u32.
  cbn [hashString last already_delete index app mbind Res_bind].
  rewrite Z.sub_0_r, Z.mod_small by lia.
  destruct (N.ltb_spec (N.of_nat (length tup)) (Z.to_N (offset pre))); [lia|].
  cbn [mbind Res_bind hashString last already_delete index].
  rewrite bool_decide_eq_false_2.
  2:{ intros Hrem. apply Hrem. rewrite Z.rem_mod_nonneg by lia.
      rewrite Z.add_mod, Hoff4 by lia. done. }
  cbn [mbind Res_bind hashString last].
  rewrite Z_N_nat. done.
Qed.

(** * The buffer manager: consistency of the pool *)

Lemma desc_at_Ok s i d : desc_at s i = Ok d <-> bufDescTable s !! N.to_nat i = Some d.
Proof.
  unfold desc_at. destruct (bufDescTable s !! N.to_nat i); split; intros H;
    try discriminate; congruence.
Qed.

Lemma page_at_Ok s i p : page_at s i = Ok p <-> bufPool s !! N.to_nat i = Some p.
Proof.
  unfold page_at. destruct (bufPool s !! N.to_nat i); split; intros H;
    try discriminate; congruence.
Qed.

(** A descriptor of a resident page may change its pin count, dirty bit
    and reference bit. *)
Lemma wf_update s i d d' :
  wf s -> bufDescTable s !! N.to_nat i = Some d -> valid d = true ->
  valid d' = true -> file d' = file d -> pageNo d' = pageNo d ->
  wf (set_desc i d' s).
Proof.
  intros [Hpool Hhash Hdesc Hinv Hnull] Hd Hv Hv' Hf Hn.
  assert (Hlt : (N.to_nat i < length (bufDescTable s))%nat)
    by (by eapply lookup_lt_Some).
  split; simpl; [| | | |done].
  - by rewrite length_insert.
  - intros f n j Hj. destruct (Hhash _ _ _ Hj) as (d0 & Hd0 & Hv0 & Hf0 & Hn0).
    destruct (decide (N.to_nat i = N.to_nat j)) as [E|E].
    + rewrite <- E, list_lookup_insert_eq by done.
      rewrite <- E, Hd in Hd0. injection Hd0 as <-.
      exists d'. repeat split; congruence.
    + rewrite list_lookup_insert_ne by done. eauto.
  - intros i0 d0 Hd0 Hv0.
    destruct (decide (N.to_nat i = i0)) as [<-|E].
    + rewrite list_lookup_insert_eq in Hd0 by done. injection Hd0 as <-.
      rewrite Hf, Hn. by apply Hdesc.
    + rewrite list_lookup_insert_ne in Hd0 by done. by apply Hdesc.
  - intros i0 d0 Hd0 Hv0.
    destruct (decide (N.to_nat i = i0)) as [<-|E].
    + rewrite list_lookup_insert_eq in Hd0 by done. congruence.
    + rewrite list_lookup_insert_ne in Hd0 by done. by eapply Hinv.
Qed.

(** Clearing a descriptor that holds no page. *)
Lemma wf_clear_invalid s i d :
  wf s -> bufDescTable s !! N.to_nat i = Some d -> valid d = false ->
  wf (set_desc i (BufDesc_Clear d) s).
Proof.
  intros [Hpool Hhash Hdesc Hinv Hnull] Hd Hv.
  assert (Hlt : (N.to_nat i < length (bufDescTable s))%nat)
    by (by eapply lookup_lt_Some).
  split; simpl; [| | | |done].
  - by rewrite length_insert.
  - intros f n j Hj. destruct (Hhash _ _ _ Hj) as (d0 & Hd0 & Hv0 & Hf0 & Hn0).
    rewrite list_lookup_insert_ne; [eauto|].
    intros E. rewrite <- E, Hd in Hd0. congruence.
  - intros i0 d0 Hd0 Hv0.
    destruct (decide (N.to_nat i = i0)) as [<-|E].
    + rewrite list_lookup_insert_eq in Hd0 by done. by injection Hd0 as <-.
    + rewrite list_lookup_insert_ne in Hd0 by done. by apply Hdesc.
  - intros i0 d0 Hd0 Hv0.
    destruct (decide (N.to_nat i = i0)) as [<-|E].
    + rewrite list_lookup_insert_eq in Hd0 by done. by injection Hd0 as <-.
    + rewrite list_lookup_insert_ne in Hd0 by done. by eapply Hinv.
Qed.

(** Evicting a resident page: its hash entry goes, its descriptor is
    cleared. *)
Lemma wf_evict s i d :
  wf s -> bufDescTable s !! N.to_nat i = Some d -> valid d = true ->
  wf (set_desc i (BufDesc_Clear d)
        (set_hashTable (delete (file d, pageNo d) (hashTable s)) s)).
Proof.
  intros [Hpool Hhash Hdesc Hinv Hnull] Hd Hv.
  assert (Hlt : (N.to_nat i < length (bufDescTable s))%nat)
    by (by eapply lookup_lt_Some).
  destruct (Hdesc _ _ Hd Hv) as (Hk & _ & _). rewrite N2Nat.id in Hk.
  split; simpl; [| | | |done].
  - by rewrite length_insert.
  - intros f n j [Hne Hj]%lookup_delete_Some.
    destruct (Hhash _ _ _ Hj) as (d0 & Hd0 & Hv0 & Hf0 & Hn0).
    rewrite list_lookup_insert_ne; [eauto|].
    intros E. rewrite <- E, Hd in Hd0. injection Hd0 as <-. congruence.
  - intros i0 d0 Hd0 Hv0.
    destruct (decide (N.to_nat i = i0)) as [<-|E].
    + rewrite list_lookup_insert_eq in Hd0 by done. by injection Hd0 as <-.
    + rewrite list_lookup_insert_ne in Hd0 by done.
      destruct (Hdesc _ _ Hd0 Hv0) as (Hk0 & Hp0 & Hf0).
      split; [|done].
      rewrite lookup_delete_ne; [done|].
      intros Ek. rewrite <- Ek, Hk in Hk0. injection Hk0 as ->. lia.
  - intros i0 d0 Hd0 Hv0.
    destruct (decide (N.to_nat i = i0)) as [<-|E].
    + rewrite list_lookup_insert_eq in Hd0 by done. by injection Hd0 as <-.
    + rewrite list_lookup_insert_ne in Hd0 by done. by eapply Hinv.
Qed.

(** Installing page [(f, n)] in a free frame. *)
Lemma wf_install s i d f n p :
  wf s -> bufDescTable s !! N.to_nat i = Some d -> valid d = false ->
  hashTable s !! (f, n) = None -> page_number p = n -> has_page (files s) f n ->
  wf (mkBufMgr (<[N.to_nat i := BufDesc_Set f n d]> (bufDescTable s))
               (<[N.to_nat i := p]> (bufPool s))
               (<[(f, n) := i]> (hashTable s)) (clockHand s) (files s)).
Proof.
  intros [Hpool Hhash Hdesc Hinv Hnull] Hd Hv Hmiss Hp Hfile.
  assert (Hlt : (N.to_nat i < length (bufDescTable s))%nat)
    by (by eapply lookup_lt_Some).
  split; simpl; [| | | |done].
  - by rewrite !length_insert.
  - intros f' n' j [[[= <- <-] <-]|[Hne Hj]]%lookup_insert_Some.
    + rewrite list_lookup_insert_eq by done. eexists. repeat split.
    + destruct (Hhash _ _ _ Hj) as (d0 & Hd0 & Hv0 & Hf0 & Hn0).
      rewrite list_lookup_insert_ne; [eauto|].
      intros E. rewrite <- E, Hd in Hd0. congruence.
  - intros i0 d0 Hd0 Hv0.
    destruct (decide (N.to_nat i = i0)) as [<-|E].
    + rewrite list_lookup_insert_eq in Hd0 by done. injection Hd0 as <-. simpl.
      rewrite lookup_insert_eq, N2Nat.id, list_lookup_insert_eq by lia. eauto.
    + rewrite list_lookup_insert_ne in Hd0 by done.
      destruct (Hdesc _ _ Hd0 Hv0) as (Hk0 & Hp0 & Hf0).
      rewrite lookup_insert_ne by congruence.
      rewrite list_lookup_insert_ne by done. done.
  - intros i0 d0 Hd0 Hv0.
    destruct (decide (N.to_nat i = i0)) as [<-|E].
    + rewrite list_lookup_insert_eq in Hd0 by done. by injection Hd0 as <-.
    + rewrite list_lookup_insert_ne in Hd0 by done. by eapply Hinv.
Qed.

(** The files may change as long as no page disappears. *)
Lemma wf_files s fs :
  wf s -> (forall f n, has_page (files s) f n -> has_page fs f n) ->
  fs !! NULL = None ->
  wf (set_files fs s).
Proof.
  intros [Hpool Hhash Hdesc Hinv Hnull] Hfs Hfs0. split; simpl; try done.
  intros i d Hd Hv. destruct (Hdesc _ _ Hd Hv) as (? & ? & ?). eauto.
Qed.

Lemma wf_clockHand s c : wf s -> wf (set_clockHand c s).
Proof. intros [? ? ? ? ?]. by split. Qed.

Lemma find_page_number n ps p : find_page n ps = Some p -> page_number p = n.
Proof.
  unfold find_page. intros [_ H]%List.find_some. by apply N.eqb_eq.
Qed.

Lemma find_page_map n ps (g : Page -> Page) :
  (forall q, page_number (g q) = page_number q) ->
  is_Some (find_page n ps) -> is_Some (find_page n (map g ps)).
Proof.
  intros Hg. unfold find_page. induction ps as [|q ps IH]; simpl; [done|].
  rewrite Hg. destruct (page_number q =? n); eauto.
Qed.

Lemma File_writePage_Ok f p s s' :
  File_writePage f p s = Ok s' ->
  exists fs, s' = set_files fs s /\
             (forall g, files s !! g = None -> fs !! g = None) /\
             forall f' n, has_page (files s) f' n -> has_page fs f' n.
Proof.
  unfold File_writePage.
  destruct (files s !! f) as [ps|] eqn:Hf; [|done].
  destruct (find_page (page_number p) ps) eqn:Hfind; [|done].
  intros [= <-]. eexists. split; [done|]. split.
  { intros g Hg. rewrite lookup_insert_ne; [done|]. congruence. }
  intros f' n (ps' & Hps' & Hn).
  destruct (decide (f = f')) as [<-|Hne].
  - rewrite Hf in Hps'. injection Hps' as <-.
    eexists. split; [apply lookup_insert_eq|].
    apply find_page_map; [|done].
    intros q. destruct (N.eqb_spec (page_number q) (page_number p)); done.
  - eexists. split; [by rewrite lookup_insert_ne|done].
Qed.

(** What a sweep that selects a frame leaves behind. *)
Lemma allocBuf_loop_wf fuel : forall pinned s frame s',
  wf s -> allocBuf_loop fuel pinned s = Some (Ok (frame, s')) ->
  wf s' /\
  length (bufDescTable s') = length (bufDescTable s) /\
  (exists d, bufDescTable s' !! N.to_nat frame = Some d /\ d = BufDesc_Clear d) /\
  (forall k j, hashTable s' !! k = Some j -> hashTable s !! k = Some j) /\
  (forall f n, has_page (files s) f n -> has_page (files s') f n).
Proof.
  induction fuel as [|fuel IH]; intros pinned s frame s' Hwf H; [done|].
  simpl in H.
  destruct (advanceClock s) as [s1| |] eqn:Hadv; [|done..].
  apply advanceClock_Ok in Hadv as [Hs1 _].
  assert (Hwf1 : wf s1) by (subst s1; by apply wf_clockHand).
  assert (Ht1 : bufDescTable s1 = bufDescTable s) by (by subst s1).
  assert (Hh1 : hashTable s1 = hashTable s) by (by subst s1).
  assert (Hf1 : files s1 = files s) by (by subst s1).
  rewrite <- Ht1, <- Hh1, <- Hf1. clear Hs1 Ht1 Hh1 Hf1 Hwf.
  destruct (pinned =? numBufs s1); [done|].
  destruct (bufDescTable s1 !! N.to_nat (clockHand s1)) as [d|] eqn:Hd; [|done].
  assert (Hlt : (N.to_nat (clockHand s1) < length (bufDescTable s1))%nat)
    by (by eapply lookup_lt_Some).
  destruct (valid d) eqn:Hvalid; simpl in H.
  - destruct (refbit d) eqn:Href.
    + apply IH in H; [|by apply (wf_update _ _ d)].
      destruct H as (Hwf' & Hlen & Hfr & Hsub & Hpg).
      simpl in Hlen, Hsub, Hpg. rewrite length_insert in Hlen. done.
    + destruct (N.ltb_spec 0 (pinCnt d)) as [Hpin|Hpin]; [by apply IH in H|].
      simpl in H.
      assert (Hw : exists s2 fs, s2 = set_files fs s1 /\
                   fs !! NULL = None /\
                   (forall f n, has_page (files s1) f n -> has_page fs f n) /\
                   frame = clockHand s1 /\
                   s' = set_desc (clockHand s1) (BufDesc_Clear d)
                          (set_hashTable (delete (file d, pageNo d) (hashTable s2)) s2)).
      { destruct (dirty d); simpl in H.
        - destruct (page_at s1 (clockHand s1)) as [p| |]; simpl in H; [|done..].
          destruct (File_writePage (file d) p s1) as [s2| |] eqn:Hwr; simpl in H; [|done..].
          apply File_writePage_Ok in Hwr as (fs & -> & Hfs0 & Hfs).
          injection H as <- <-. exists (set_files fs s1), fs.
          split_and!; try done. apply Hfs0, (wf_null _ Hwf1).
        - injection H as <- <-. exists s1, (files s1).
          split; [by destruct s1|]. split; [apply (wf_null _ Hwf1)|]. eauto. }
      destruct Hw as (s2 & fs & -> & Hfs0 & Hfs & -> & ->).
      assert (Hwf2 : wf (set_files fs s1)) by (by apply wf_files).
      split; [by apply (wf_evict (set_files fs s1))|]. simpl.
      split; [by rewrite length_insert|].
      split; [rewrite list_lookup_insert_eq by done; by eexists|].
      split; [|done].
      intros k j [_ Hj]%lookup_delete_Some. done.
  - injection H as <- <-.
    split; [by apply wf_clear_invalid|]. simpl.
    split; [by rewrite length_insert|].
    split; [rewrite list_lookup_insert_eq by done; by eexists|]. done.
Qed.

Lemma wf_files_resident s fs :
  wf s ->
  (forall i d, bufDescTable s !! i = Some d -> valid d = true ->
               has_page fs (file d) (pageNo d)) ->
  fs !! NULL = None ->
  wf (set_files fs s).
Proof.
  intros [Hpool Hhash Hdesc Hinv Hnull] Hfs Hfs0. split; simpl; try done.
  intros i d Hd Hv. destruct (Hdesc _ _ Hd Hv) as (? & ? & ?). eauto.
Qed.

Lemma forM_inv {A S : Type} (P : S -> Prop) (body : A -> S -> Res S) l :
  (forall x s s', In x l -> P s -> body x s = Ok s' -> P s') ->
  forall s s', P s -> forM body l s = Ok s' -> P s'.
Proof.
  induction l as [|x l IH]; intros Hb s s' Hs H; simpl in H.
  - by injection H as <-.
  - destruct (body x s) as [s1| |] eqn:Hx; simpl in H; [|done..].
    eapply IH; [| |exact H].
    + intros y t t' Hy. apply Hb. by right.
    + eapply Hb; [by left|exact Hs|exact Hx].
Qed.

(** ** [allocBuf] *)

Lemma allocBuf_wf s frame s' :
  wf s -> allocBuf s = Ok (frame, s') ->
  wf s' /\
  length (bufDescTable s') = length (bufDescTable s) /\
  (exists d, bufDescTable s' !! N.to_nat frame = Some d /\ d = BufDesc_Clear d) /\
  (forall k j, hashTable s' !! k = Some j -> hashTable s !! k = Some j) /\
  (forall f n, has_page (files s) f n -> has_page (files s') f n).
Proof.
  unfold allocBuf. intros Hwf H.
  destruct (allocBuf_loop (allocBuf_fuel s) 0 s) as [r|] eqn:Hl; [|done].
  subst r. by eapply allocBuf_loop_wf.
Qed.

(** ** [readPage] *)

Lemma readPage_wf s f n frame s' :
  wf s -> readPage f n s = Ok (frame, s') ->
  wf s' /\ length (bufDescTable s') = length (bufDescTable s) /\
  hashTable s' !! (f, n) = Some frame /\
  (forall f' n', has_page (files s) f' n' -> has_page (files s') f' n').
Proof.
  intros Hwf H. unfold readPage in H.
  destruct (hashTable s !! (f, n)) as [fr|] eqn:Hh.
  - destruct (desc_at s fr) as [d| |] eqn:Hd; simpl in H; [|done..].
    injection H as <- <-. apply desc_at_Ok in Hd.
    destruct (wf_hash _ Hwf _ _ _ Hh) as (d0 & Hd0 & Hv0 & Hf0 & Hn0).
    rewrite Hd in Hd0. injection Hd0 as <-.
    split; [by apply (wf_update _ _ d)|]. simpl.
    by rewrite length_insert.
  - destruct (allocBuf s) as [[fr s1]| |] eqn:Ha; simpl in H; [|done..].
    destruct (allocBuf_wf _ _ _ Hwf Ha) as (Hwf1 & Hlen & (d & Hd & Hclr) & Hsub & Hpg).
    destruct (File_readPage f n s1) as [p| |] eqn:Hr; simpl in H; [|done..].
    unfold desc_at in H. simpl in H. rewrite Hd in H. simpl in H.
    injection H as <- <-.
    unfold File_readPage in Hr.
    destruct (files s1 !! f) as [ps|] eqn:Hps; [|done].
    destruct (find_page n ps) as [p'|] eqn:Hfind; [|done].
    injection Hr as ->.
    split; [|split; [|split]].
    + apply (wf_install s1 fr d f n p); try done.
      * by rewrite Hclr.
      * destruct (hashTable s1 !! (f, n)) as [j|] eqn:Hj; [|done].
        apply Hsub in Hj. congruence.
      * by eapply find_page_number.
      * exists ps. by rewrite Hfind.
    + simpl. by rewrite length_insert.
    + simpl. apply lookup_insert_eq.
    + done.
Qed.

(** ** [unPinPage] *)

Lemma unPinPage_wf s f n b s' :
  wf s -> unPinPage f n b s = Ok s' ->
  wf s' /\ length (bufDescTable s') = length (bufDescTable s) /\
  hashTable s' = hashTable s /\ files s' = files s.
Proof.
  intros Hwf H. unfold unPinPage in H.
  destruct (hashTable s !! (f, n)) as [fr|] eqn:Hh; [|by injection H as <-].
  destruct (desc_at s fr) as [d| |] eqn:Hd; simpl in H; [|done..].
  apply desc_at_Ok in Hd.
  destruct (0 <? pinCnt d); [|done]. injection H as <-.
  destruct (wf_hash _ Hwf _ _ _ Hh) as (d0 & Hd0 & Hv0 & Hf0 & Hn0).
  rewrite Hd in Hd0. injection Hd0 as <-.
  split; [|simpl; by rewrite length_insert].
  apply (wf_update _ _ d); try done; by destruct b.
Qed.

(** ** [flushFile] *)

Lemma File_writePage_total f p s :
  has_page (files s) f (page_number p) -> exists s', File_writePage f p s = Ok s'.
Proof.
  intros (ps & Hps & [q Hq]). unfold File_writePage. rewrite Hps, Hq. eauto.
Qed.

Lemma find_page_write n p ps :
  is_Some (find_page (page_number p) ps) ->
  find_page n (map (fun q => if page_number q =? page_number p then p else q) ps)
  = if n =? page_number p then Some p else find_page n ps.
Proof.
  unfold find_page. induction ps as [|q ps IH]; simpl; [by intros [? ?]|].
  destruct (N.eqb_spec (page_number q) (page_number p)) as [E|E].
  - intros _. destruct (N.eqb_spec n (page_number p)) as [->|En].
    + by rewrite N.eqb_refl.
    + destruct (N.eqb_spec (page_number p) n); [congruence|].
      destruct (N.eqb_spec (page_number q) n); [congruence|].
      clear IH. induction ps as [|r ps IH]; simpl; [done|].
      destruct (N.eqb_spec (page_number r) (page_number p)) as [Er|Er].
      * destruct (N.eqb_spec (page_number p) n); [congruence|].
        destruct (N.eqb_spec (page_number r) n); [congruence|done].
      * destruct (page_number r =? n); done.
  - intros H. destruct (N.eqb_spec (page_number q) n) as [Eq|Eq].
    + destruct (N.eqb_spec n (page_number p)); [congruence|done].
    + by apply IH.
Qed.

Lemma File_writePage_stored f p s s' :
  File_writePage f p s = Ok s' ->
  stored (files s') f (page_number p) = Some p /\
  forall f' n', (f', n') <> (f, page_number p) ->
                stored (files s') f' n' = stored (files s) f' n'.
Proof.
  unfold File_writePage, stored.
  destruct (files s !! f) as [ps|] eqn:Hf; [|done].
  destruct (find_page (page_number p) ps) eqn:Hfind; [|done].
  intros [= <-]. simpl. split.
  - rewrite lookup_insert_eq. simpl. rewrite find_page_write by (by rewrite Hfind).
    by rewrite N.eqb_refl.
  - intros f' n' Hne. destruct (decide (f = f')) as [<-|Hff].
    + rewrite lookup_insert_eq, Hf. simpl.
      rewrite find_page_write by (by rewrite Hfind).
      destruct (N.eqb_spec n' (page_number p)); [congruence|done].
    + by rewrite lookup_insert_ne.
Qed.

(** One iteration of [flushFile] on a consistent pool: the frame is not of
    the file, or it is pinned and the loop throws, or it is written back
    when dirty and released. *)
Lemma flushFile_frame_cases f i s d :
  wf s -> f <> NULL -> bufDescTable s !! i = Some d ->
  (file d <> f /\ flushFile_frame f i s = Ok s) \/
  (file d = f /\ pinCnt d <> 0 /\
   flushFile_frame f i s = Throw (PagePinnedException (pageNo d) (frameNo d))) \/
  (file d = f /\ pinCnt d = 0 /\ valid d = true /\
   exists s', flushFile_frame f i s = Ok s' /\ wf s' /\
              bufDescTable s' = <[i := BufDesc_Clear d]> (bufDescTable s) /\
              hashTable s' = delete (f, pageNo d) (hashTable s) /\
              bufPool s' = bufPool s /\
              (forall f' n, has_page (files s) f' n -> has_page (files s') f' n) /\
              (dirty d = false -> files s' = files s) /\
              (dirty d = true ->
               exists p, bufPool s !! i = Some p /\
                         stored (files s') f (pageNo d) = Some p) /\
              (forall f' n', (f', n') <> (f, pageNo d) ->
                             stored (files s') f' n' = stored (files s) f' n')).
Proof.
  intros Hwf Hf Hd. unfold flushFile_frame, desc_at.
  rewrite Nat2N.id, Hd. simpl.
  destruct (N.eqb_spec (file d) f) as [Hfile|Hfile]; [|by left].
  right. destruct (N.eqb_spec (pinCnt d) 0) as [Hpin|Hpin]; simpl; [|by left].
  right. destruct (valid d) eqn:Hv; simpl.
  2:{ destruct (wf_invalid _ Hwf _ _ Hd Hv) as (_ & _ & Hnull). congruence. }
  destruct (wf_desc _ Hwf _ _ Hd Hv) as (Hk & (p & Hp & Hpn) & Hpage).
  unfold page_at. rewrite Nat2N.id, Hp. simpl.
  assert (Hlt : (i < length (bufDescTable s))%nat) by (by eapply lookup_lt_Some).
  repeat split; try done.
  destruct (dirty d) eqn:Hdirty.
  - destruct (File_writePage_total (file d) p s) as [s1 Hw]; [by rewrite Hpn|].
    rewrite Hw. simpl.
    destruct (File_writePage_stored _ _ _ _ Hw) as [Hst1 Hst2].
    apply File_writePage_Ok in Hw as (fs & -> & Hfs0 & Hfs).
    unfold desc_at. simpl. rewrite Nat2N.id, list_lookup_insert_eq by done. simpl.
    eexists. split; [done|].
    assert (Hwf1 : wf (set_desc (N.of_nat i) (with_dirty false d) (set_files fs s))).
    { apply (wf_update _ _ d); try done;
        [apply wf_files; [done..|apply Hfs0, (wf_null _ Hwf)]|].
      simpl. by rewrite Nat2N.id. }
    split.
    + rewrite <- Hfile, Hpn.
      apply (wf_evict _ (N.of_nat i) (with_dirty false d) Hwf1); [|done].
      simpl. by rewrite Nat2N.id, list_lookup_insert_eq.
    + simpl. rewrite Nat2N.id, list_insert_insert_eq, Hpn.
      simpl in Hst1, Hst2. rewrite Hpn, Hfile in Hst1, Hst2.
      split_and!; try done. intros _. eauto.
  - simpl. rewrite Hd. simpl.
    eexists. split; [done|]. split.
    + rewrite <- Hfile, Hpn.
      apply (wf_evict _ (N.of_nat i) d Hwf); [|done]. by rewrite Nat2N.id.
    + simpl. rewrite Nat2N.id, Hpn. split_and!; done.
Qed.

Lemma flushFile_from f n : forall k s,
  wf s -> f <> NULL -> (k + n)%nat = length (bufDescTable s) ->
  match List.find (pinned_in f) (drop k (bufDescTable s)) with
  | Some d =>
      forM (flushFile_frame f) (seq k n) s
        = Throw (PagePinnedException (pageNo d) (frameNo d))
  | None =>
      exists s', forM (flushFile_frame f) (seq k n) s = Ok s' /\ wf s' /\
        bufDescTable s' = take k (bufDescTable s) ++ (released f <$> drop k (bufDescTable s)) /\
        bufPool s' = bufPool s /\
        (forall key j, hashTable s' !! key = Some j -> hashTable s !! key = Some j) /\
        (forall key j, hashTable s !! key = Some j -> key.1 <> f ->
                       hashTable s' !! key = Some j) /\
        (forall f' n', has_page (files s) f' n' -> has_page (files s') f' n') /\
        (Forall (fun d => file d = f -> dirty d = false) (drop k (bufDescTable s)) ->
         files s' = files s)
  end.
Proof.
  induction n as [|n IH]; intros k s Hwf Hf Hlen.
  - rewrite drop_ge by lia. simpl. exists s.
    rewrite take_ge by lia. rewrite app_nil_r. split_and!; done.
  - destruct (lookup_lt_is_Some_2 (bufDescTable s) k ltac:(lia)) as [d Hd].
    rewrite (drop_S _ _ _ Hd). simpl.
    destruct (flushFile_frame_cases f k s d Hwf Hf Hd)
      as [[Hfile Hstep]|[(Hfile & Hpin & Hstep)|(Hfile & Hpin & Hv & s1 & Hstep & Hwf1 & Ht1 & Hh1 & Hp1 & Hf1 & Hc1)]];
      rewrite Hstep; simpl; unfold pinned_in at 1.
    + destruct (N.eqb_spec (file d) f); [done|]. simpl.
      specialize (IH (S k) s Hwf Hf ltac:(lia)).
      destruct (List.find (pinned_in f) (drop (S k) (bufDescTable s))); [done|].
      destruct IH as (s' & Hrun & Hwf' & Ht & Hrest). exists s'.
      split; [done|]. split; [done|]. split; [|split_and!; try tauto].
      * rewrite Ht, (take_S_r _ _ _ Hd), <- app_assoc. simpl.
        unfold released at 2. destruct (N.eqb_spec (file d) f); done.
      * destruct Hrest as (_ & _ & _ & _ & Hc). intros HF. apply Hc.
        by apply Forall_cons_1 in HF as [_ HF].
    + destruct (N.eqb_spec (file d) f); [|done].
      destruct (N.eqb_spec (pinCnt d) 0); done.
    + destruct (N.eqb_spec (file d) f); [|done].
      destruct (N.eqb_spec (pinCnt d) 0); [|done]. simpl.
      assert (Hlt : (k < length (bufDescTable s))%nat) by lia.
      specialize (IH (S k) s1 Hwf1 Hf).
      rewrite Ht1, length_insert, drop_insert_lt in IH by lia.
      specialize (IH ltac:(lia)).
      destruct (List.find (pinned_in f) (drop (S k) (bufDescTable s))); [done|].
      destruct IH as (s' & Hrun & Hwf' & Ht & Hp & Hsub & Hkeep & Hpg & Hc). exists s'.
      split; [done|]. split; [done|]. split_and!.
      * rewrite Ht.
        rewrite (take_S_r _ k (BufDesc_Clear d)) by (by rewrite list_lookup_insert_eq).
        rewrite take_insert_ge by lia. rewrite <- app_assoc. simpl.
        unfold released at 2. destruct (N.eqb_spec (file d) f); done.
      * congruence.
      * intros key j Hj. apply Hsub in Hj. rewrite Hh1 in Hj.
        by apply lookup_delete_Some in Hj as [_ Hj].
      * intros key j Hj Hne. apply Hkeep; [|done]. rewrite Hh1.
        apply lookup_delete_Some. split; [|done]. intros <-. done.
      * eauto.
      * intros HF. apply Forall_cons_1 in HF as [Hdd HF].
        rewrite Hc by done. apply Hc1. by apply Hdd.
Qed.

(** ** The constructor *)

Lemma BufMgr_new_wf bufs fs : fs !! NULL = None -> wf (BufMgr_new bufs fs).
Proof.
  intros Hfs0.
  assert (Hall : forall i d, bufDescTable (BufMgr_new bufs fs) !! i = Some d ->
                             valid d = false /\ pinCnt d = 0 /\ dirty d = false /\
                             file d = NULL).
  { intros i d Hd. apply list_elem_of_lookup_2, list_elem_of_In in Hd.
    simpl in Hd. apply in_map_iff in Hd as (j & <- & _). done. }
  split.
  - simpl. by rewrite length_replicate, length_map, length_seq.
  - intros f n i Hi. simpl in Hi. by rewrite lookup_empty in Hi.
  - intros i d Hd Hv. apply Hall in Hd as (Hv' & _). congruence.
  - intros i d Hd _. apply Hall in Hd. tauto.
  - done.
Qed.

(** ** [flushFile] on a consistent pool *)

Lemma flushFile_pinned_throws_aux s f d :
  wf s -> f <> NULL ->
  List.find (pinned_in f) (bufDescTable s) = Some d ->
  flushFile f s = Throw (PagePinnedException (pageNo d) (frameNo d)).
Proof.
  intros Hwf Hf Hfind. unfold flushFile.
  pose proof (flushFile_from f (length (bufDescTable s)) 0 s Hwf Hf eq_refl) as H.
  rewrite drop_0, Hfind in H. done.
Qed.

Lemma flushFile_releases_aux s f :
  wf s -> f <> NULL ->
  List.find (pinned_in f) (bufDescTable s) = None ->
  exists s', flushFile f s = Ok s' /\ wf s' /\
    bufDescTable s' = released f <$> bufDescTable s /\
    bufPool s' = bufPool s /\
    (forall n, hashTable s' !! (f, n) = None) /\
    (forall f' n, f' <> f -> hashTable s' !! (f', n) = hashTable s !! (f', n)) /\
    (forall f' n', has_page (files s) f' n' -> has_page (files s') f' n') /\
    (Forall (fun d => file d = f -> dirty d = false) (bufDescTable s) ->
     files s' = files s).
Proof.
  intros Hwf Hf Hfind. unfold flushFile.
  pose proof (flushFile_from f (length (bufDescTable s)) 0 s Hwf Hf eq_refl) as H.
  rewrite drop_0, Hfind in H.
  destruct H as (s' & Hrun & Hwf' & Ht & Hp & Hsub & Hkeep & Hpg & Hc).
  rewrite take_0 in Ht. simpl in Ht.
  exists s'. split_and!; try done.
  - intros n. destruct (hashTable s' !! (f, n)) as [j|] eqn:Hj; [|done].
    destruct (wf_hash _ Hwf' _ _ _ Hj) as (d' & Hd' & Hv' & Hf' & _).
    rewrite Ht, list_lookup_fmap in Hd'.
    destruct (bufDescTable s !! N.to_nat j) as [d|]; [|done].
    injection Hd' as <-. unfold released in *.
    destruct (N.eqb_spec (file d) f); simpl in *; congruence.
  - intros f' n Hne.
    destruct (hashTable s !! (f', n)) as [j|] eqn:Hj.
    + by apply Hkeep.
    + destruct (hashTable s' !! (f', n)) as [j|] eqn:Hj'; [|done].
      apply Hsub in Hj'. congruence.
Qed.

(** ** [allocPage] *)

Lemma page_number_le_fresh ps q :
  In q ps -> page_number q < fresh_page_number ps.
Proof.
  unfold fresh_page_number. induction ps as [|p ps IH]; simpl; [done|].
  intros [->|Hq]; [lia|]. specialize (IH Hq). lia.
Qed.

Lemma fresh_page_number_not_found ps : find_page (fresh_page_number ps) ps = None.
Proof.
  assert (H : forall qs, (forall q, In q qs -> page_number q < fresh_page_number ps) ->
                         find_page (fresh_page_number ps) qs = None).
  { unfold find_page. induction qs as [|q qs IH]; intros Hq; simpl; [done|].
    destruct (N.eqb_spec (page_number q) (fresh_page_number ps)) as [E|_].
    - specialize (Hq q (or_introl eq_refl)). lia.
    - apply IH. intros q' Hq'. apply Hq. by right. }
  apply H. intros q. apply page_number_le_fresh.
Qed.

Lemma find_page_app_l n ps qs :
  is_Some (find_page n ps) -> is_Some (find_page n (ps ++ qs)).
Proof.
  unfold find_page. induction ps as [|p ps IH]; simpl; [by intros [? ?]|].
  destruct (page_number p =? n); eauto.
Qed.

Lemma find_page_app_new n ps recs :
  is_Some (find_page n (ps ++ [mkPage n recs])).
Proof.
  unfold find_page. induction ps as [|p ps IH]; simpl.
  - rewrite N.eqb_refl. eauto.
  - destruct (page_number p =? n); eauto.
Qed.

Lemma allocPage_wf_aux s f n frame s' :
  wf s -> allocPage f s = Ok (n, frame, s') ->
  wf s' /\
  ~ has_page (files s) f n /\ has_page (files s') f n /\
  hashTable s' !! (f, n) = Some frame /\
  (exists d, bufDescTable s' !! N.to_nat frame = Some d /\
             file d = f /\ pageNo d = n /\ pinCnt d = 1 /\
             dirty d = false /\ valid d = true /\ refbit d = true) /\
  bufPool s' !! N.to_nat frame = Some (mkPage n []).
Proof.
  intros Hwf H. unfold allocPage in H.
  unfold File_allocatePage in H.
  destruct (files s !! f) as [ps|] eqn:Hps; simpl in H; [|done].
  set (p := mkPage (fresh_page_number ps) []) in *.
  set (s1 := set_files (<[f := ps ++ [p]]> (files s)) s) in *.
  assert (Hkeep : forall f' n', has_page (files s) f' n' -> has_page (files s1) f' n').
  { intros f' n' (ps' & Hps' & Hn'). simpl.
    destruct (decide (f = f')) as [<-|Hne].
    - rewrite Hps in Hps'. injection Hps' as <-.
      eexists. split; [apply lookup_insert_eq|]. by apply find_page_app_l.
    - eexists. split; [by rewrite lookup_insert_ne|done]. }
  assert (Hwf1 : wf s1).
  { apply wf_files; [done..|]. rewrite lookup_insert_ne; [apply (wf_null _ Hwf)|].
    intros E. rewrite E, (wf_null _ Hwf) in Hps. done. }
  assert (Hfresh : ~ has_page (files s) f (page_number p)).
  { intros (ps' & Hps' & Hn'). rewrite Hps in Hps'. injection Hps' as <-.
    simpl in Hn'. rewrite fresh_page_number_not_found in Hn'. by destruct Hn'. }
  destruct (allocBuf s1) as [[fr s2]| |] eqn:Ha; simpl in H; [|done..].
  destruct (allocBuf_wf _ _ _ Hwf1 Ha) as (Hwf2 & Hlen & (d & Hd & Hclr) & Hsub & Hpg).
  unfold desc_at in H. simpl in H. rewrite Hd in H. simpl in H.
  injection H as <- <- <-.
  assert (Hlt : (N.to_nat fr < length (bufDescTable s2))%nat)
    by (by eapply lookup_lt_Some).
  assert (Hnew : has_page (files s2) f (page_number p)).
  { apply Hpg. simpl. eexists. split; [apply lookup_insert_eq|].
    apply find_page_app_new. }
  split; [|split_and!; try done].
  - apply (wf_install s2 fr d f (page_number p) p); try done.
    + by rewrite Hclr.
    + destruct (hashTable s2 !! (f, page_number p)) as [j|] eqn:Hj; [|done].
      apply Hsub in Hj. simpl in Hj.
      destruct (wf_hash _ Hwf _ _ _ Hj) as (d0 & Hd0 & Hv0 & Hf0 & Hn0).
      destruct (wf_desc _ Hwf _ _ Hd0 Hv0) as (_ & _ & Hhp).
      rewrite Hf0, Hn0 in Hhp. done.
  - simpl. apply lookup_insert_eq.
  - simpl. rewrite list_lookup_insert_eq by done. eexists. by split_and!.
  - simpl. rewrite list_lookup_insert_eq; [done|].
    rewrite (wf_pool _ Hwf2). done.
Qed.

(** ** [disposePage] *)

Lemma find_page_filter_ne n n' ps :
  n' <> n -> is_Some (find_page n' ps) ->
  is_Some (find_page n' (List.filter (fun q => negb (page_number q =? n)) ps)).
Proof.
  intros Hne. unfold find_page. induction ps as [|p ps IH]; simpl; [done|].
  destruct (N.eqb_spec (page_number p) n') as [E|E].
  - intros _. destruct (N.eqb_spec (page_number p) n); [congruence|]. simpl.
    rewrite (proj2 (N.eqb_eq _ _) E). eauto.
  - intros H. destruct (negb (page_number p =? n)); simpl; [|by apply IH].
    destruct (N.eqb_spec (page_number p) n'); [done|]. by apply IH.
Qed.

Lemma find_page_filter_eq n ps :
  find_page n (List.filter (fun q => negb (page_number q =? n)) ps) = None.
Proof.
  unfold find_page. induction ps as [|p ps IH]; simpl; [done|].
  destruct (N.eqb_spec (page_number p) n) as [E|E]; simpl; [done|].
  destruct (N.eqb_spec (page_number p) n); done.
Qed.

Lemma has_page_delete fs f n ps f' n' :
  fs !! f = Some ps -> (f', n') <> (f, n) -> has_page fs f' n' ->
  has_page (<[f := List.filter (fun q => negb (page_number q =? n)) ps]> fs) f' n'.
Proof.
  intros Hps Hne (ps' & Hps' & Hn').
  destruct (decide (f = f')) as [<-|Hf].
  - rewrite Hps in Hps'. injection Hps' as <-.
    eexists. split; [apply lookup_insert_eq|].
    apply find_page_filter_ne; [congruence|done].
  - eexists. split; [by rewrite lookup_insert_ne|done].
Qed.

Lemma File_deletePage_Ok f n s s' :
  File_deletePage f n s = Ok s' ->
  exists ps, files s !! f = Some ps /\ is_Some (find_page n ps) /\
    s' = set_files (<[f := List.filter (fun q => negb (page_number q =? n)) ps]> (files s)) s.
Proof.
  unfold File_deletePage. destruct (files s !! f) as [ps|]; [|done].
  destruct (find_page n ps) eqn:Hn; [|done]. intros [= <-]. eauto.
Qed.

Lemma disposePage_wf_aux s f n s' :
  wf s -> disposePage f n s = Ok s' ->
  wf s' /\ has_page (files s) f n /\ ~ has_page (files s') f n /\
  hashTable s' = delete (f, n) (hashTable s) /\
  bufPool s' = bufPool s /\
  (forall f' n', (f', n') <> (f, n) -> has_page (files s) f' n' ->
                 has_page (files s') f' n').
Proof.
  intros Hwf H. unfold disposePage in H.
  assert (Hgone : forall ps fs,
             ~ has_page (<[f := List.filter (fun q => negb (page_number q =? n)) ps]> fs) f n).
  { intros ps fs (ps' & Hps' & Hn'). rewrite lookup_insert_eq in Hps'.
    injection Hps' as <-. rewrite find_page_filter_eq in Hn'. by destruct Hn'. }
  destruct (hashTable s !! (f, n)) as [fr|] eqn:Hh.
  - destruct (desc_at s fr) as [d| |] eqn:Hd; simpl in H; [|done..].
    apply desc_at_Ok in Hd.
    destruct (wf_hash _ Hwf _ _ _ Hh) as (d0 & Hd0 & Hv & Hf & Hn).
    rewrite Hd in Hd0. injection Hd0 as <-.
    destruct (File_deletePage f n _) as [s2| |] eqn:Hdel; simpl in H; [|done..].
    apply File_deletePage_Ok in Hdel as (ps & Hps & Hfound & ->).
    injection H as <-. simpl in *.
    pose proof (wf_evict s fr d Hwf Hd Hv) as Hwf1. rewrite Hf, Hn in Hwf1.
    split_and!; try done.
    + match goal with
      | |- wf ?x =>
          change x with
            (set_files (<[f := List.filter (fun q => negb (page_number q =? n)) ps]> (files s))
               (set_desc fr (BufDesc_Clear d)
                  (set_hashTable (delete (f, n) (hashTable s)) s)))
      end.
      apply wf_files_resident; [done| |].
      * intros i d0 Hd0 Hv0.
        destruct (wf_desc _ Hwf1 _ _ Hd0 Hv0) as (Hk & _ & Hhp). simpl in Hk, Hhp.
        apply has_page_delete; [done| |done].
        intros E. rewrite E, lookup_delete_eq in Hk. done.
      * rewrite lookup_insert_ne; [apply (wf_null _ Hwf)|].
        intros E. rewrite E, (wf_null _ Hwf) in Hps. done.
    + by exists ps.
    + intros f' n' Hne Hhp. by apply has_page_delete.
  - apply File_deletePage_Ok in H as (ps & Hps & Hfound & ->). simpl.
    split_and!; try done.
    + apply wf_files_resident; [done| |].
      * intros i d0 Hd0 Hv0.
        destruct (wf_desc _ Hwf _ _ Hd0 Hv0) as (Hk & _ & Hhp).
        apply has_page_delete; [done| |done].
        intros E. rewrite E in Hk. congruence.
      * rewrite lookup_insert_ne; [apply (wf_null _ Hwf)|].
        intros E. rewrite E, (wf_null _ Hwf) in Hps. done.
    + by exists ps.
    + by rewrite delete_id.
    + intros f' n' Hne Hhp. by apply has_page_delete.
Qed.

(** [disposePage] releases the frame of a resident page whatever its pin
    count and dirty bit, without writing it back. *)
Lemma disposePage_resident_aux s f n frame d :
  wf s -> hashTable s !! (f, n) = Some frame ->
  bufDescTable s !! N.to_nat frame = Some d ->
  exists s', disposePage f n s = Ok s' /\
    bufDescTable s' = <[N.to_nat frame := BufDesc_Clear d]> (bufDescTable s) /\
    forall f' n', (f', n') <> (f, n) ->
      (files s' !! f' ≫= find_page n') = (files s !! f' ≫= find_page n').
Proof.
  intros Hwf Hh Hd. unfold disposePage. rewrite Hh.
  unfold desc_at. rewrite Hd. simpl.
  destruct (wf_hash _ Hwf _ _ _ Hh) as (d0 & Hd0 & Hv & Hf & Hn).
  rewrite Hd in Hd0. injection Hd0 as <-.
  destruct (wf_desc _ Hwf _ _ Hd Hv) as (_ & _ & (ps & Hps & [q Hq])).
  rewrite Hf in Hps. rewrite Hn in Hq.
  unfold File_deletePage. simpl. rewrite Hps, Hq. simpl.
  eexists. split; [done|]. split; [done|]. simpl.
  intros f' n' Hne.
  destruct (decide (f = f')) as [<-|Hff].
  - rewrite lookup_insert_eq, Hps. simpl.
    assert (n' <> n) by congruence.
    unfold find_page. clear Hq Hps. induction ps as [|p ps IH]; simpl; [done|].
    destruct (N.eqb_spec (page_number p) n) as [E|E]; simpl.
    + destruct (N.eqb_spec (page_number p) n'); [congruence|done].
    + destruct (page_number p =? n'); done.
  - by rewrite lookup_insert_ne.
Qed.

(** A descriptor with the dirty bit set names a resident page. *)
Lemma wf_dirty_valid s i d :
  wf s -> bufDescTable s !! i = Some d -> dirty d = true -> valid d = true.
Proof.
  intros Hwf Hd Hdirty. destruct (valid d) eqn:Hv; [done|].
  destruct (wf_invalid _ Hwf _ _ Hd Hv) as (_ & ? & _). congruence.
Qed.

(** Two frames never hold the same page. *)
Lemma wf_unique s i j d d' :
  wf s -> bufDescTable s !! i = Some d -> bufDescTable s !! j = Some d' ->
  valid d = true -> valid d' = true ->
  file d = file d' -> pageNo d = pageNo d' -> i = j.
Proof.
  intros Hwf Hd Hd' Hv Hv' Hf Hn.
  destruct (wf_desc _ Hwf _ _ Hd Hv) as (Hk & _).
  destruct (wf_desc _ Hwf _ _ Hd' Hv') as (Hk' & _).
  rewrite Hf, Hn, Hk' in Hk. injection Hk. lia.
Qed.

Lemma flushFile_from_stored f n : forall k s s',
  wf s -> f <> NULL -> (k + n)%nat = length (bufDescTable s) ->
  forM (flushFile_frame f) (seq k n) s = Ok s' ->
  (forall j d, (k <= j)%nat -> bufDescTable s !! j = Some d ->
               file d = f -> dirty d = true ->
               exists p, bufPool s !! j = Some p /\
                         stored (files s') f (pageNo d) = Some p) /\
  (forall f' n',
      (forall j d, (k <= j)%nat -> bufDescTable s !! j = Some d ->
                   file d = f -> dirty d = true -> (f', n') <> (f, pageNo d)) ->
      stored (files s') f' n' = stored (files s) f' n').
Proof.
  induction n as [|n IH]; intros k s s' Hwf Hf Hlen H.
  - simpl in H. injection H as <-. split; [|done].
    intros j d Hj Hd. apply lookup_lt_Some in Hd. lia.
  - simpl in H.
    destruct (lookup_lt_is_Some_2 (bufDescTable s) k ltac:(lia)) as [dk Hdk].
    destruct (flushFile_frame_cases f k s dk Hwf Hf Hdk)
      as [[Hfile Hstep]|[(Hfile & Hpin & Hstep)|(Hfile & Hpin & Hv & s1 & Hstep & Hwf1 & Ht1 & Hh1 & Hp1 & Hf1 & Hc1 & Hnew1 & Hkeep1)]];
      rewrite Hstep in H; simpl in H; [|done|].
    + destruct (IH (S k) s s' Hwf Hf ltac:(lia) H) as [Hnew Hkeep]. split.
      * intros j d Hj Hd Hfd Hdirty.
        destruct (decide (j = k)) as [->|Hjk]; [congruence|].
        apply (Hnew j d); [lia|done..].
      * intros f' n' Hpre. apply Hkeep. intros j d Hj. apply Hpre. lia.
    + assert (Hlt : (k < length (bufDescTable s))%nat) by lia.
      assert (Hlen1 : (S k + n)%nat = length (bufDescTable s1))
        by (rewrite Ht1, length_insert; lia).
      destruct (IH (S k) s1 s' Hwf1 Hf Hlen1 H) as [Hnew Hkeep].
      assert (Hlater : forall j d, (S k <= j)%nat ->
                 bufDescTable s1 !! j = Some d <-> bufDescTable s !! j = Some d).
      { intros j d Hj. rewrite Ht1, list_lookup_insert_ne by lia. done. }
      split.
      * intros j d Hj Hd Hfd Hdirty.
        destruct (decide (j = k)) as [->|Hjk].
        -- rewrite Hdk in Hd. injection Hd as <-.
           destruct (Hnew1 Hdirty) as (p & Hp & Hst). exists p. split; [done|].
           rewrite Hkeep; [done|].
           intros j d' Hj' Hd' Hfd' Hdirty' [= E].
           apply Hlater in Hd'; [|done].
           assert (k = j); [|lia].
           eapply (wf_unique s k j dk d' Hwf); try done.
           ++ by eapply (wf_dirty_valid s j).
           ++ congruence.
        -- destruct (Hnew j d) as (p & Hp & Hst); [lia|by apply Hlater; [lia|]|done..|].
           exists p. by rewrite <- Hp1.
      * intros f' n' Hpre. rewrite Hkeep.
        -- destruct (dirty dk) eqn:Hdirty.
           ++ apply Hkeep1. by apply (Hpre k dk).
           ++ by rewrite Hc1.
        -- intros j d Hj Hd. apply Hlater in Hd; [|done]. apply (Hpre j); [lia|done].
Qed.

(** ** What a sweep changes *)

Lemma norefbits_set_refbit s i d b :
  bufDescTable s !! N.to_nat i = Some d ->
  norefbits (set_desc i (with_refbit b d) s) = norefbits s.
Proof.
  intros Hd. unfold norefbits, set_desc; simpl.
  rewrite list_fmap_insert. apply list_insert_id.
  by rewrite list_lookup_fmap, Hd.
Qed.

Lemma norefbits_lookup s s1 i d1 :
  norefbits s1 = norefbits s -> bufDescTable s1 !! i = Some d1 ->
  exists d, bufDescTable s !! i = Some d /\ with_refbit false d = with_refbit false d1.
Proof.
  intros Hv Hd1.
  assert (H : norefbits s !! i = Some (with_refbit false d1)).
  { rewrite <- Hv. unfold norefbits. by rewrite list_lookup_fmap, Hd1. }
  unfold norefbits in H. rewrite list_lookup_fmap in H.
  destruct (bufDescTable s !! i) as [d|]; [|done].
  exists d. split; [done|]. simpl in H. congruence.
Qed.

Lemma with_refbit_fields d0 d1 :
  with_refbit false d0 = with_refbit false d1 ->
  valid d0 = valid d1 /\ file d0 = file d1 /\ pageNo d0 = pageNo d1 /\
  dirty d0 = dirty d1 /\ pinCnt d0 = pinCnt d1.
Proof. destruct d0, d1. unfold with_refbit. simpl. intros [=]. by subst. Qed.

Lemma norefbits_insert_lookup t t1 fr c i d1 :
  norefbits t1 = <[fr := c]> (norefbits t) -> i <> fr ->
  bufDescTable t1 !! i = Some d1 ->
  exists d0, bufDescTable t !! i = Some d0 /\
             with_refbit false d0 = with_refbit false d1.
Proof.
  intros Hv Hne Hd1.
  assert (H : norefbits t !! i = Some (with_refbit false d1)).
  { rewrite <- (list_lookup_insert_ne (norefbits t) fr i c) by done.
    rewrite <- Hv. unfold norefbits. by rewrite list_lookup_fmap, Hd1. }
  unfold norefbits in H. rewrite list_lookup_fmap in H.
  destruct (bufDescTable t !! i) as [d|]; [|done].
  exists d. split; [done|]. simpl in H. congruence.
Qed.

Lemma allocBuf_loop_effect fuel : forall pinned s frame s',
  allocBuf_loop fuel pinned s = Some (Ok (frame, s')) ->
  exists d,
    bufDescTable s !! N.to_nat frame = Some d /\
    bufPool s' = bufPool s /\
    norefbits s' = <[N.to_nat frame := BufDesc_Clear d]> (norefbits s) /\
    (valid d = false -> hashTable s' = hashTable s) /\
    (valid d = true -> hashTable s' = delete (file d, pageNo d) (hashTable s)) /\
    (valid d = false \/ dirty d = false -> files s' = files s) /\
    (valid d = true -> dirty d = true ->
     exists p, bufPool s !! N.to_nat frame = Some p /\
               stored (files s') (file d) (page_number p) = Some p /\
               forall f' n', (f', n') <> (file d, page_number p) ->
                             stored (files s') f' n' = stored (files s) f' n').
Proof.
  induction fuel as [|fuel IH]; intros pinned s frame s' H; [done|].
  simpl in H.
  destruct (advanceClock s) as [s1| |] eqn:Hadv; [|done..].
  apply advanceClock_Ok in Hadv as [Hs1 _].
  assert (Ht1 : bufDescTable s1 = bufDescTable s) by (by subst s1).
  assert (Hp1 : bufPool s1 = bufPool s) by (by subst s1).
  assert (Hh1 : hashTable s1 = hashTable s) by (by subst s1).
  assert (Hf1 : files s1 = files s) by (by subst s1).
  assert (Hn1 : norefbits s1 = norefbits s) by (by subst s1).
  rewrite <- Ht1, <- Hp1, <- Hh1, <- Hf1, <- Hn1. clear Hs1 Ht1 Hp1 Hh1 Hf1 Hn1.
  destruct (pinned =? numBufs s1); [done|].
  destruct (bufDescTable s1 !! N.to_nat (clockHand s1)) as [d|] eqn:Hd; [|done].
  assert (Hlt : (N.to_nat (clockHand s1) < length (bufDescTable s1))%nat)
    by (by eapply lookup_lt_Some).
  destruct (valid d) eqn:Hvalid; simpl in H.
  - destruct (refbit d) eqn:Href.
    + apply IH in H as (d' & Hd' & Hrest).
      pose proof (norefbits_set_refbit s1 _ d false Hd) as Hnr.
      destruct (norefbits_lookup s1 _ _ d' Hnr Hd') as (d0 & Hd0 & E).
      assert (E' : BufDesc_Clear d' = BufDesc_Clear d0 /\ valid d' = valid d0 /\
                   dirty d' = dirty d0 /\ file d' = file d0 /\ pageNo d' = pageNo d0).
      { destruct d', d0. unfold with_refbit in E. simpl in *.
        injection E as -> -> -> -> -> ->. done. }
      destruct E' as (Ec & Ev & Edi & Ef & En).
      rewrite Hnr, Ec, Ev, Edi, Ef, En in Hrest. simpl in Hrest. eauto.
    + destruct (N.ltb_spec 0 (pinCnt d)) as [Hpin|Hpin]; [by apply IH in H|].
      simpl in H.
      assert (Hnr : forall s2, bufDescTable s2 = bufDescTable s1 ->
                norefbits (set_desc (clockHand s1) (BufDesc_Clear d) s2)
                = <[N.to_nat (clockHand s1) := BufDesc_Clear d]> (norefbits s1)).
      { intros s2 E. unfold norefbits. simpl. by rewrite E, list_fmap_insert. }
      destruct (dirty d) eqn:Hdirty; simpl in H.
      * destruct (page_at s1 (clockHand s1)) as [p| |] eqn:Hp; simpl in H; [|done..].
        apply page_at_Ok in Hp.
        destruct (File_writePage (file d) p s1) as [s2| |] eqn:Hwr; simpl in H; [|done..].
        destruct (File_writePage_stored _ _ _ _ Hwr) as [Hst1 Hst2].
        apply File_writePage_Ok in Hwr as (fs & -> & _).
        injection H as <- <-. exists d. simpl in *.
        split_and!; try done.
        -- by apply Hnr.
        -- congruence.
        -- intros [|]; congruence.
        -- intros _ _. eauto.
      * injection H as <- <-. exists d. simpl.
        split_and!; try done; try congruence. by apply Hnr.
  - injection H as <- <-. exists d. simpl.
    split_and!; try done; try congruence.
    unfold norefbits. simpl. by rewrite list_fmap_insert.
Qed.

(** ** The destructor *)

Lemma forM_seq_inv {S : Type} (P : nat -> S -> Prop) (body : nat -> S -> Res S) n :
  forall k s s',
    (forall i t t', (k <= i < k + n)%nat -> P i t -> body i t = Ok t' -> P (Datatypes.S i) t') ->
    P k s -> forM body (seq k n) s = Ok s' -> P (k + n)%nat s'.
Proof.
  induction n as [|n IH]; intros k s s' Hb Hs H; simpl in H.
  - injection H as <-. by rewrite Nat.add_0_r.
  - destruct (body k s) as [s1| |] eqn:Hk; simpl in H; [|done..].
    replace (k + Datatypes.S n)%nat with (Datatypes.S k + n)%nat by lia.
    eapply IH; [| |exact H].
    + intros i t t' Hi. apply Hb. lia.
    + eapply Hb; [|exact Hs|exact Hk]. lia.
Qed.

Lemma wf_valid_file s i d :
  wf s -> bufDescTable s !! i = Some d -> valid d = true -> file d <> NULL.
Proof.
  intros Hwf Hd Hv E.
  destruct (wf_desc _ Hwf _ _ Hd Hv) as (_ & _ & (ps & Hps & _)).
  rewrite E, (wf_null _ Hwf) in Hps. done.
Qed.

(** A [flushFile] that returns has released the frames of the file. *)
Lemma flushFile_Ok s f s' :
  wf s -> f <> NULL -> flushFile f s = Ok s' ->
  wf s' /\ bufDescTable s' = released f <$> bufDescTable s /\
  bufPool s' = bufPool s /\
  List.find (pinned_in f) (bufDescTable s) = None.
Proof.
  intros Hwf Hf H.
  destruct (List.find (pinned_in f) (bufDescTable s)) as [d|] eqn:Hfind.
  - rewrite (flushFile_pinned_throws_aux _ _ _ Hwf Hf Hfind) in H. done.
  - destruct (flushFile_releases_aux _ _ Hwf Hf Hfind) as (s1 & H1 & Hwf1 & Ht & Hp & _).
    rewrite H1 in H. injection H as <-. done.
Qed.

Lemma flushFile_stored s f s' :
  wf s -> f <> NULL -> flushFile f s = Ok s' ->
  (forall i d p, bufDescTable s !! i = Some d -> file d = f -> dirty d = true ->
                 bufPool s !! i = Some p ->
                 stored (files s') f (pageNo d) = Some p) /\
  (forall f' n',
      (forall i d, bufDescTable s !! i = Some d -> valid d = true ->
                   (f', n') <> (file d, pageNo d)) ->
      stored (files s') f' n' = stored (files s) f' n') /\
  (forall f' n', f' <> f -> stored (files s') f' n' = stored (files s) f' n').
Proof.
  intros Hwf Hf H. unfold flushFile in H.
  destruct (flushFile_from_stored f _ 0 s s' Hwf Hf eq_refl H) as [Hnew Hkeep].
  split_and!.
  - intros i d p Hd Hfd Hdirty Hp.
    destruct (Hnew i d ltac:(lia) Hd Hfd Hdirty) as (p' & Hp' & Hst). congruence.
  - intros f' n' Hpre. apply Hkeep. intros j d _ Hd Hfd Hdirty.
    rewrite <- Hfd. apply (Hpre j); [done|]. by eapply wf_dirty_valid.
  - intros f' n' Hne. apply Hkeep. intros j d _ _ _ _ [= E _]. done.
Qed.

Lemma destroy_frame_Ok s i s' :
  wf s -> destroy_frame i s = Ok s' ->
  exists d, bufDescTable s !! i = Some d /\
    ((dirty d = false /\ s' = s) \/
     (dirty d = true /\ file d <> NULL /\ flushFile (file d) s = Ok s')).
Proof.
  intros Hwf H. unfold destroy_frame, desc_at in H. rewrite Nat2N.id in H.
  destruct (bufDescTable s !! i) as [d|] eqn:Hd; simpl in H; [|done].
  exists d. split; [done|].
  destruct (dirty d) eqn:Hdirty; [|left; by injection H as <-].
  right. split_and!; try done.
  eapply wf_valid_file; [done..|]. by eapply wf_dirty_valid.
Qed.

Lemma BufMgr_destroy_no_dirty_aux s s' :
  wf s -> BufMgr_destroy s = Ok s' ->
  wf s' /\ Forall (fun d => dirty d = false) (bufDescTable s').
Proof.
  intros Hwf H. unfold BufMgr_destroy in H.
  pose (P := fun (i : nat) (t : BufMgr) =>
               wf t /\ length (bufDescTable t) = length (bufDescTable s) /\
               forall j d, (j < i)%nat -> bufDescTable t !! j = Some d -> dirty d = false).
  assert (HP : P (0 + length (bufDescTable s))%nat s').
  { eapply (forM_seq_inv P); [| |exact H].
    - intros i t t' Hi (Hwft & Hlen & Hclean) Hstep.
      destruct (destroy_frame_Ok _ _ _ Hwft Hstep) as (d & Hd & [[Hdirty ->]|(Hdirty & Hnull & Hfl)]).
      + split_and!; try done. intros j dj Hj Hdj.
        destruct (decide (j = i)) as [->|]; [congruence|]. apply (Hclean j); [lia|done].
      + destruct (flushFile_Ok _ _ _ Hwft Hnull Hfl) as (Hwf' & Ht & _).
        split_and!; try done.
        * by rewrite Ht, length_fmap.
        * intros j dj Hj Hdj. rewrite Ht, list_lookup_fmap in Hdj.
          destruct (bufDescTable t !! j) as [d0|] eqn:Hd0; [|done].
          injection Hdj as <-. unfold released.
          destruct (N.eqb_spec (file d0) (file d)) as [E|E]; [done|].
          destruct (decide (j = i)) as [->|]; [congruence|].
          apply (Hclean j); [lia|done].
    - split_and!; try done. intros j d Hj. lia. }
  destruct HP as (Hwf' & Hlen & Hclean). split; [done|].
  apply Forall_lookup. intros j d Hd. apply (Hclean j); [|done].
  apply lookup_lt_Some in Hd. lia.
Qed.

Lemma released_valid f d : valid (released f d) = true -> released f d = d /\ file d <> f.
Proof.
  unfold released. destruct (N.eqb_spec (file d) f); [done|]. done.
Qed.

Lemma BufMgr_destroy_stored_aux s s' :
  wf s -> BufMgr_destroy s = Ok s' ->
  forall i d p, bufDescTable s !! i = Some d -> dirty d = true ->
                bufPool s !! i = Some p ->
                stored (files s') (file d) (pageNo d) = Some p.
Proof.
  intros Hwf H i d p Hd Hdirty Hp. unfold BufMgr_destroy in H.
  pose (Q := fun (k : nat) (t : BufMgr) =>
               wf t /\
               ((stored (files t) (file d) (pageNo d) = Some p /\
                 forall j dj, bufDescTable t !! j = Some dj -> valid dj = true ->
                              (file d, pageNo d) <> (file dj, pageNo dj)) \/
                ((k <= i)%nat /\ bufDescTable t !! i = Some d /\ bufPool t !! i = Some p))).
  assert (HQ : Q (0 + length (bufDescTable s))%nat s').
  { eapply (forM_seq_inv Q); [| |exact H].
    - intros k t t' Hk (Hwft & Hcase) Hstep.
      destruct (destroy_frame_Ok _ _ _ Hwft Hstep)
        as (dk & Hdk & [[Hdirtyk ->]|(Hdirtyk & Hnull & Hfl)]).
      + split; [done|]. destruct Hcase as [HA|(Hki & Hti & Hpi)]; [by left|].
        right. split_and!; try done.
        destruct (decide (k = i)) as [->|]; [congruence|lia].
      + destruct (flushFile_Ok _ _ _ Hwft Hnull Hfl) as (Hwf' & Ht & Hpool & _).
        destruct (flushFile_stored _ _ _ Hwft Hnull Hfl) as (Hnew & Hkeep & _).
        split; [done|].
        assert (Hvalid' : forall j dj, bufDescTable t' !! j = Some dj -> valid dj = true ->
                            bufDescTable t !! j = Some dj /\ file dj <> file dk).
        { intros j dj Hdj Hv. rewrite Ht, list_lookup_fmap in Hdj.
          destruct (bufDescTable t !! j) as [d0|]; [|done]. injection Hdj as <-.
          destruct (released_valid _ _ Hv) as [-> ?]. done. }
        destruct Hcase as [[Hst Hnone]|(Hki & Hti & Hpi)].
        * left. split.
          -- rewrite Hkeep; [done|]. intros j dj Hdj Hv. by apply (Hnone j).
          -- intros j dj Hdj Hv. destruct (Hvalid' _ _ Hdj Hv) as [Hdj' _].
             by apply (Hnone j).
        * destruct (decide (file d = file dk)) as [E|E].
          -- left. split.
             ++ rewrite E. apply (Hnew i); try done.
             ++ intros j dj Hdj Hv [= Ef _].
                destruct (Hvalid' _ _ Hdj Hv) as [_ Hne]. congruence.
          -- right. split_and!.
             ++ destruct (decide (k = i)) as [->|]; [congruence|lia].
             ++ rewrite Ht, list_lookup_fmap, Hti. simpl. unfold released.
                destruct (N.eqb_spec (file d) (file dk)); done.
             ++ congruence.
    - split; [done|]. right. split_and!; [lia|done..]. }
  destruct HQ as (_ & [[Hst _]|(Hk & _)]); [done|].
  apply lookup_lt_Some in Hd. lia.
Qed.

(** With no page pinned the destructor's loop runs to its end. *)
Lemma forM_seq_total {S : Type} (P : nat -> S -> Prop) (body : nat -> S -> Res S) n :
  forall k s,
    (forall i t, (k <= i < k + n)%nat -> P i t ->
                 exists t', body i t = Ok t' /\ P (Datatypes.S i) t') ->
    P k s -> exists s', forM body (seq k n) s = Ok s' /\ P (k + n)%nat s'.
Proof.
  induction n as [|n IH]; intros k s Hb Hs; simpl.
  - exists s. by rewrite Nat.add_0_r.
  - destruct (Hb k s ltac:(lia) Hs) as (s1 & Hk & Hs1). rewrite Hk. simpl.
    replace (k + Datatypes.S n)%nat with (Datatypes.S k + n)%nat by lia.
    apply IH; [|done]. intros i t Hi. apply Hb. lia.
Qed.

Lemma find_pinned_none f l :
  Forall (fun d => pinCnt d = 0) l -> List.find (pinned_in f) l = None.
Proof.
  induction 1 as [|d l Hd _ IH]; simpl; [done|].
  unfold pinned_in at 1. rewrite Hd. simpl. by rewrite andb_false_r.
Qed.

Lemma BufMgr_destroy_unpinned_aux s :
  wf s -> Forall (fun d => pinCnt d = 0) (bufDescTable s) ->
  exists s', BufMgr_destroy s = Ok s'.
Proof.
  intros Hwf Hun. unfold BufMgr_destroy.
  pose (P := fun (i : nat) (t : BufMgr) =>
               wf t /\ length (bufDescTable t) = length (bufDescTable s) /\
               Forall (fun d => pinCnt d = 0) (bufDescTable t)).
  destruct (forM_seq_total P destroy_frame (length (bufDescTable s)) 0 s)
    as (s' & Hrun & _); [| |by eauto].
  - intros i t Hi (Hwft & Hlen & Hunt).
    destruct (lookup_lt_is_Some_2 (bufDescTable t) i ltac:(lia)) as [d Hd].
    unfold destroy_frame, desc_at. rewrite Nat2N.id, Hd. simpl.
    destruct (dirty d) eqn:Hdirty; [|by exists t].
    assert (Hnull : file d <> NULL).
    { eapply wf_valid_file; [done..|]. by eapply wf_dirty_valid. }
    destruct (flushFile_releases_aux t (file d) Hwft Hnull (find_pinned_none _ _ Hunt))
      as (t' & Hfl & Hwf' & Ht & _).
    exists t'. split; [done|]. split_and!; try done.
    + by rewrite Ht, length_fmap.
    + rewrite Ht. apply Forall_fmap. eapply Forall_impl; [exact Hunt|].
      intros d0 Hd0. simpl. unfold released. by destruct (file d0 =? file d).
  - done.
Qed.

(** ** When the sweep succeeds *)

Lemma allocBuf_loop_reaches (dist : nat) : forall fuel pinned s j d,
  wf s -> numBufs s < UINT32 -> j < numBufs s ->
  (((clockHand s + 1) mod UINT32) mod numBufs s + N.of_nat dist) mod numBufs s = j ->
  bufDescTable s !! N.to_nat j = Some d -> evictable d = true ->
  pinned + N.of_nat dist < numBufs s -> (dist < fuel)%nat ->
  exists r, allocBuf_loop fuel pinned s = Some (Ok r).
Proof.
  induction dist as [|dist IH]; intros fuel pinned s j d Hwf Hn Hj Hdist Hd Hev Hp Hfuel;
    (destruct fuel as [|fuel]; [lia|]); simpl;
    unfold advanceClock; (destruct (N.eqb_spec (numBufs s) 0) as [|Hn0]; [lia|]);
    set (h := ((clockHand s + 1) mod UINT32) mod numBufs s) in *;
    assert (Hh : h < numBufs s) by (by apply N.mod_lt);
    change (numBufs (set_clockHand h s)) with (numBufs s);
    (destruct (N.eqb_spec pinned (numBufs s)); [lia|]);
    cbn [clockHand set_clockHand bufDescTable];
    (destruct (lookup_lt_is_Some_2 (bufDescTable s) (N.to_nat h)) as [d1 Hd1];
      [unfold numBufs in Hh; lia|]);
    rewrite Hd1;
    assert (Hwf1 : wf (set_clockHand h s)) by (by apply wf_clockHand).
  all: assert (Hvictim : valid d1 = true -> refbit d1 = false -> pinCnt d1 = 0 ->
         exists r, (s2 ← (if dirty d1
                          then p ← page_at (set_clockHand h s) h;
                               File_writePage (file d1) p (set_clockHand h s)
                          else Ok (set_clockHand h s));
                    Ok (h, set_desc h (BufDesc_Clear d1)
                             (set_hashTable (delete (file d1, pageNo d1) (hashTable s2)) s2)))
                   = Ok r).
  1,3: intros Hv _ _; destruct (dirty d1); simpl; [|by eexists];
       destruct (wf_desc _ Hwf _ _ Hd1 Hv) as (_ & (p & Hp1 & Hpn) & Hhp);
       unfold page_at; simpl; rewrite Hp1; simpl;
       destruct (File_writePage_total (file d1) p (set_clockHand h s)) as [s2 Hw];
       [by rewrite Hpn|]; rewrite Hw; simpl; by eexists.
  - (* the hand is on the evictable frame *)
    assert (h = j) as -> by (rewrite N.add_0_r, N.mod_small in Hdist; done).
    rewrite Hd in Hd1. injection Hd1 as <-.
    unfold evictable in Hev.
    destruct (valid d) eqn:Hv; simpl in *; [|by eexists].
    apply andb_prop in Hev as [Hr Hpin].
    destruct (refbit d); [done|]. apply N.eqb_eq in Hpin. rewrite Hpin. simpl.
    destruct (Hvictim eq_refl eq_refl Hpin) as [r Hr']. rewrite Hr'. by eexists.
  - (* one more step towards it *)
    assert (Hnext : forall s', clockHand s' = h -> numBufs s' = numBufs s ->
              (((clockHand s' + 1) mod UINT32) mod numBufs s' + N.of_nat dist)
                mod numBufs s' = j).
    { intros s' -> ->. rewrite (N.mod_small (h + 1)) by lia.
      rewrite N.Div0.add_mod_idemp_l. rewrite <- Hdist. f_equal. lia. }
    destruct (valid d1) eqn:Hv; simpl; [|by eexists].
    destruct (decide (h = j)) as [->|Hhj].
    + rewrite Hd in Hd1. injection Hd1 as <-.
      unfold evictable in Hev. rewrite Hv in Hev. simpl in Hev.
      apply andb_prop in Hev as [Hr Hpin].
      destruct (refbit d); [done|]. apply N.eqb_eq in Hpin. rewrite Hpin. simpl.
      destruct (Hvictim eq_refl eq_refl Hpin) as [r Hr']. rewrite Hr'. by eexists.
    + destruct (refbit d1) eqn:Href.
      * apply (IH _ _ _ j d); try done.
        -- by apply (wf_update _ _ d1).
        -- by rewrite numBufs_set_desc.
        -- by rewrite numBufs_set_desc.
        -- rewrite Hnext; [done..|by rewrite numBufs_set_desc].
        -- simpl. rewrite list_lookup_insert_ne by lia. done.
        -- rewrite numBufs_set_desc.
           change (numBufs (set_clockHand h s)) with (numBufs s). lia.
        -- lia.
      * destruct (N.ltb_spec 0 (pinCnt d1)) as [Hpin|Hpin].
        -- rewrite (N.mod_small (pinned + 1)) by lia.
           apply (IH _ _ _ j d); try done.
           ++ by apply Hnext.
           ++ change (numBufs (set_clockHand h s)) with (numBufs s). lia.
           ++ lia.
        -- simpl. destruct (Hvictim eq_refl eq_refl ltac:(lia)) as [r Hr'].
           rewrite Hr'. by eexists.
Qed.

Lemma allocBuf_evictable_aux s j d :
  wf s -> numBufs s < UINT32 ->
  bufDescTable s !! j = Some d -> evictable d = true ->
  exists r, allocBuf s = Ok r.
Proof.
  intros Hwf Hn Hd Hev.
  assert (Hj : N.of_nat j < numBufs s).
  { apply lookup_lt_Some in Hd. unfold numBufs. lia. }
  set (h := ((clockHand s + 1) mod UINT32) mod numBufs s).
  assert (Hh : h < numBufs s) by (apply N.mod_lt; lia).
  set (dist := (N.of_nat j + numBufs s - h) mod numBufs s).
  assert (Hdist : dist < numBufs s) by (apply N.mod_lt; lia).
  destruct (allocBuf_loop_reaches (N.to_nat dist) (allocBuf_fuel s) 0 s (N.of_nat j) d)
    as [r Hr]; try done.
  - rewrite N2Nat.id. fold h. unfold dist.
    rewrite N.Div0.add_mod_idemp_r.
    replace (h + (N.of_nat j + numBufs s - h)) with (N.of_nat j + 1 * numBufs s) by lia.
    rewrite N.Div0.mod_add. by apply N.mod_small.
  - by rewrite Nat2N.id.
  - rewrite N2Nat.id. lia.
  - unfold allocBuf_fuel, numBufs in *. lia.
  - exists r. unfold allocBuf. by rewrite Hr.
Qed.

(** ** Sample pools are consistent *)

Lemma pool1_wf : wf pool1.
Proof. apply BufMgr_new_wf. vm_compute. reflexivity. Qed.

Lemma pool2_wf : wf pool2.
Proof. apply BufMgr_new_wf. vm_compute. reflexivity. Qed.

Lemma pool1_A1_wf : wf pool1_A1.
Proof.
  apply (readPage_wf pool1 fileA 1 0 pool1_A1 pool1_wf). vm_compute. reflexivity.
Qed.

Lemma pool2_A1_wf : wf pool2_A1.
Proof.
  apply (readPage_wf pool2 fileA 1 0 pool2_A1 pool2_wf). vm_compute. reflexivity.
Qed.

Lemma pool2_dirty_wf : wf pool2_dirty.
Proof.
  apply (unPinPage_wf pool2_A1 fileA 1 true pool2_dirty pool2_A1_wf).
  vm_compute. reflexivity.
Qed.

(** * The buffer manager: what its operations guarantee *)

Lemma allocBuf_loop_terminates_witness :
  exists r, allocBuf_loop (allocBuf_fuel pool2) 0 pool2 = Some r /\ allocBuf pool2 = r.
Proof. apply (allocBuf_loop_terminates pool2). vm_compute. reflexivity. Defined.

Lemma allocBuf_all_pinned_witness :
  allocBuf pool1_A1 = Throw BufferExceededException.
Proof.
  apply (allocBuf_all_pinned pool1_A1).
  - unfold all_pinned. vm_compute. repeat constructor.
  - vm_compute. discriminate.
  - vm_compute. reflexivity.
Defined.

(** X3. On a consistent pool that has a free frame, or an unpinned frame
    whose reference bit is clear, [allocBuf] returns a frame: it throws
    [BufferExceededException] only when every unpinned frame still has its
    reference bit set. *)
Theorem allocBuf_succeeds_if_evictable (s : BufMgr) (j : nat) (d : BufDesc) :
  wf s -> numBufs s < UINT32 ->
  bufDescTable s !! j = Some d -> evictable d = true ->
  exists frame s', allocBuf s = Ok (frame, s').
Proof.
  intros Hwf Hn Hd Hev.
  destruct (allocBuf_evictable_aux s j d Hwf Hn Hd Hev) as [[frame s'] Hr].
  by exists frame, s'.
Qed.

Lemma allocBuf_succeeds_if_evictable_witness :
  exists frame s', allocBuf pool2_A1 = Ok (frame, s').
Proof.
  apply (allocBuf_succeeds_if_evictable pool2_A1 1
           (mkBufDesc NULL INVALID_NUMBER 1 0 false false false)).
  - exact pool2_A1_wf.
  - vm_compute. reflexivity.
  - vm_compute. reflexivity.
  - reflexivity.
Defined.

Lemma allocBuf_loop_chosen fuel : forall pinned s frame s',
  allocBuf_loop fuel pinned s = Some (Ok (frame, s')) ->
  exists d', bufDescTable s' !! N.to_nat frame = Some d' /\ refbit d' = false.
Proof.
  induction fuel as [|fuel IH]; intros pinned s frame s' H; simpl in H; [done|].
  destruct (advanceClock s) as [s1| |]; [|done..].
  destruct (pinned =? numBufs s1); [done|].
  destruct (bufDescTable s1 !! N.to_nat (clockHand s1)) as [d|] eqn:Hd; [|done].
  pose proof (lookup_lt_Some _ _ _ Hd) as Hlt.
  destruct (negb (valid d)).
  { injection H as <- <-. exists (BufDesc_Clear d). simpl.
    by rewrite list_lookup_insert_eq. }
  destruct (refbit d); [by apply IH in H|].
  destruct (0 <? pinCnt d); [by apply IH in H|].
  simpl in H.
  destruct (if dirty d then _ else _) as [s2| |] eqn:Hw; simpl in H; [|done..].
  injection H as <- <-. exists (BufDesc_Clear d). simpl.
  rewrite list_lookup_insert_eq; [done|].
  destruct (dirty d); [|by injection Hw as <-].
  destruct (page_at s1 (clockHand s1)) as [p| |]; simpl in Hw; [|done..].
  apply File_writePage_Ok in Hw as (fs & -> & _). done.
Qed.

(** X4. What a call of [allocBuf] that returns frame [frame] has changed:
    the descriptor of [frame] is the cleared one (no file, no page, pin
    count 0, not dirty, not valid, reference bit clear); the table keeps
    its length and the other descriptors differ at most in reference
    bits; the frames' pages are untouched; the hash entry of the evicted
    page is removed; the files are unchanged unless the victim was valid
    and dirty, in which case its page, and only that page, has been
    written to its file. *)
Theorem allocBuf_effect (s s' : BufMgr) (frame : FrameId) :
  allocBuf s = Ok (frame, s') ->
  exists d,
    bufDescTable s !! N.to_nat frame = Some d /\
    bufDescTable s' !! N.to_nat frame = Some (BufDesc_Clear d) /\
    length (bufDescTable s') = length (bufDescTable s) /\
    (forall i d', i <> N.to_nat frame -> bufDescTable s' !! i = Some d' ->
       exists d0, bufDescTable s !! i = Some d0 /\
                  with_refbit false d0 = with_refbit false d') /\
    bufPool s' = bufPool s /\
    (valid d = false -> hashTable s' = hashTable s) /\
    (valid d = true -> hashTable s' = delete (file d, pageNo d) (hashTable s)) /\
    (valid d = false \/ dirty d = false -> files s' = files s) /\
    (valid d = true -> dirty d = true ->
     exists p, bufPool s !! N.to_nat frame = Some p /\
               stored (files s') (file d) (page_number p) = Some p /\
               forall f' n', (f', n') <> (file d, page_number p) ->
                             stored (files s') f' n' = stored (files s) f' n').
Proof.
  unfold allocBuf. intros H.
  destruct (allocBuf_loop (allocBuf_fuel s) 0 s) as [r|] eqn:Hl; [|done].
  subst r.
  destruct (allocBuf_loop_chosen _ _ _ _ _ Hl) as (d' & Hd' & Href).
  apply allocBuf_loop_effect in Hl as (d & Hd & Hpool & Hnoref & Hrest).
  exists d. split; [done|].
  assert (Hlen : length (bufDescTable s') = length (bufDescTable s)).
  { apply (f_equal length) in Hnoref. unfold norefbits in Hnoref.
    by rewrite length_insert, !length_fmap in Hnoref. }
  split_and!; try done; try tauto.
  - assert (E : norefbits s' !! N.to_nat frame = Some (BufDesc_Clear d)).
    { rewrite Hnoref. apply list_lookup_insert_eq. unfold norefbits.
      rewrite length_fmap. by eapply lookup_lt_Some. }
    unfold norefbits in E. rewrite list_lookup_fmap, Hd' in E.
    simpl in E. apply (inj Some) in E. rewrite Hd', <- E. f_equal.
    destruct d'. simpl in Href. by subst.
  - intros i d1 Hne Hd1. by eapply norefbits_insert_lookup.
Qed.

Lemma allocBuf_effect_witness :
  bufDescTable pool3_written !! N.to_nat 1
    = Some (mkBufDesc NULL INVALID_NUMBER 1 0 false false false) /\
  bufPool pool3_written = bufPool pool3_dirty /\
  stored (files pool3_dirty) fileA 2 = Some (mkPage 2 []) /\
  stored (files pool3_written) fileA 2 = Some (mkPage 2 [str "new"]).
Proof.
  destruct (allocBuf_effect pool3_dirty pool3_written 1)
    as (d & Hd & Hd' & _ & _ & Hp & _ & _ & _ & Hw).
  - vm_compute. reflexivity.
  - vm_compute in Hd. injection Hd as <-. split_and!.
    + exact Hd'.
    + exact Hp.
    + vm_compute. reflexivity.
    + destruct (Hw eq_refl eq_refl) as (p & Hpp & Hst & _).
      vm_compute in Hpp. injection Hpp as <-. exact Hst.
Defined.

(** X5. The consistency of the pool ([wf]: hash table and valid
    descriptors name the same resident pages, each frame holds the page
    its descriptor names, that page exists in its file, invalid
    descriptors are clear) holds after the constructor and after every
    call of [readPage], [unPinPage], [allocPage], [disposePage],
    [flushFile] and the destructor's loop that returns. *)
Theorem pool_stays_consistent :
  (forall bufs fs, fs !! NULL = None -> wf (BufMgr_new bufs fs)) /\
  (forall s f n frame s', wf s -> readPage f n s = Ok (frame, s') -> wf s') /\
  (forall s f n b s', wf s -> unPinPage f n b s = Ok s' -> wf s') /\
  (forall s f n frame s', wf s -> allocPage f s = Ok (n, frame, s') -> wf s') /\
  (forall s f n s', wf s -> disposePage f n s = Ok s' -> wf s') /\
  (forall s f s', wf s -> f <> NULL -> flushFile f s = Ok s' -> wf s') /\
  (forall s s', wf s -> BufMgr_destroy s = Ok s' -> wf s').
Proof.
  split_and!.
  - apply BufMgr_new_wf.
  - intros s f n frame s' Hwf H. by destruct (readPage_wf _ _ _ _ _ Hwf H).
  - intros s f n b s' Hwf H. by destruct (unPinPage_wf _ _ _ _ _ Hwf H).
  - intros s f n frame s' Hwf H. by destruct (allocPage_wf_aux _ _ _ _ _ Hwf H).
  - intros s f n s' Hwf H. by destruct (disposePage_wf_aux _ _ _ _ Hwf H).
  - intros s f s' Hwf Hf H. by destruct (flushFile_Ok _ _ _ Hwf Hf H).
  - intros s s' Hwf H. by destruct (BufMgr_destroy_no_dirty_aux _ _ Hwf H).
Qed.

(** X6. After [readPage(file, pageNo)] returns, the page is resident in
    the frame handed out: the hash table maps it there, the descriptor is
    valid for (file, pageNo) with the reference bit set, and the frame
    holds a page of that number. On a miss the pin count is 1, the frame
    is clean and holds the page as the file stores it. *)
Theorem readPage_resident (s s' : BufMgr) (f : FilePtr) (n : PageId) (frame : FrameId) :
  wf s -> readPage f n s = Ok (frame, s') ->
  hashTable s' !! (f, n) = Some frame /\
  exists d p,
    bufDescTable s' !! N.to_nat frame = Some d /\
    valid d = true /\ file d = f /\ pageNo d = n /\ refbit d = true /\
    bufPool s' !! N.to_nat frame = Some p /\ page_number p = n /\
    (hashTable s !! (f, n) = None ->
     pinCnt d = 1 /\ dirty d = false /\ stored (files s') f n = Some p).
Proof.
  intros Hwf H.
  destruct (readPage_wf _ _ _ _ _ Hwf H) as (Hwf' & _ & Hh & _).
  split; [done|].
  destruct (wf_hash _ Hwf' _ _ _ Hh) as (d & Hd & Hv & Hf & Hn).
  destruct (wf_desc _ Hwf' _ _ Hd Hv) as (_ & (p & Hp & Hpn) & _).
  exists d, p. split_and!; try done; try congruence.
  - unfold readPage in H. destruct (hashTable s !! (f, n)) as [fr|] eqn:Hhit.
    + destruct (desc_at s fr) as [d0| |]; simpl in H; [|done..].
      injection H as <- <-. simpl in Hd.
      apply list_lookup_insert_Some in Hd as [(_ & <- & _)|[? _]]; done.
    + destruct (allocBuf s) as [[fr s1]| |]; simpl in H; [|done..].
      destruct (File_readPage f n s1) as [p0| |]; simpl in H; [|done..].
      destruct (desc_at _ fr) as [d0| |]; simpl in H; [|done..].
      injection H as <- <-. simpl in Hd.
      apply list_lookup_insert_Some in Hd as [(_ & <- & _)|[? _]]; done.
  - intros Hmiss. unfold readPage in H. rewrite Hmiss in H.
    destruct (allocBuf s) as [[fr s1]| |]; simpl in H; [|done..].
    destruct (File_readPage f n s1) as [p0| |] eqn:Hr; simpl in H; [|done..].
    destruct (desc_at _ fr) as [d0| |]; simpl in H; [|done..].
    injection H as <- <-. simpl in Hd, Hp |- *.
    apply list_lookup_insert_Some in Hd as [(_ & <- & _)|[? _]]; [|done].
    apply list_lookup_insert_Some in Hp as [(_ & <- & _)|[? _]]; [|done].
    split_and!; try done.
    unfold File_readPage in Hr. unfold stored.
    destruct (files s1 !! f) as [ps|]; [|done]. simpl.
    destruct (find_page n ps); [|done]. congruence.
Qed.

Lemma readPage_resident_witness :
  hashTable pool2_A1 !! (fileA, 1) = Some 0.
Proof.
  apply (readPage_resident pool2 pool2_A1 fileA 1 0).
  - exact pool2_wf.
  - vm_compute. reflexivity.
Defined.

(** X7. A [readPage] that finds the page resident, followed by
    [unPinPage] with [dirty = false], changes nothing but the reference
    bit of the frame, which is set: the pin count is back to its value,
    the hash table, the frames and the files are untouched. *)
Theorem readPage_unPinPage_hit (s : BufMgr) (f : FilePtr) (n : PageId)
    (frame : FrameId) (d : BufDesc) :
  hashTable s !! (f, n) = Some frame ->
  bufDescTable s !! N.to_nat frame = Some d ->
  pinCnt d + 1 < UINT32 ->
  ('(_, s1) ← readPage f n s; unPinPage f n false s1)
    = Ok (set_desc frame (with_refbit true d) s).
Proof.
  intros Hh Hd Hpin. unfold readPage, desc_at. rewrite Hh, Hd. simpl.
  unfold unPinPage, desc_at. simpl. rewrite Hh.
  rewrite list_lookup_insert_eq by (by eapply lookup_lt_Some). simpl.
  rewrite N.mod_small by done.
  destruct (N.ltb_spec 0 (pinCnt d + 1)); [|lia].
  unfold set_desc. simpl. rewrite list_insert_insert_eq.
  do 3 f_equal. unfold with_pinCnt, with_refbit. simpl. f_equal. lia.
Qed.

Lemma readPage_unPinPage_hit_witness :
  ('(_, s1) ← readPage fileA 1 pool2_A1; unPinPage fileA 1 false s1)
    = Ok (set_desc 0 (with_refbit true (mkBufDesc fileA 1 0 1 false true true)) pool2_A1).
Proof.
  apply (readPage_unPinPage_hit pool2_A1 fileA 1 0 (mkBufDesc fileA 1 0 1 false true true)).
  - vm_compute. reflexivity.
  - vm_compute. reflexivity.
  - vm_compute. reflexivity.
Defined.

(** X8. On a consistent pool, [flushFile] throws [PagePinnedException]
    for the first frame of the file whose pin count is not 0, with that
    frame's page and frame numbers. *)
Theorem flushFile_pinned_throws (s : BufMgr) (f : FilePtr) (d : BufDesc) :
  wf s -> f <> NULL ->
  List.find (pinned_in f) (bufDescTable s) = Some d ->
  flushFile f s = Throw (PagePinnedException (pageNo d) (frameNo d)).
Proof.
  intros Hwf Hf Hfind.
  rewrite (flushFile_pinned_throws_aux s f d Hwf Hf Hfind).
  reflexivity.
Qed.

Lemma flushFile_pinned_throws_witness :
  flushFile fileA pool2_A1 = Throw (PagePinnedException 1 0).
Proof.
  apply (flushFile_pinned_throws pool2_A1 fileA (mkBufDesc fileA 1 0 1 false true true)).
  - exact pool2_A1_wf.
  - discriminate.
  - vm_compute. reflexivity.
Defined.

(** X9. On a consistent pool where no frame of the file is pinned,
    [flushFile] returns (it never throws [BadBufferException]): every
    descriptor of the file is cleared, the other descriptors and all the
    frames' pages are unchanged, the hash table has no entry of the file
    left and keeps the entries of the other files. *)
Theorem flushFile_releases (s : BufMgr) (f : FilePtr) :
  wf s -> f <> NULL ->
  List.find (pinned_in f) (bufDescTable s) = None ->
  exists s', flushFile f s = Ok s' /\
    bufDescTable s' = released f <$> bufDescTable s /\
    bufPool s' = bufPool s /\
    (forall n, hashTable s' !! (f, n) = None) /\
    (forall f' n, f' <> f -> hashTable s' !! (f', n) = hashTable s !! (f', n)).
Proof.
  intros Hwf Hf Hfind.
  destruct (flushFile_releases_aux s f Hwf Hf Hfind)
    as (s' & H & _ & Ht & Hp & Hnone & Hkeep & _).
  exists s'. by split_and!.
Qed.

Lemma flushFile_releases_witness :
  exists s', flushFile fileA pool2_dirty = Ok s' /\
    bufDescTable s' = released fileA <$> bufDescTable pool2_dirty /\
    bufPool s' = bufPool pool2_dirty /\
    (forall n, hashTable s' !! (fileA, n) = None) /\
    (forall f' n, f' <> fileA -> hashTable s' !! (f', n) = hashTable pool2_dirty !! (f', n)).
Proof.
  apply (flushFile_releases pool2_dirty fileA).
  - exact pool2_dirty_wf.
  - discriminate.
  - vm_compute. reflexivity.
Defined.

(** X10. When [flushFile] returns on a consistent pool, the file stores,
    for every frame of the file that was dirty, the page that frame held;
    the pages of the other files are as they were. *)
Theorem flushFile_writes_back (s s' : BufMgr) (f : FilePtr) :
  wf s -> f <> NULL -> flushFile f s = Ok s' ->
  (forall i d p, bufDescTable s !! i = Some d -> file d = f -> dirty d = true ->
                 bufPool s !! i = Some p ->
                 stored (files s') f (pageNo d) = Some p) /\
  (forall f' n', f' <> f -> stored (files s') f' n' = stored (files s) f' n').
Proof.
  intros Hwf Hf H.
  destruct (flushFile_stored s f s' Hwf Hf H) as (Hnew & _ & Hother).
  split; [exact Hnew|exact Hother].
Qed.

Lemma flushFile_writes_back_witness :
  stored (files pool2_flushed) fileA 1 = Some (mkPage 1 []).
Proof.
  destruct (flushFile_writes_back pool2_dirty pool2_flushed fileA) as [Hnew _].
  - exact pool2_dirty_wf.
  - discriminate.
  - vm_compute. reflexivity.
  - apply (Hnew 0%nat (mkBufDesc fileA 1 0 0 true true true)); vm_compute; reflexivity.
Defined.

(** X11. When [allocPage] returns on a consistent pool, the page number
    it reports was not in the file before and is in it now; the page is
    resident in the frame handed out, pinned once, clean, with the
    reference bit set, and the frame holds the new empty page. *)
Theorem allocPage_fresh (s s' : BufMgr) (f : FilePtr) (n : PageId) (frame : FrameId) :
  wf s -> allocPage f s = Ok (n, frame, s') ->
  ~ has_page (files s) f n /\ has_page (files s') f n /\
  hashTable s' !! (f, n) = Some frame /\
  (exists d, bufDescTable s' !! N.to_nat frame = Some d /\
             file d = f /\ pageNo d = n /\ pinCnt d = 1 /\
             dirty d = false /\ valid d = true /\ refbit d = true) /\
  bufPool s' !! N.to_nat frame = Some (mkPage n []).
Proof.
  intros Hwf H.
  destruct (allocPage_wf_aux s f n frame s' Hwf H) as (_ & Hfresh & Hnow & Hh & Hd & Hp).
  by split_and!.
Qed.

Lemma allocPage_fresh_witness :
  has_page (files pool2_alloc) fileA 5 /\ ~ has_page (files pool2) fileA 5.
Proof.
  destruct (allocPage_fresh pool2 pool2_alloc fileA 5 0) as (Hfresh & Hnow & _).
  - exact pool2_wf.
  - vm_compute. reflexivity.
  - split; [exact Hnow|exact Hfresh].
Defined.

(** X12. When [disposePage] returns on a consistent pool, the page was in
    the file and is no longer, its hash entry is gone, no frame's page
    changed and every other page of every file is still there. *)
Theorem disposePage_removes (s s' : BufMgr) (f : FilePtr) (n : PageId) :
  wf s -> disposePage f n s = Ok s' ->
  has_page (files s) f n /\ ~ has_page (files s') f n /\
  hashTable s' = delete (f, n) (hashTable s) /\
  bufPool s' = bufPool s /\
  (forall f' n', (f', n') <> (f, n) -> has_page (files s) f' n' ->
                 has_page (files s') f' n').
Proof.
  intros Hwf H.
  destruct (disposePage_wf_aux s f n s' Hwf H) as (_ & Hin & Hout & Hh & Hp & Hkeep).
  by split_and!.
Qed.

(** X13. [disposePage] of a resident page of a consistent pool always
    returns, whatever the pin count and the dirty bit of its frame: the
    descriptor is cleared, nothing is written back, and the other pages
    of the files are as they were. *)
Theorem disposePage_ignores_pin (s : BufMgr) (f : FilePtr) (n : PageId)
    (frame : FrameId) (d : BufDesc) :
  wf s -> hashTable s !! (f, n) = Some frame ->
  bufDescTable s !! N.to_nat frame = Some d ->
  exists s', disposePage f n s = Ok s' /\
    bufDescTable s' = <[N.to_nat frame := BufDesc_Clear d]> (bufDescTable s) /\
    forall f' n', (f', n') <> (f, n) -> stored (files s') f' n' = stored (files s) f' n'.
Proof.
  intros Hwf Hh Hd.
  destruct (disposePage_resident_aux s f n frame d Hwf Hh Hd) as (s' & H & Ht & Hst).
  exists s'. split_and!; [done..|]. intros f' n' Hne. by apply Hst.
Qed.

Lemma disposePage_removes_witness :
  has_page (files pool2_A1) fileA 1 /\ ~ has_page (files pool2_disposed) fileA 1.
Proof.
  destruct (disposePage_removes pool2_A1 pool2_disposed fileA 1) as (Hin & Hout & _).
  - exact pool2_A1_wf.
  - vm_compute. reflexivity.
  - split; [exact Hin|exact Hout].
Defined.

Lemma disposePage_ignores_pin_witness :
  exists s', disposePage fileA 1 pool2_A1 = Ok s' /\
    bufDescTable s'
      = <[N.to_nat 0 := BufDesc_Clear (mkBufDesc fileA 1 0 1 false true true)]>
          (bufDescTable pool2_A1) /\
    forall f' n', (f', n') <> (fileA, 1) ->
      stored (files s') f' n' = stored (files pool2_A1) f' n'.
Proof.
  apply (disposePage_ignores_pin pool2_A1 fileA 1 0 (mkBufDesc fileA 1 0 1 false true true)).
  - exact pool2_A1_wf.
  - vm_compute. reflexivity.
  - vm_compute. reflexivity.
Defined.

(** X14. When the destructor's loop returns on a consistent pool, no
    frame is dirty any more, and for every frame that was dirty its file
    stores the page the frame held. *)
Theorem BufMgr_destroy_writes_back (s s' : BufMgr) :
  wf s -> BufMgr_destroy s = Ok s' ->
  Forall (fun d => dirty d = false) (bufDescTable s') /\
  forall i d p, bufDescTable s !! i = Some d -> dirty d = true ->
                bufPool s !! i = Some p ->
                stored (files s') (file d) (pageNo d) = Some p.
Proof.
  intros Hwf H. split.
  - by destruct (BufMgr_destroy_no_dirty_aux s s' Hwf H).
  - by apply BufMgr_destroy_stored_aux.
Qed.

Lemma BufMgr_destroy_writes_back_witness :
  Forall (fun d => dirty d = false) (bufDescTable pool2_destroyed) /\
  stored (files pool2_destroyed) fileA 1 = Some (mkPage 1 []).
Proof.
  destruct (BufMgr_destroy_writes_back pool2_dirty pool2_destroyed) as [Hclean Hst].
  - exact pool2_dirty_wf.
  - vm_compute. reflexivity.
  - split; [exact Hclean|].
    apply (Hst 0%nat (mkBufDesc fileA 1 0 0 true true true)); vm_compute; reflexivity.
Defined.

(** X15. On a consistent pool with no pinned frame the destructor's loop
    runs to its end: it does not throw. *)
Theorem BufMgr_destroy_unpinned (s : BufMgr) :
  wf s -> Forall (fun d => pinCnt d = 0) (bufDescTable s) ->
  exists s', BufMgr_destroy s = Ok s'.
Proof.
  intros Hwf Hun.
  destruct (BufMgr_destroy_unpinned_aux s Hwf Hun) as [s' H].
  by exists s'.
Qed.

Lemma BufMgr_destroy_unpinned_witness :
  exists s', BufMgr_destroy pool2_dirty = Ok s'.
Proof.
  apply (BufMgr_destroy_unpinned pool2_dirty).
  - exact pool2_dirty_wf.
  - vm_compute. repeat constructor.
Defined.

Lemma destroy_first_dirty s d e n : forall k,
  (k + n)%nat = length (bufDescTable s) ->
  List.find dirty (drop k (bufDescTable s)) = Some d ->
  flushFile (file d) s = Throw e ->
  forM destroy_frame (seq k n) s = Throw e.
Proof.
  induction n as [|n IH]; intros k Hlen Hfind Hthrow.
  - rewrite drop_ge in Hfind by lia. done.
  - destruct (lookup_lt_is_Some_2 (bufDescTable s) k ltac:(lia)) as [dk Hdk].
    rewrite (drop_S _ _ _ Hdk) in Hfind. simpl in Hfind. simpl.
    assert (E : destroy_frame k s = if dirty dk then flushFile (file dk) s else Ok s)
      by (unfold destroy_frame, desc_at; by rewrite Nat2N.id, Hdk).
    rewrite E. destruct (dirty dk) eqn:Hdirty.
    + injection Hfind as <-. by rewrite Hthrow.
    + simpl. apply IH; [lia|done..].
Qed.

(** X16. The destructor does not return when the file of the first
    dirty frame has a pinned frame: [flushFile] throws
    [PagePinnedException] for the first pinned frame of that file, the
    exception reaches the [noexcept] boundary of the destructor, and
    [std::terminate] ends the process. *)
Theorem BufMgr_dtor_pinned_terminates (s : BufMgr) (d d' : BufDesc) :
  wf s ->
  List.find dirty (bufDescTable s) = Some d ->
  List.find (pinned_in (file d)) (bufDescTable s) = Some d' ->
  BufMgr_dtor s = Terminates (PagePinnedException (pageNo d') (frameNo d')).
Proof.
  intros Hwf Hd Hd'.
  assert (Hloop : BufMgr_destroy s
                  = Throw (PagePinnedException (pageNo d') (frameNo d'))).
  { unfold BufMgr_destroy.
    apply (destroy_first_dirty s d _ _ 0%nat); [done|by rewrite drop_0|].
    apply flushFile_pinned_throws_aux; [done| |done].
    apply List.find_some in Hd as [Hin Hdirty].
    apply list_elem_of_In, list_elem_of_lookup in Hin as [i Hi].
    eapply wf_valid_file; [done..|]. by eapply wf_dirty_valid. }
  unfold BufMgr_dtor. by rewrite Hloop.
Qed.

Lemma pool2_dirty_pinned_wf : wf pool2_dirty_pinned.
Proof.
  destruct (readPage fileA 1 pool2_A1) as [[fr s1]| |] eqn:E1;
    [|vm_compute in E1; discriminate E1..].
  destruct (readPage_wf _ _ _ _ _ pool2_A1_wf E1) as (Hwf1 & _).
  apply (unPinPage_wf s1 fileA 1 true pool2_dirty_pinned Hwf1).
  vm_compute in E1. injection E1 as _ <-. vm_compute. reflexivity.
Qed.

Lemma BufMgr_dtor_pinned_terminates_witness :
  BufMgr_dtor pool2_dirty_pinned = Terminates (PagePinnedException 1 0).
Proof.
  apply (BufMgr_dtor_pinned_terminates pool2_dirty_pinned
           (mkBufDesc fileA 1 0 1 true true true) (mkBufDesc fileA 1 0 1 true true true)).
  - exact pool2_dirty_pinned_wf.
  - vm_compute. reflexivity.
  - vm_compute. reflexivity.
Defined.

(** * The join operators: further properties *)

(** ** The tuples of one left tuple *)

Lemma forM_emit same : forall lefttuple x,
  exists x', forM emit same (lefttuple, x) = Ok (lefttuple ++ concat same, x') /\
    resultFile x' = resultFile x ++ running lefttuple same /\
    (numResultTuples (op x') = numResultTuples (op x) + Z.of_nat (length same))%Z /\
    numUsedBufPages (op x') = numUsedBufPages (op x) /\
    numIOs (op x') = numIOs (op x) /\
    isComplete (op x') = isComplete (op x) /\
    leftTableSchema (op x') = leftTableSchema (op x) /\
    rightTableSchema (op x') = rightTableSchema (op x) /\
    leftfile (op x') = leftfile (op x) /\ rightfile (op x') = rightfile (op x) /\
    mgr x' = mgr x.
Proof.
  induction same as [|temp same IH]; intros lefttuple x; simpl.
  - exists x. rewrite !app_nil_r, Z.add_0_r. by split_and!.
  - unfold insertTuple. simpl.
    match goal with
    | |- context [forM emit same (?l, ?y)] => destruct (IH l y) as (x' & Hrun & Hres & Hn & Hrest)
    end.
    exists x'. rewrite Hrun, Hres, Hn. simpl.
    rewrite <- !app_assoc. split_and!; try tauto; try done; lia.
Qed.

(** X17. When the probe of a left tuple returns, and the key of the
    tuple has the matches [same] in [hashMap], in this order, it has
    inserted one tuple per match and counted each: the first is the left
    tuple followed by the first remainder, and each of the others is the
    tuple before it followed by the next remainder. *)
Theorem probe_tuple_emits (names : list string) (m : gmap bytes (list bytes))
    (lefttuple : bytes) (x x' : Exec) (k rest : bytes) (same : list bytes) :
  handle_tuple [] names lefttuple [] (leftTableSchema (op x)) = Ok (k, rest) ->
  m !! k = Some same ->
  probe_tuple names m lefttuple x = Ok x' ->
  resultFile x' = resultFile x ++ running lefttuple same /\
  (numResultTuples (op x') = numResultTuples (op x) + Z.of_nat (length same))%Z.
Proof.
  intros Hk Hm. unfold probe_tuple. rewrite Hk. simpl. rewrite Hm.
  destruct (forM_emit same lefttuple x) as (x1 & Hrun & Hres & Hn & _).
  rewrite Hrun. simpl. intros [= <-]. by split.
Qed.

Lemma probe_tuple_emits_witness :
  resultFile (probed input_two_matches)
    = resultFile input_two_matches
      ++ running (str "KKKKLLLL") [str "1111"; str "2222"] /\
  (numResultTuples (op (probed input_two_matches))
   = numResultTuples (op input_two_matches) + Z.of_nat 2)%Z.
Proof.
  apply (probe_tuple_emits ["a"%string] {[str "KKKK" := [str "1111"; str "2222"]]}
           (str "KKKKLLLL") input_two_matches (probed input_two_matches)
           (str "KKKK") (str "LLLL") [str "1111"; str "2222"]).
  - vm_compute. reflexivity.
  - vm_compute. reflexivity.
  - vm_compute. reflexivity.
Defined.

(** ** The counters *)

Lemma counted_refl x : counted x x.
Proof.
  unfold counted. split_and!; [lia..|]. exists []. rewrite app_nil_r. split; [done|simpl; lia].
Qed.

Lemma counted_trans x0 x1 x2 : counted x0 x1 -> counted x1 x2 -> counted x0 x2.
Proof.
  intros (H1 & H1' & n1 & Hr1 & Hn1) (H2 & H2' & n2 & Hr2 & Hn2).
  unfold counted. split_and!; [lia..|].
  exists (n1 ++ n2). rewrite Hr2, Hr1, <- app_assoc, length_app. split; [done|lia].
Qed.

Lemma counted_set_mgr x m : counted x (set_mgr m x).
Proof. exact (counted_refl x). Qed.

Lemma progress_refl x : progress x x.
Proof. split; [apply counted_refl|by repeat split]. Qed.

Lemma progress_trans x0 x1 x2 : progress x0 x1 -> progress x1 x2 -> progress x0 x2.
Proof.
  intros [Hc1 (?&?&?&?&?)] [Hc2 (?&?&?&?&?)]. split; [by eapply counted_trans|].
  unfold same_tables. split_and!; congruence.
Qed.

Lemma forM_progress {A : Type} (body : A -> Exec -> Res Exec) l :
  (forall a x x', body a x = Ok x' -> progress x x') ->
  forall x x', forM body l x = Ok x' -> progress x x'.
Proof.
  intros Hb. induction l as [|a l IH]; intros x x' H; simpl in H.
  - injection H as <-. apply progress_refl.
  - destruct (body a x) as [x1| |] eqn:Ha; simpl in H; [|done..].
    eapply progress_trans; [by eapply Hb|by apply IH].
Qed.

Lemma probe_tuple_progress names m lefttuple x x' :
  probe_tuple names m lefttuple x = Ok x' -> progress x x' /\ mgr x' = mgr x.
Proof.
  unfold probe_tuple. intros H.
  destruct (handle_tuple _ _ _ _ _) as [[k rest]| |]; simpl in H; [|done..].
  destruct (m !! k) as [same|]; [|injection H as <-; split; [apply progress_refl|done]].
  destruct (forM_emit same lefttuple x)
    as (x1 & Hrun & Hres & Hn & Hu & Hio & Hc & Hl & Hr & Hlf & Hrf & Hm).
  rewrite Hrun in H. simpl in H. injection H as <-.
  split; [|done]. split; [|by repeat split].
  unfold counted. split_and!; [lia..|].
  exists (running lefttuple same). split; [done|].
  rewrite Hn. clear. revert lefttuple.
  induction same as [|t same IH]; intros l; simpl; [lia|].
  specialize (IH (l ++ t)). lia.
Qed.

Lemma progress_bump x m :
  progress x (mkExec (bump_io (op x)) m (resultFile x)).
Proof.
  split; [|by repeat split]. unfold counted. simpl. split_and!; [lia..|].
  exists []. rewrite app_nil_r. split; [done|simpl; lia].
Qed.

Lemma progress_set_mgr x m : progress x (set_mgr m x).
Proof. exact (progress_refl x). Qed.

Lemma probe_page_progress names m pg x x' :
  probe_page names m pg x = Ok x' -> progress x x'.
Proof.
  unfold probe_page. intros H.
  destruct (readPage _ _ _) as [[frame m1]| |]; simpl in H; [|done..].
  destruct (page_at m1 frame) as [p| |]; simpl in H; [|done..].
  destruct (forM _ _ _) as [x2| |] eqn:Hloop; simpl in H; [|done..].
  destruct (unPinPage _ _ _ _) as [m2| |]; simpl in H; [|done..].
  injection H as <-.
  eapply progress_trans; [apply (progress_bump x m1)|].
  eapply progress_trans; [|apply progress_set_mgr].
  eapply forM_progress; [|exact Hloop].
  intros a y y' Hy. by destruct (probe_tuple_progress _ _ _ _ _ Hy).
Qed.

Lemma build_progress numAvail names pages : forall st st',
  build numAvail names pages st = Ok st' -> progress st.1 st'.1.
Proof.
  induction pages as [|pg rest IH]; intros [x lp] st' H; simpl in H.
  - injection H as <-. apply progress_refl.
  - destruct (int_pred numAvail <=? read_page_num lp)%Z;
      [injection H as <-; apply progress_refl|].
    destruct (negb _); [by apply IH in H|].
    destruct (readPage _ _ _) as [[frame m1]| |]; simpl in H; [|done..].
    destruct (page_at m1 frame) as [p| |]; simpl in H; [|done..].
    destruct (forM _ _ _) as [hm| |]; simpl in H; [|done..].
    apply IH in H. simpl in H.
    eapply progress_trans; [apply (progress_bump x m1)|exact H].
Qed.

Lemma unpin_right_progress pg x x' : unpin_right pg x = Ok x' -> progress x x'.
Proof.
  unfold unpin_right. intros H.
  destruct (unPinPage _ _ _ _) as [m| |]; simpl in H; [|done..].
  injection H as <-. apply progress_set_mgr.
Qed.

Lemma macro_pass_progress numAvail names st st' :
  macro_pass numAvail names st = Ok st' -> progress st.1 st'.1.
Proof.
  unfold macro_pass. intros H.
  destruct (file_pages _ _) as [rp| |]; simpl in H; [|done..].
  destruct (build _ _ _ _) as [[x1 lp1]| |] eqn:Hb; simpl in H; [|done..].
  destruct (file_pages _ x1) as [lpg| |]; simpl in H; [|done..].
  destruct (forM _ lpg x1) as [x2| |] eqn:Hp; simpl in H; [|done..].
  destruct (forM unpin_right _ x2) as [x3| |] eqn:Hu; simpl in H; [|done..].
  destruct (flushFile _ _) as [m4| |]; simpl in H; [|done..].
  injection H as <-. simpl.
  eapply progress_trans; [exact (build_progress _ _ _ _ _ Hb)|]. simpl.
  eapply progress_trans; [eapply forM_progress; [|exact Hp]|].
  { intros a y y'. apply probe_page_progress. }
  eapply progress_trans; [eapply forM_progress; [|exact Hu]|].
  { intros a y y'. apply unpin_right_progress. }
  apply progress_set_mgr.
Qed.

Lemma macro_passes_progress fuel : forall numAvail names sum st st',
  macro_passes fuel numAvail names sum st = Some (Ok st') -> progress st.1 st'.1.
Proof.
  induction fuel as [|fuel IH]; intros numAvail names sum st st' H; simpl in H;
    destruct (usedPageNum st.2 <? sum)%Z; try done;
    try (injection H as <-; apply progress_refl).
  destruct (macro_pass numAvail names st) as [st1| |] eqn:Hp; [|done..].
  eapply progress_trans; [exact (macro_pass_progress _ _ _ _ Hp)|by eapply IH].
Qed.

(** X18. When a first call of [NestedLoopJoinOperator::execute] returns,
    [numUsedBufPages] equals [numIOs], the result file is the one passed
    in with new records at its end, and [numResultTuples] is the number
    of those new records. *)
Theorem execute_counters (fuel : nat) (numAvailableBufPages : Z) (x x' : Exec)
    (b : bool) :
  isComplete (op x) = false ->
  NestedLoopJoin_execute fuel numAvailableBufPages x = Some (Ok (b, x')) ->
  numUsedBufPages (op x') = numIOs (op x') /\
  (0 <= numIOs (op x'))%Z /\
  exists new, resultFile x' = resultFile x ++ new /\
              numResultTuples (op x') = Z.of_nat (length new).
Proof.
  intros Hc H. unfold NestedLoopJoin_execute in H. rewrite Hc in H.
  destruct (file_pages _ _) as [rp| |]; [|done..].
  destruct (file_pages _ _) as [lp| |]; [|done..].
  destruct (macro_passes _ _ _ _ _) as [[[x1 lp1]| |]|] eqn:Hm; [|done..].
  injection H as <- <-.
  apply macro_passes_progress in Hm as [(Hio & Hpos & new & Hres & Hn) _].
  simpl in *. split_and!; [lia..|]. exists new. split; [done|lia].
Qed.

Lemma execute_counters_witness :
  numUsedBufPages (op (completed input_two_matches))
    = numIOs (op (completed input_two_matches)) /\
  (0 <= numIOs (op (completed input_two_matches)))%Z /\
  exists new, resultFile (completed input_two_matches)
                = resultFile input_two_matches ++ new /\
              numResultTuples (op (completed input_two_matches)) = Z.of_nat (length new).
Proof.
  apply (execute_counters 1 2 input_two_matches (completed input_two_matches) true).
  - reflexivity.
  - vm_compute. reflexivity.
Defined.

(** X19. With an empty right relation a first call of
    [NestedLoopJoinOperator::execute] returns at once, whatever the
    budget and the left relation: the operator is complete with its three
    counters at 0, no page is fetched and nothing is inserted. *)
Theorem execute_empty_right (fuel : nat) (numAvailableBufPages : Z) (x : Exec)
    (lpages : list Page) :
  isComplete (op x) = false ->
  files (mgr x) !! rightfile (op x) = Some [] ->
  files (mgr x) !! leftfile (op x) = Some lpages ->
  NestedLoopJoin_execute fuel numAvailableBufPages x
    = Some (Ok (true, set_op (with_counters true 0 0 0 (op x)) x)).
Proof.
  intros Hc Hr Hl. unfold NestedLoopJoin_execute, file_pages. rewrite Hc. simpl.
  rewrite Hr, Hl. simpl. by destruct fuel.
Qed.

Lemma execute_empty_right_witness :
  NestedLoopJoin_execute 0 2 input_empty_right
    = Some (Ok (true, set_op (with_counters true 0 0 0 (op input_empty_right))
                         input_empty_right)).
Proof.
  apply (execute_empty_right 0 2 input_empty_right [mkPage 1 [str "KKKKLLLL"]]).
  - reflexivity.
  - vm_compute. reflexivity.
  - vm_compute. reflexivity.
Defined.

(** ** Common attributes and the result schema *)

Lemma count_nonzero {A : Type} `{EqDecision A} (l : list A) (n : A) :
  negb (Nat.eqb (count l n) 0) = bool_decide (n ∈ l).
Proof.
  unfold count. induction l as [|y l IH]; simpl.
  - done.
  - destruct (decide (y = n)) as [->|Hne].
    + rewrite bool_decide_eq_true_2 by done. simpl.
      by rewrite bool_decide_eq_true_2 by (apply elem_of_cons; by left).
    + rewrite (bool_decide_eq_false_2 (y = n)) by done. rewrite IH.
      apply bool_decide_ext. rewrite elem_of_cons.
      split; [by right|]. intros [?|?]; [congruence|done].
Qed.

Lemma attribute_eta r :
  mkAttribute (attrName r) (attrType r) (attrMaxSize r) (isNotNull r) (isUnique r) = r.
Proof. by destruct r. Qed.

Lemma same_attr_name a r : same_attr a r = true -> attrName a = attrName r.
Proof.
  unfold same_attr. intros [_ Hs]%andb_prop. by apply bool_decide_eq_true in Hs.
Qed.

Lemma common_of_left (l : list Attribute) r :
  NoDup (attrName <$> l) ->
  flat_map (fun a => if same_attr a r
                     then [mkAttribute (attrName r) (attrType r) (attrMaxSize r)
                                       (isNotNull r) (isUnique r)]
                     else []) l
  = if existsb (fun a => same_attr a r) l then [r] else [].
Proof.
  induction l as [|a l IH]; intros Hnd; simpl; [done|].
  apply NoDup_cons in Hnd as [Hnotin Hnd]. rewrite IH by done.
  destruct (same_attr a r) eqn:Hs; simpl; [|done].
  rewrite attribute_eta.
  assert (Hno : existsb (fun a0 => same_attr a0 r) l = false).
  { apply not_true_is_false. intros (b & Hb & Hs')%existsb_exists.
    apply Hnotin. apply list_elem_of_fmap. exists b. split.
    - apply same_attr_name in Hs, Hs'. congruence.
    - by apply list_elem_of_In. }
  by rewrite Hno.
Qed.

Lemma getCommonAttributes_filter (leftSchema rightSchema : TableSchema) :
  NoDup (attrname leftSchema) ->
  getCommonAttributes leftSchema rightSchema
    = List.filter (has_same leftSchema) (attrs rightSchema).
Proof.
  intros Hnd. unfold getCommonAttributes, attrname in *.
  induction (attrs rightSchema) as [|r rs IH]; simpl; [done|].
  rewrite common_of_left, IH by done. unfold has_same at 2.
  by destruct (existsb _ _).
Qed.

Lemma sameName_filter (leftSchema rightSchema : TableSchema) :
  (forall l r, l ∈ attrs leftSchema -> r ∈ attrs rightSchema ->
               attrName l = attrName r -> attrType l = attrType r) ->
  sameName leftSchema rightSchema
    = attrName <$> List.filter (has_same leftSchema) (attrs rightSchema).
Proof.
  intros Hty. unfold sameName, attrname in *.
  induction (attrs rightSchema) as [|r rs IH]; simpl; [done|].
  assert (IH' := IH (fun l r Hl Hr => Hty l r Hl (proj2 (elem_of_cons _ _ _) (or_intror Hr)))).
  clear IH. rewrite count_nonzero. unfold has_same at 1.
  assert (E : bool_decide (attrName r ∈ attrName <$> attrs leftSchema)
              = existsb (fun a => same_attr a r) (attrs leftSchema)).
  { apply eq_true_iff_eq. rewrite bool_decide_eq_true, existsb_exists. split.
    - intros (a & Ha & Hin)%list_elem_of_fmap. exists a. split; [by apply list_elem_of_In|].
      unfold same_attr.
      rewrite (bool_decide_eq_true_2 (attrName a = attrName r)) by done.
      rewrite (bool_decide_eq_true_2 (attrType a = attrType r)); [done|].
      apply Hty; [done|by left|done].
    - intros (a & Hin & Hs). apply list_elem_of_fmap. exists a.
      split; [|by apply list_elem_of_In]. by apply same_attr_name in Hs. }
  rewrite E. destruct (existsb _ _); simpl; [f_equal|]; exact IH'.
Qed.

(** X20. When the left schema has no two attributes of one name and no
    right attribute shares its name with a left attribute of another
    type, the join columns of [execute] ([sameName]) are the names of
    [getCommonAttributes], in the same order. *)
Theorem sameName_getCommonAttributes (leftSchema rightSchema : TableSchema) :
  NoDup (attrname leftSchema) ->
  (forall l r, l ∈ attrs leftSchema -> r ∈ attrs rightSchema ->
               attrName l = attrName r -> attrType l = attrType r) ->
  sameName leftSchema rightSchema
    = attrName <$> getCommonAttributes leftSchema rightSchema.
Proof.
  intros Hnd Hty. by rewrite getCommonAttributes_filter, sameName_filter.
Qed.

Lemma sameName_getCommonAttributes_witness :
  sameName schemaL schemaR = attrName <$> getCommonAttributes schemaL schemaR.
Proof.
  apply (sameName_getCommonAttributes schemaL schemaR).
  - apply (bool_decide_unpack _). vm_compute. exact I.
  - intros l r Hl Hr. vm_compute in Hl, Hr.
    repeat (apply elem_of_cons in Hl as [->|Hl]);
      repeat (apply elem_of_cons in Hr as [->|Hr]);
      try (by apply elem_of_nil in Hl); try (by apply elem_of_nil in Hr);
      simpl; intros; congruence.
Defined.

(** X21. Every attribute that is common by name and type is a join column
    of [execute]: the names of [getCommonAttributes] are all in
    [sameName]. *)
Theorem getCommonAttributes_in_sameName (leftSchema rightSchema : TableSchema)
    (a : Attribute) :
  a ∈ getCommonAttributes leftSchema rightSchema ->
  attrName a ∈ sameName leftSchema rightSchema.
Proof.
  unfold getCommonAttributes, sameName. rewrite !list_elem_of_In.
  intros (r & Hr & Ha)%in_flat_map. apply in_flat_map in Ha as (l & Hl & Ha).
  destruct (same_attr l r) eqn:Hs; [|done]. destruct Ha as [<-|[]]. simpl.
  apply filter_In. split.
  - apply list_elem_of_In, list_elem_of_fmap. exists r. by rewrite list_elem_of_In.
  - rewrite count_nonzero. apply bool_decide_eq_true.
    unfold attrname. apply list_elem_of_fmap. exists l. split; [|by apply list_elem_of_In].
    apply same_attr_name in Hs. congruence.
Qed.

Lemma getCommonAttributes_in_sameName_witness :
  "a"%string ∈ sameName schemaL schemaR.
Proof.
  apply (getCommonAttributes_in_sameName schemaL schemaR
           (mkAttribute "a" INT 4 true false)).
  vm_compute. left.
Defined.

Lemma filter_partition {A : Type} (p : A -> bool) (l : list A) :
  List.filter (fun a => negb (p a)) l ++ List.filter p l ≡ₚ l.
Proof.
  induction l as [|a l IH]; simpl; [done|].
  destruct (p a); simpl.
  - rewrite <- Permutation_middle. by constructor.
  - by constructor.
Qed.

(** X22. When the left schema has no two attributes of one name, the
    attributes of [createResultTableSchema] together with those of
    [getCommonAttributes] are the left attributes and the right
    attributes, each once: the result schema starts with the left schema
    and no right attribute is lost or repeated. *)
Theorem createResultTableSchema_partition (leftSchema rightSchema : TableSchema) :
  NoDup (attrname leftSchema) ->
  take (length (attrs leftSchema)) (attrs (createResultTableSchema leftSchema rightSchema))
    = attrs leftSchema /\
  attrs (createResultTableSchema leftSchema rightSchema)
    ++ getCommonAttributes leftSchema rightSchema
  ≡ₚ attrs leftSchema ++ attrs rightSchema.
Proof.
  intros Hnd. rewrite getCommonAttributes_filter by done.
  unfold createResultTableSchema. simpl. split.
  - by rewrite take_app_length.
  - rewrite <- app_assoc. apply Permutation_app_head.
    apply (filter_partition (has_same leftSchema)).
Qed.

Lemma createResultTableSchema_partition_witness :
  take (length (attrs schemaL)) (attrs (createResultTableSchema schemaL schemaR))
    = attrs schemaL /\
  attrs (createResultTableSchema schemaL schemaR) ++ getCommonAttributes schemaL schemaR
  ≡ₚ attrs schemaL ++ attrs schemaR.
Proof.
  apply (createResultTableSchema_partition schemaL schemaR).
  apply (bool_decide_unpack _). vm_compute. exact I.
Defined.

(** * The pages of the files *)

(** ** The buffer manager *)

Lemma same_pages_refl s : same_pages s s.
Proof. by intros f. Qed.

Lemma same_pages_trans s0 s1 s2 :
  same_pages s0 s1 -> same_pages s1 s2 -> same_pages s0 s2.
Proof. intros H1 H2 f. by rewrite H2, H1. Qed.

Lemma same_pages_files s s' : files s' = files s -> same_pages s s'.
Proof. intros E f. unfold page_numbers. by rewrite E. Qed.

Lemma File_writePage_same_pages f p s s' :
  File_writePage f p s = Ok s' -> same_pages s s'.
Proof.
  unfold File_writePage. intros H.
  destruct (files s !! f) as [ps|] eqn:Hf; [|done].
  destruct (find_page _ _); [|done]. injection H as <-.
  intros g. unfold page_numbers. simpl.
  destruct (decide (g = f)) as [->|Hne].
  - rewrite lookup_insert_eq, Hf. f_equal. clear Hf.
    induction ps as [|q ps IH]; simpl; [done|]. f_equal; [|exact IH].
    destruct (page_number q =? page_number p) eqn:E; [|done].
    apply N.eqb_eq in E. by rewrite E.
  - by rewrite lookup_insert_ne.
Qed.

Lemma allocBuf_loop_same_pages fuel : forall pinned s frame s',
  allocBuf_loop fuel pinned s = Some (Ok (frame, s')) -> same_pages s s'.
Proof.
  induction fuel as [|fuel IH]; intros pinned s frame s' H; simpl in H; [done|].
  unfold advanceClock in H. destruct (numBufs s =? 0); [done|].
  set (s1 := set_clockHand _ s) in *.
  assert (H1 : same_pages s s1) by by apply same_pages_files.
  destruct (pinned =? numBufs s1); [done|].
  destruct (bufDescTable s1 !! _) as [d|]; [|done].
  destruct (negb (valid d)).
  { injection H as <- <-. by apply same_pages_files. }
  destruct (refbit d) eqn:Hr.
  { apply IH in H. eapply same_pages_trans; [|exact H]. by apply same_pages_files. }
  destruct (0 <? pinCnt d).
  { apply IH in H. by eapply same_pages_trans. }
  simpl in H. destruct (dirty d).
  - destruct (page_at s1 _) as [p| |]; simpl in H; [|done..].
    destruct (File_writePage _ _ _) as [s2| |] eqn:Hw; simpl in H; [|done..].
    injection H as <- <-. apply File_writePage_same_pages in Hw.
    eapply same_pages_trans; [exact H1|]. eapply same_pages_trans; [exact Hw|].
    by apply same_pages_files.
  - simpl in H. injection H as <- <-. by apply same_pages_files.
Qed.

Lemma allocBuf_same_pages s frame s' :
  allocBuf s = Ok (frame, s') -> same_pages s s'.
Proof.
  unfold allocBuf. destruct (allocBuf_loop _ _ _) as [r|] eqn:H; [|done].
  intros ->. by eapply allocBuf_loop_same_pages.
Qed.

Lemma readPage_same_pages f n s frame s' :
  readPage f n s = Ok (frame, s') -> same_pages s s'.
Proof.
  unfold readPage. intros H. destruct (hashTable s !! (f, n)) as [fr|].
  - destruct (desc_at s fr) as [d| |]; simpl in H; [|done..].
    injection H as <- <-. by apply same_pages_files.
  - destruct (allocBuf s) as [[fr s1]| |] eqn:Ha; simpl in H; [|done..].
    destruct (File_readPage f n s1) as [p| |]; simpl in H; [|done..].
    destruct (desc_at _ fr) as [d| |]; simpl in H; [|done..].
    injection H as <- <-. apply allocBuf_same_pages in Ha.
    eapply same_pages_trans; [exact Ha|]. by apply same_pages_files.
Qed.

Lemma unPinPage_files f n b s s' : unPinPage f n b s = Ok s' -> files s' = files s.
Proof.
  unfold unPinPage. intros H. destruct (hashTable s !! (f, n)) as [fr|].
  - destruct (desc_at s fr) as [d| |]; simpl in H; [|done..].
    destruct (0 <? pinCnt d); [|done]. by injection H as <-.
  - by injection H as <-.
Qed.

Lemma flushFile_frame_same_pages f i s s' :
  flushFile_frame f i s = Ok s' -> same_pages s s'.
Proof.
  unfold flushFile_frame. intros H.
  destruct (desc_at s _) as [d| |]; simpl in H; [|done..].
  destruct (file d =? f); [|injection H as <-; apply same_pages_refl].
  destruct (negb (pinCnt d =? 0)); [done|]. destruct (negb (valid d)); [done|].
  destruct (page_at s _) as [p| |]; simpl in H; [|done..].
  destruct (dirty d).
  - destruct (File_writePage _ _ _) as [s1| |] eqn:Hw; simpl in H; [|done..].
    destruct (desc_at _ _) as [d'| |]; simpl in H; [|done..].
    injection H as <-. apply File_writePage_same_pages in Hw.
    eapply same_pages_trans; [exact Hw|]. by apply same_pages_files.
  - simpl in H. destruct (desc_at _ _) as [d'| |]; simpl in H; [|done..].
    injection H as <-. by apply same_pages_files.
Qed.

Lemma flushFile_same_pages f s s' : flushFile f s = Ok s' -> same_pages s s'.
Proof.
  unfold flushFile. apply (forM_inv (same_pages s)); [|apply same_pages_refl].
  intros i t t' _ Ht Hb. eapply same_pages_trans; [exact Ht|].
  by eapply flushFile_frame_same_pages.
Qed.

(** X23. Fetching, unpinning, flushing and frame allocation never add a
    page to a file, remove one or change the order or the numbers of its
    pages, also when a dirty page is written back on the way. *)
Theorem pool_keeps_page_numbers :
  (forall f n s frame s', readPage f n s = Ok (frame, s') -> same_pages s s') /\
  (forall f n b s s', unPinPage f n b s = Ok s' -> same_pages s s') /\
  (forall f s s', flushFile f s = Ok s' -> same_pages s s') /\
  (forall s frame s', allocBuf s = Ok (frame, s') -> same_pages s s').
Proof.
  split_and!.
  - apply readPage_same_pages.
  - intros f n b s s' H. by apply same_pages_files, (unPinPage_files f n b).
  - apply flushFile_same_pages.
  - apply allocBuf_same_pages.
Qed.

(** ** Termination of the nested-loop join *)

Lemma probe_page_same_pages names m pg x x' :
  probe_page names m pg x = Ok x' -> same_pages (mgr x) (mgr x').
Proof.
  unfold probe_page. intros H.
  destruct (readPage _ _ _) as [[frame m1]| |] eqn:Hr; simpl in H; [|done..].
  destruct (page_at m1 frame) as [p| |]; simpl in H; [|done..].
  destruct (forM _ _ _) as [x2| |] eqn:Hloop; simpl in H; [|done..].
  destruct (unPinPage _ _ _ _) as [m2| |] eqn:Hu; simpl in H; [|done..].
  injection H as <-. simpl.
  apply readPage_same_pages in Hr. apply unPinPage_files in Hu.
  assert (Hm : mgr x2 = m1).
  { revert Hloop. apply (forM_inv (fun y => mgr y = m1)); [|done].
    intros a y y' _ Hy Hb. apply probe_tuple_progress in Hb as [_ Hb]. congruence. }
  eapply same_pages_trans; [exact Hr|]. apply same_pages_files. congruence.
Qed.

Lemma unpin_right_same_pages pg x x' :
  unpin_right pg x = Ok x' -> same_pages (mgr x) (mgr x').
Proof.
  unfold unpin_right. intros H.
  destruct (unPinPage _ _ _ _) as [m| |] eqn:Hu; simpl in H; [|done..].
  injection H as <-. simpl. apply unPinPage_files in Hu. by apply same_pages_files.
Qed.

(** What the build loop does to the locals: every page it reads is a new
    entry of [usedPage], and it reads one when the budget allows it and
    a page of the file is not in [usedPage] yet. *)
Lemma build_reads numAvail names pages : forall x lp x1 lp1,
  build numAvail names pages (x, lp) = Ok (x1, lp1) ->
  same_pages (mgr x) (mgr x1) /\
  usedPageNum lp1 = usedPageNum lp /\
  (read_page_num lp1 - read_page_num lp
   = Z.of_nat (length (usedPage lp1)) - Z.of_nat (length (usedPage lp)))%Z /\
  (read_page_num lp <= read_page_num lp1)%Z /\
  ((read_page_num lp < int_pred numAvail)%Z ->
   (exists pg, pg ∈ pages /\ page_number pg ∉ usedPage lp) ->
   (read_page_num lp < read_page_num lp1)%Z).
Proof.
  induction pages as [|pg rest IH]; intros x lp x1 lp1 H; simpl in H.
  - injection H as <- <-. split_and!; [apply same_pages_refl|done|lia|lia|].
    intros _ (pg & Hin & _). by apply elem_of_nil in Hin.
  - destruct (int_pred numAvail <=? read_page_num lp)%Z eqn:Hb.
    { injection H as <- <-. apply Z.leb_le in Hb.
      split_and!; [apply same_pages_refl|done|lia|lia|lia]. }
    apply Z.leb_gt in Hb. rewrite count_nonzero in H.
    destruct (decide (page_number pg ∈ usedPage lp)) as [Hin|Hin].
    + rewrite bool_decide_eq_true_2 in H by done.
      apply IH in H as (H1 & H2 & H3 & H4 & H5). split_and!; try done.
      intros Hlt (pg' & Hpg' & Hnew). apply H5; [done|]. exists pg'. split; [|done].
      apply elem_of_cons in Hpg' as [->|Hpg']; [done|done].
    + rewrite bool_decide_eq_false_2 in H by done.
      destruct (readPage _ _ _) as [[frame m1]| |] eqn:Hr; simpl in H; [|done..].
      destruct (page_at m1 frame) as [p| |]; simpl in H; [|done..].
      destruct (forM _ _ _) as [hm| |]; simpl in H; [|done..].
      apply IH in H as (H1 & H2 & H3 & H4 & _). simpl in *.
      rewrite length_app in H3. simpl in H3. apply readPage_same_pages in Hr.
      split_and!; [by eapply same_pages_trans|done|lia|lia|lia].
Qed.

Lemma unused_page (rnums used : list PageId) :
  NoDup rnums -> (length used < length rnums)%nat ->
  exists n, n ∈ rnums /\ n ∉ used.
Proof.
  intros Hnd Hlen.
  destruct (decide (Exists (fun n => n ∉ used) rnums)) as [He|He].
  - apply Exists_exists in He as (n & Hin & Hn). by exists n.
  - exfalso. apply not_Exists_Forall in He; [|intros n; apply _].
    assert (Hsub : rnums ⊆+ used).
    { apply NoDup_submseteq; [done|]. intros n Hn.
      rewrite Forall_forall in He. specialize (He n Hn). simpl in He.
      by destruct (decide (n ∈ used)). }
    apply submseteq_length in Hsub. lia.
Qed.

Lemma macro_pass_advances numAvail names rnums st st' :
  (2 <= numAvail)%Z -> NoDup rnums -> pass_start rnums st ->
  (usedPageNum st.2 < Z.of_nat (length rnums))%Z ->
  macro_pass numAvail names st = Ok st' ->
  pass_start rnums st' /\ (length (usedPage st.2) < length (usedPage st'.2))%nat.
Proof.
  intros Hn Hnd (Hpages & Hread & Hused) Hlt H.
  assert (Hprog := macro_pass_progress _ _ _ _ H).
  destruct st as [x lp]. unfold macro_pass in H. cbn [fst snd] in *.
  unfold page_numbers in Hpages.
  destruct (files (mgr x) !! rightfile (op x)) as [rp|] eqn:Hrp; [|done].
  injection Hpages as Hpages.
  assert (Hfp : file_pages (rightfile (op x)) x = Ok rp)
    by (unfold file_pages; by rewrite Hrp).
  rewrite Hfp in H. simpl in H.
  destruct (build _ _ _ _) as [[x1 lp1]| |] eqn:Hb; simpl in H; [|done..].
  destruct (file_pages _ x1) as [lpg| |]; simpl in H; [|done..].
  destruct (forM _ lpg x1) as [x2| |] eqn:Hp; simpl in H; [|done..].
  destruct (forM unpin_right _ x2) as [x3| |] eqn:Hu; simpl in H; [|done..].
  destruct (flushFile _ _) as [m4| |] eqn:Hf; simpl in H; [|done..].
  injection H as <-. simpl in *.
  apply build_reads in Hb as (S1 & B2 & B3 & B4 & B5).
  assert (S2 : same_pages (mgr x1) (mgr x2)).
  { revert Hp. apply (forM_inv (fun y => same_pages (mgr x1) (mgr y)));
      [|apply same_pages_refl].
    intros a y y' _ Hy Hbody. eapply same_pages_trans; [exact Hy|].
    by eapply probe_page_same_pages. }
  assert (S3 : same_pages (mgr x2) (mgr x3)).
  { revert Hu. apply (forM_inv (fun y => same_pages (mgr x2) (mgr y)));
      [|apply same_pages_refl].
    intros a y y' _ Hy Hbody. eapply same_pages_trans; [exact Hy|].
    by eapply unpin_right_same_pages. }
  apply flushFile_same_pages in Hf.
  assert (Hlt' : (read_page_num lp < read_page_num lp1)%Z).
  { apply B5; [rewrite int_pred_small by (unfold INT_MIN; lia); lia|].
    destruct (unused_page rnums (usedPage lp) Hnd) as (n & Hin & Hnew); [lia|].
    rewrite <- Hpages in Hin. apply list_elem_of_fmap in Hin as (pg & -> & Hpg).
    by exists pg. }
  split; [|lia]. unfold pass_start. simpl. split_and!; [|done|lia].
  destruct Hprog as [_ (_ & _ & _ & Hrf & _)]. simpl in Hrf. rewrite Hrf.
  rewrite Hf, S3, S2, S1. unfold page_numbers. by rewrite Hrp, Hpages.
Qed.

Lemma macro_passes_terminates fuel : forall numAvail names rnums st,
  (2 <= numAvail)%Z -> NoDup rnums -> pass_start rnums st ->
  (length rnums - length (usedPage st.2) <= fuel)%nat ->
  exists r, macro_passes fuel numAvail names (Z.of_nat (length rnums)) st = Some r.
Proof.
  induction fuel as [|fuel IH]; intros numAvail names rnums st Hn Hnd Hst Hfuel;
    simpl; destruct (usedPageNum st.2 <? Z.of_nat (length rnums))%Z eqn:Hlt;
    try (by eexists).
  - apply Z.ltb_lt in Hlt. destruct Hst as (_ & _ & Hused). lia.
  - apply Z.ltb_lt in Hlt.
    destruct (macro_pass numAvail names st) as [st'| |] eqn:Hp; try (by eexists).
    destruct (macro_pass_advances _ _ _ _ _ Hn Hnd Hst Hlt Hp) as [Hst' Hlen].
    apply IH; [done..|lia].
Qed.

(** X24. With a budget of at least two pages and a right file whose
    pages have distinct numbers, [NestedLoopJoinOperator::execute] comes
    to an end, by returning or by throwing, after at most as many
    macro-passes as the right file has pages: each macro-pass that
    completes reads a page it had not read before. ([insertTuple] is the
    model above, which leaves the files alone.) *)
Theorem NestedLoopJoin_execute_terminates (fuel : nat) (numAvailableBufPages : Z)
    (x : Exec) (rpages : list Page) :
  (2 <= numAvailableBufPages)%Z ->
  files (mgr x) !! rightfile (op x) = Some rpages ->
  NoDup (page_number <$> rpages) ->
  (length rpages <= fuel)%nat ->
  exists r, NestedLoopJoin_execute fuel numAvailableBufPages x = Some r.
Proof.
  intros Hn Hr Hnd Hfuel. unfold NestedLoopJoin_execute.
  destruct (isComplete (op x)); [by eexists|].
  unfold file_pages. simpl. rewrite Hr.
  destruct (files (mgr x) !! leftfile (op x)); [|by eexists].
  destruct (macro_passes_terminates fuel numAvailableBufPages
              (sameName (leftTableSchema (op x)) (rightTableSchema (op x)))
              (page_number <$> rpages)
              (set_op (with_counters false 0 0 0 (op x)) x, mkPass [] [] ∅ 0 0))
    as [r Hm]; [done|done| |simpl; rewrite length_fmap; lia|].
  - unfold pass_start, page_numbers. simpl. by rewrite Hr.
  - rewrite length_fmap in Hm. rewrite Hm.
    destruct r as [[x1 lp1]| |]; by eexists.
Qed.

Lemma NestedLoopJoin_execute_terminates_witness :
  exists r, NestedLoopJoin_execute 2 2 input_two_passes = Some r.
Proof.
  apply (NestedLoopJoin_execute_terminates 2 2 input_two_passes
           [mkPage 1 [str "KKKK1111"]; mkPage 2 [str "KKKK2222"]]).
  - lia.
  - vm_compute. reflexivity.
  - apply (bool_decide_unpack _). vm_compute. exact I.
  - simpl. lia.
Defined.

(** * Tuples *)

(** ** [joinTuples] *)

Lemma align_0 n : (0 <= n)%Z -> (n mod 4 = 0)%Z -> align n = 0%Z.
Proof.
  intros Hn Hm. unfold align. rewrite (Z.rem_mod_nonneg n 4) by lia.
  by rewrite Hm.
Qed.

Lemma substr_middle (pre v post : bytes) :
  substr (pre ++ v ++ post) (Z.of_nat (length pre)) (Z.of_nat (length v)) = Ok v.
Proof.
  unfold substr.
  destruct (Z.ltb_spec (Z.of_nat (length pre)) 0); [lia|].
  destruct (Z.ltb_spec (Z.of_nat (length (pre ++ v ++ post))) (Z.of_nat (length pre))).
  { rewrite length_app in *. lia. }
  destruct (Z.ltb_spec (Z.of_nat (length v)) 0); [lia|]. simpl.
  by rewrite !Nat2Z.id, drop_app_length, take_app_length.
Qed.

Lemma join_attr_fits (rightTuple : bytes) (L : TableSchema) (c : Attribute * bytes)
    (pre post result : bytes) :
  fits c -> rightTuple = pre ++ c.2 ++ post ->
  join_attr rightTuple L c.1 (Z.of_nat (length pre), result)
  = Ok (Z.of_nat (length (pre ++ c.2)),
        if has_same L c.1 then result else result ++ c.2).
Proof.
  destruct c as [a v]. simpl. intros [Ha Hlen] ->. simpl in *.
  unfold join_attr, width in *. rewrite length_app, Nat2Z.inj_add.
  destruct Ha as [Ha|(Ha & Hpos & Hmod)]; rewrite Ha in *.
  - rewrite <- Hlen, substr_middle. by destruct (has_same L a).
  - rewrite <- Hlen in *. rewrite substr_middle, align_0 by done. simpl.
    rewrite Z.add_0_r. destruct (has_same L a); simpl; by rewrite app_nil_r.
Qed.

Lemma forM_join_attr_fits (rightTuple : bytes) (L : TableSchema) :
  forall (cols : list (Attribute * bytes)) (pre result : bytes),
    Forall fits cols -> rightTuple = pre ++ concat cols.*2 ->
    forM (join_attr rightTuple L) cols.*1 (Z.of_nat (length pre), result)
    = Ok (Z.of_nat (length rightTuple), result ++ concat (kept L cols).*2).
Proof.
  induction cols as [|c cols IH]; intros pre result Hfits Htup.
  - simpl in *. rewrite app_nil_r in *. by subst.
  - apply Forall_cons in Hfits as [Hc Hfits]. simpl in Htup.
    change (forM (join_attr rightTuple L) (c :: cols).*1 (Z.of_nat (length pre), result))
      with (st ← join_attr rightTuple L c.1 (Z.of_nat (length pre), result);
            forM (join_attr rightTuple L) cols.*1 st).
    rewrite (join_attr_fits rightTuple L c pre (concat cols.*2) result Hc Htup).
    simpl. rewrite IH; [|done|by rewrite <- app_assoc].
    destruct (has_same L c.1); simpl; [done|]. by rewrite <- app_assoc.
Qed.

(** X25. For a right tuple whose fields have no padding and no length
    byte (INT, or CHAR(n) with n a multiple of 4), [joinTuples] returns
    the left tuple followed by the fields of the right attributes that
    have no left attribute of their type and name, in schema order: one
    field for each right attribute of [createResultTableSchema]. *)
Theorem joinTuples_aligned (leftTuple : bytes) (leftSchema rightSchema : TableSchema)
    (cols : list (Attribute * bytes)) :
  attrs rightSchema = cols.*1 ->
  Forall fits cols ->
  joinTuples leftTuple (concat cols.*2) leftSchema rightSchema
    = Ok (leftTuple ++ concat (kept leftSchema cols).*2) /\
  attrs (createResultTableSchema leftSchema rightSchema)
    = attrs leftSchema ++ (kept leftSchema cols).*1.
Proof.
  intros Hattrs Hfits. split.
  - unfold joinTuples. rewrite Hattrs.
    rewrite (forM_join_attr_fits (concat cols.*2) leftSchema cols [] leftTuple);
      done.
  - unfold createResultTableSchema, kept. simpl. rewrite Hattrs. f_equal.
    clear. induction cols as [|c cols IH]; simpl; [done|].
    unfold has_same at 1. destruct (negb _); simpl; [f_equal|]; exact IH.
Qed.

Lemma joinTuples_aligned_witness :
  joinTuples (str "KKKKLLLL")
      (concat [(mkAttribute "a" INT 4 true false, str "KKKK");
               (mkAttribute "c" INT 4 true false, str "1111")].*2)
      schemaL schemaR
    = Ok (str "KKKKLLLL"
          ++ concat (kept schemaL [(mkAttribute "a" INT 4 true false, str "KKKK");
                                   (mkAttribute "c" INT 4 true false, str "1111")]).*2) /\
  attrs (createResultTableSchema schemaL schemaR)
    = attrs schemaL
      ++ (kept schemaL [(mkAttribute "a" INT 4 true false, str "KKKK");
                        (mkAttribute "c" INT 4 true false, str "1111")]).*1.
Proof.
  apply (joinTuples_aligned (str "KKKKLLLL") schemaL schemaR
           [(mkAttribute "a" INT 4 true false, str "KKKK");
            (mkAttribute "c" INT 4 true false, str "1111")]).
  - reflexivity.
  - repeat constructor.
Defined.

(** ** The line [print] shows for a tuple *)

Lemma char_sub_at (key : bytes) (n : nat) (c : ascii) :
  key !! n = Some c -> char_sub key (Z.of_nat n) = Ok c.
Proof.
  intros Hc. unfold char_sub, substr.
  pose proof (lookup_lt_Some _ _ _ Hc) as Hlt.
  destruct (Z.ltb_spec (Z.of_nat n) 0); [lia|].
  destruct (Z.ltb_spec (Z.of_nat (length key)) (Z.of_nat n)); [lia|]. simpl.
  by rewrite Nat2Z.id, (drop_S _ _ _ Hc).
Qed.

Lemma decode_int_S (key : bytes) (i : Z) (j n : nat) (acc : Z) (c : ascii) :
  char_sub key (i + Z.of_nat j) = Ok c ->
  decode_int key i j (S n) acc
  = decode_int key i (S j) n (acc + int_of_char c * 128 ^ (3 - Z.of_nat j))%Z.
Proof.
  intros Hc. cbn [decode_int]. rewrite Hc. cbn [mbind Res_bind].
  case_bool_decide as Hz; [|done]. subst c.
  change (int_of_char zero) with 0%Z. by rewrite Z.mul_0_l, Z.add_0_r.
Qed.

Lemma decode_int_field (pre v post : bytes) :
  length v = 4%nat ->
  decode_int (pre ++ v ++ post) (Z.of_nat (length pre)) 0 4 0 = Ok (value128 v).
Proof.
  intros Hlen. destruct v as [|c0 [|c1 [|c2 [|c3 [|]]]]]; try done. clear Hlen.
  set (key := pre ++ [c0; c1; c2; c3] ++ post).
  assert (Hk : forall j c, [c0; c1; c2; c3] !! j = Some c ->
                 char_sub key (Z.of_nat (length pre) + Z.of_nat j) = Ok c).
  { intros j c Hj. rewrite <- Nat2Z.inj_add. apply char_sub_at. unfold key.
    pose proof (lookup_lt_Some _ _ _ Hj) as Hlt. simpl in Hlt.
    rewrite lookup_app_r by lia. rewrite lookup_app_l by (simpl; lia).
    by replace (length pre + j - length pre)%nat with j by lia. }
  rewrite (decode_int_S key _ 0 3 _ c0 (Hk 0%nat c0 eq_refl)).
  rewrite (decode_int_S key _ 1 2 _ c1 (Hk 1%nat c1 eq_refl)).
  rewrite (decode_int_S key _ 2 1 _ c2 (Hk 2%nat c2 eq_refl)).
  rewrite (decode_int_S key _ 3 0 _ c3 (Hk 3%nat c3 eq_refl)).
  cbn [decode_int]. f_equal. unfold value128. cbn [foldl].
  change (128 ^ (3 - Z.of_nat 0))%Z with 2097152%Z.
  change (128 ^ (3 - Z.of_nat 1))%Z with 16384%Z.
  change (128 ^ (3 - Z.of_nat 2))%Z with 128%Z.
  change (128 ^ (3 - Z.of_nat 3))%Z with 1%Z.
  lia.
Qed.

Lemma print_attr_fits (key : bytes) (c : Attribute * bytes) (pre post line : bytes) :
  fits c -> key = pre ++ c.2 ++ post ->
  print_attr key c.1 (line, Z.of_nat (length pre))
  = Ok (line ++ shown c ++ [","%char], Z.of_nat (length (pre ++ c.2))).
Proof.
  destruct c as [a v]. unfold fits. cbn [fst snd]. intros [Ha Hlen] ->.
  unfold print_attr, shown, width in *. cbn [fst snd].
  rewrite length_app, Nat2Z.inj_add.
  destruct Ha as [Ha|(Ha & Hpos & Hmod)]; rewrite Ha in *.
  - rewrite decode_int_field by lia. cbn [mbind Res_bind]. rewrite <- Hlen.
    by rewrite <- app_assoc.
  - rewrite <- Hlen in *. rewrite substr_middle, align_0 by done.
    cbn [mbind Res_bind]. by rewrite Z.add_0_r, <- app_assoc.
Qed.

Lemma forM_print_attr_fits (key : bytes) :
  forall (cols : list (Attribute * bytes)) (pre line : bytes),
    Forall fits cols -> key = pre ++ concat cols.*2 ->
    forM (print_attr key) cols.*1 (line, Z.of_nat (length pre))
    = Ok (line ++ concat ((fun c => shown c ++ [","%char]) <$> cols),
          Z.of_nat (length key)).
Proof.
  induction cols as [|c cols IH]; intros pre line Hfits Hkey.
  - simpl in *. rewrite app_nil_r in *. by subst.
  - apply Forall_cons in Hfits as [Hc Hfits]. simpl in Hkey.
    change (forM (print_attr key) (c :: cols).*1 (line, Z.of_nat (length pre)))
      with (st ← print_attr key c.1 (line, Z.of_nat (length pre));
            forM (print_attr key) cols.*1 st).
    rewrite (print_attr_fits key c pre (concat cols.*2) line Hc Hkey).
    simpl. rewrite IH; [|done|by rewrite <- app_assoc].
    by rewrite <- !app_assoc.
Qed.

(** X26. For a tuple whose fields have no padding and no length byte,
    the line [TableScanner::print] writes is the fields between
    parentheses, separated by commas: an INT field as the decimal of its
    four bytes read as digits in base 128, the most significant first, a
    CHAR field as its bytes. A zero byte of an INT counts as the digit
    0, so that skipping it changes nothing. *)
Theorem print_key_aligned (tableSchema : TableSchema)
    (cols : list (Attribute * bytes)) (c : Attribute * bytes) :
  attrs tableSchema = (cols ++ [c]).*1 ->
  Forall fits (cols ++ [c]) ->
  print_key tableSchema (concat (cols ++ [c]).*2)
  = Ok (["("%char] ++ concat ((fun d => shown d ++ [","%char]) <$> cols)
        ++ shown c ++ [")"%char]).
Proof.
  intros Hattrs Hfits. unfold print_key. rewrite Hattrs.
  pose proof (forM_print_attr_fits (concat (cols ++ [c]).*2) (cols ++ [c]) []
                ["("%char] Hfits eq_refl) as E.
  change (Z.of_nat (length (@nil ascii))) with 0%Z in E. rewrite E. clear E.
  cbn [mbind Res_bind]. f_equal. rewrite fmap_app, concat_app.
  cbn [fmap list_fmap concat]. rewrite app_nil_r, !app_assoc.
  rewrite (length_app _ [","%char]). cbn [length]. rewrite Nat.add_sub.
  by rewrite take_app_length.
Qed.

Lemma print_key_aligned_witness :
  print_key schemaL
    (concat ([(mkAttribute "a" INT 4 true false, [zero; zero; zero; one])]
             ++ [(mkAttribute "b" INT 4 true false, [zero; zero; one; "002"%char])]).*2)
  = Ok (["("%char]
        ++ concat ((fun d => shown d ++ [","%char])
                     <$> [(mkAttribute "a" INT 4 true false, [zero; zero; zero; one])])
        ++ shown (mkAttribute "b" INT 4 true false, [zero; zero; one; "002"%char])
        ++ [")"%char]).
Proof.
  apply (print_key_aligned schemaL
           [(mkAttribute "a" INT 4 true false, [zero; zero; zero; one])]
           (mkAttribute "b" INT 4 true false, [zero; zero; one; "002"%char])).
  - reflexivity.
  - repeat constructor.
Defined.

(** ** [handle_tuple] on a tuple without padding *)

Lemma handle_tuple_aligned_INT_witness :
  handle_tuple [] [attrName (mkAttribute "b" INT 4 true false)] (str "KKKKLLLL") []
    (mkTableSchema "L" ([mkAttribute "a" INT 4 true false]
                        ++ mkAttribute "b" INT 4 true false :: []))
  = Ok (take 4 (drop (Z.to_nat (offset [mkAttribute "a" INT 4 true false]))
                     (str "KKKKLLLL")),
        take (Z.to_nat (offset [mkAttribute "a" INT 4 true false])) (str "KKKKLLLL")
        ++ drop (Z.to_nat (offset [mkAttribute "a" INT 4 true false]) + 4)
                (str "KKKKLLLL")).
Proof.
  apply (handle_tuple_aligned_INT "L" [mkAttribute "a" INT 4 true false]
           (mkAttribute "b" INT 4 true false) [] (str "KKKKLLLL")).
  - repeat constructor.
  - repeat constructor. simpl. discriminate.
  - reflexivity.
  - vm_compute. discriminate.
  - vm_compute. reflexivity.
Defined.

(** * A pool without pinned frames *)

Lemma allocBuf_loop_unpinned fuel : forall pinned s r,
  wf s -> numBufs s <> 0 -> pinned <> numBufs s ->
  Forall (fun d => pinCnt d = 0) (bufDescTable s) ->
  allocBuf_loop fuel pinned s = Some r -> exists frame s', r = Ok (frame, s').
Proof.
  induction fuel as [|fuel IH]; intros pinned s r Hwf Hn Hpin Hall H; simpl in H;
    [done|].
  destruct (advanceClock s) as [s1| |] eqn:Hadv;
    [|unfold advanceClock in Hadv; by destruct (N.eqb_spec (numBufs s) 0)..].
  pose proof (advanceClock_hand_lt _ _ Hadv) as Hlt.
  apply advanceClock_Ok in Hadv as [Hs1 _].
  assert (Hwf1 : wf s1) by (subst s1; by apply wf_clockHand).
  assert (Hn1 : numBufs s1 = numBufs s) by (by subst s1).
  assert (Ht1 : bufDescTable s1 = bufDescTable s) by (by subst s1).
  destruct (N.eqb_spec pinned (numBufs s1)); [congruence|].
  destruct (bufDescTable s1 !! N.to_nat (clockHand s1)) as [d|] eqn:Hd;
    [|apply lookup_ge_None in Hd; unfold numBufs in Hlt; lia].
  destruct (valid d) eqn:Hv; simpl in H; [|injection H as <-; eauto].
  destruct (refbit d) eqn:Hr.
  - eapply IH; [| | | |exact H].
    + by apply (wf_update s1 _ d).
    + by rewrite numBufs_set_desc, Hn1.
    + by rewrite numBufs_set_desc, Hn1.
    + simpl. rewrite Ht1. apply Forall_insert; [done|]. simpl.
      rewrite Ht1 in Hd. by apply (Forall_lookup_1 _ _ _ _ Hall Hd).
  - assert (Hp : pinCnt d = 0).
    { rewrite Ht1 in Hd. by apply (Forall_lookup_1 _ _ _ _ Hall Hd). }
    rewrite Hp in H. simpl in H.
    destruct (dirty d) eqn:Hdirty; [|simpl in H; injection H as <-; eauto].
    destruct (wf_desc _ Hwf1 _ d Hd Hv) as (_ & (p & Hpool & Hnum) & Hhas).
    unfold page_at in H. rewrite Nat2N.id in H || idtac.
    rewrite Hpool in H. simpl in H.
    destruct (File_writePage_total (file d) p s1) as [s2 Hw]; [by rewrite Hnum|].
    rewrite Hw in H. simpl in H. injection H as <-. eauto.
Qed.

Lemma allocBuf_unpinned_aux s :
  wf s -> numBufs s <> 0 -> numBufs s < UINT32 ->
  Forall (fun d => pinCnt d = 0) (bufDescTable s) ->
  exists frame s', allocBuf s = Ok (frame, s').
Proof.
  intros Hwf Hn0 Hn Hall.
  destruct (allocBuf_loop_fuel (allocBuf_fuel s) 0 s Hn) as [r Hr].
  - lia.
  - unfold allocBuf_fuel. pose proof (num_referenced_le (bufDescTable s)).
    unfold numBufs. lia.
  - destruct (allocBuf_loop_unpinned _ 0 s r Hwf Hn0 (not_eq_sym Hn0) Hall Hr)
      as (frame & s' & ->).
    exists frame, s'. unfold allocBuf. by rewrite Hr.
Qed.

Lemma pool1_dirty_wf : wf pool1_dirty.
Proof.
  apply (unPinPage_wf pool1_A1 fileA 1 true pool1_dirty pool1_A1_wf).
  vm_compute. reflexivity.
Qed.

(** X27. On a consistent pool in which no frame is pinned, [allocBuf]
    returns a frame, whatever the reference bits: [BufferExceededException]
    needs a pinned frame, and the write-back of a dirty victim finds its
    page in the file. *)
Theorem allocBuf_succeeds_if_unpinned (s : BufMgr) :
  wf s -> numBufs s <> 0 -> numBufs s < UINT32 ->
  Forall (fun d => pinCnt d = 0) (bufDescTable s) ->
  exists frame s', allocBuf s = Ok (frame, s').
Proof. apply allocBuf_unpinned_aux. Qed.

Lemma allocBuf_succeeds_if_unpinned_witness :
  exists frame s', allocBuf pool1_dirty = Ok (frame, s').
Proof.
  apply (allocBuf_succeeds_if_unpinned pool1_dirty).
  - exact pool1_dirty_wf.
  - vm_compute. discriminate.
  - vm_compute. reflexivity.
  - vm_compute. repeat constructor.
Defined.

(** * [TableScanner::print] *)

Lemma allocBuf_scanning f ps t frame t1 :
  scanning f ps t -> allocBuf t = Ok (frame, t1) ->
  scanning f ps t1 /\
  (exists d1, bufDescTable t1 !! N.to_nat frame = Some d1 /\ valid d1 = false) /\
  (forall k j, hashTable t1 !! k = Some j -> hashTable t !! k = Some j).
Proof.
  intros (Hwf & Hn0 & Hn & Hall & Hst & Hcl) Ha.
  destruct (allocBuf_wf t frame t1 Hwf Ha) as (Hwf1 & Hlen & (d1 & Hd1 & Hclear) & Hsub & _).
  unfold allocBuf in Ha.
  destruct (allocBuf_loop _ _ _) as [r|] eqn:Hloop; [|done]. subst r.
  apply allocBuf_loop_effect in Hloop
    as (d0 & Hd0 & Hpool & Hnoref & _ & _ & Hsame & Hwrite).
  assert (Hinv : valid d1 = false) by (rewrite Hclear; done).
  split; [|split; [by exists d1|done]].
  unfold scanning. split_and!; try done.
  - unfold numBufs. by rewrite Hlen.
  - unfold numBufs. by rewrite Hlen.
  - apply Forall_lookup. intros i d Hd.
    destruct (decide (i = N.to_nat frame)) as [->|Hne].
    + rewrite Hd1 in Hd. injection Hd as <-. by rewrite Hclear.
    + destruct (norefbits_insert_lookup _ _ _ _ _ _ Hnoref Hne Hd) as (d' & Hd' & Heq).
      apply with_refbit_fields in Heq as (_ & _ & _ & _ & <-).
      by apply (Forall_lookup_1 _ _ _ _ Hall Hd').
  - intros n. rewrite <- Hst.
    destruct (valid d0) eqn:Hv0; [|by rewrite Hsame by (by left)].
    destruct (dirty d0) eqn:Hdirty0; [|by rewrite Hsame by (by right)].
    destruct (Hwrite eq_refl eq_refl) as (p & _ & _ & Hother).
    apply Hother. intros [= Hf _].
    destruct (Hcl _ d0 Hd0 Hv0 (eq_sym Hf)) as [Hd _]. congruence.
  - intros i d Hd Hv Hf.
    destruct (decide (i = N.to_nat frame)) as [->|Hne].
    { rewrite Hd1 in Hd. injection Hd as <-. congruence. }
    destruct (norefbits_insert_lookup _ _ _ _ _ _ Hnoref Hne Hd) as (d' & Hd' & Heq).
    apply with_refbit_fields in Heq as (Ev & Ef & Ep & Ed & _).
    rewrite <- Ed, <- Ep, Hpool. apply (Hcl i d'); congruence.
Qed.

Lemma set_desc_twice i d d' t : set_desc i d' (set_desc i d t) = set_desc i d' t.
Proof. unfold set_desc. simpl. f_equal. apply list_insert_insert_eq. Qed.

Lemma scanning_set_desc f ps t i d d' :
  scanning f ps t -> bufDescTable t !! N.to_nat i = Some d -> valid d = true ->
  valid d' = true -> file d' = file d -> pageNo d' = pageNo d ->
  dirty d' = dirty d -> pinCnt d' = 0 ->
  scanning f ps (set_desc i d' t).
Proof.
  intros (Hwf & Hn0 & Hn & Hall & Hst & Hcl) Hd Hv Hv' Hf' Hp' Hd' Hpin.
  unfold scanning. rewrite numBufs_set_desc. split_and!; try done.
  - by apply (wf_update t i d).
  - simpl. by apply Forall_insert.
  - intros j dj Hj Hvj Hfj. simpl in *.
    destruct (decide (j = N.to_nat i)) as [->|Hne].
    + rewrite list_lookup_insert_eq in Hj by (by eapply lookup_lt_Some).
      injection Hj as <-. rewrite Hd', Hp'. apply (Hcl _ d Hd Hv). congruence.
    + rewrite list_lookup_insert_ne in Hj by done. by apply (Hcl j dj).
Qed.

Lemma print_page_hit tableSchema f ps pg frame out lines t :
  scanning f ps t -> hashTable t !! (f, page_number pg) = Some frame ->
  find_page (page_number pg) ps = Some pg ->
  mapM (print_key tableSchema) (records pg) = Ok lines ->
  exists t', print_page tableSchema f pg (out, t) = Ok (out ++ lines, t') /\
             scanning f ps t'.
Proof.
  intros Hsc Hhash Hfind Hlines.
  destruct Hsc as (Hwf & Hn0 & Hn & Hall & Hst & Hcl).
  destruct (wf_hash _ Hwf _ _ _ Hhash) as (d & Hd & Hv & Hf & Hp).
  destruct (Hcl _ d Hd Hv Hf) as (Hdirty & p & Hpool & Hpage).
  assert (Hpin : pinCnt d = 0) by (by apply (Forall_lookup_1 _ _ _ _ Hall Hd)).
  rewrite Hp, Hfind in Hpage. injection Hpage as <-.
  pose proof (lookup_lt_Some _ _ _ Hd) as Hlt.
  set (d1 := with_pinCnt ((pinCnt d + 1) mod UINT32) (with_refbit true d)).
  set (d2 := with_pinCnt (pinCnt d1 - 1) d1).
  exists (set_desc frame d2 t). split.
  - unfold print_page, readPage. rewrite Hhash. unfold desc_at at 1. rewrite Hd.
    cbn [mbind Res_bind]. fold d1.
    unfold page_at. cbn [bufPool set_desc]. rewrite Hpool. cbn [mbind Res_bind].
    rewrite Hlines. cbn [mbind Res_bind].
    unfold unPinPage. cbn [hashTable set_desc]. rewrite Hhash.
    unfold desc_at. cbn [bufDescTable set_desc].
    rewrite list_lookup_insert_eq by done. cbn [mbind Res_bind].
    assert (E : (0 <? pinCnt d1) = true).
    { unfold d1. simpl. rewrite Hpin. reflexivity. }
    rewrite E. fold d2. by rewrite <- (set_desc_twice frame d1 d2 t).
  - apply (scanning_set_desc f ps t frame d d2);
      try done; try (by unfold scanning).
    unfold d2, d1. simpl. by rewrite Hpin.
Qed.

Lemma print_page_miss tableSchema f ps pg out lines t :
  scanning f ps t -> hashTable t !! (f, page_number pg) = None ->
  find_page (page_number pg) ps = Some pg ->
  mapM (print_key tableSchema) (records pg) = Ok lines ->
  exists t', print_page tableSchema f pg (out, t) = Ok (out ++ lines, t') /\
             scanning f ps t'.
Proof.
  intros Hsc Hhash Hfind Hlines.
  destruct (allocBuf_unpinned_aux t) as (frame & t1 & Ha); [apply Hsc..|].
  destruct (allocBuf_scanning f ps t frame t1 Hsc Ha)
    as ((Hwf1 & Hn0 & Hn & Hall & Hst & Hcl) & (d1 & Hd1 & Hinv) & Hsub).
  pose proof (lookup_lt_Some _ _ _ Hd1) as Hlt.
  assert (Hltp : (N.to_nat frame < length (bufPool t1))%nat)
    by (by rewrite (wf_pool _ Hwf1)).
  set (n := page_number pg) in *.
  set (t2 := set_desc frame (BufDesc_Set f n d1)
               (set_hashTable (<[(f, n) := frame]> (hashTable t1))
                  (set_page frame pg t1))).
  set (d2 := with_pinCnt (pinCnt (BufDesc_Set f n d1) - 1) (BufDesc_Set f n d1)).
  assert (Hread : readPage f n t = Ok (frame, t2)).
  { unfold readPage. rewrite Hhash, Ha. cbn [mbind Res_bind].
    unfold File_readPage. specialize (Hst n). unfold stored in Hst.
    destruct (files t1 !! f) as [ps1|]; simpl in Hst; [|by rewrite Hfind in Hst].
    rewrite Hst, Hfind. cbn [mbind Res_bind].
    unfold desc_at. cbn [bufDescTable set_hashTable set_page hashTable].
    by rewrite Hd1. }
  assert (Hunpin : unPinPage f n false t2 = Ok (set_desc frame d2 t2)).
  { unfold unPinPage, t2. cbn [hashTable set_desc set_hashTable].
    rewrite lookup_insert_eq. unfold desc_at. cbn [bufDescTable set_desc].
    by rewrite list_lookup_insert_eq by done. }
  exists (set_desc frame d2 t2). split.
  - unfold print_page. fold n. rewrite Hread. cbn [mbind Res_bind].
    unfold page_at, t2. cbn [bufPool set_desc set_hashTable set_page].
    rewrite list_lookup_insert_eq by done. cbn [mbind Res_bind].
    rewrite Hlines. cbn [mbind Res_bind]. fold t2. by rewrite Hunpin.
  - assert (Hwf : wf t) by apply Hsc.
    destruct (readPage_wf t f n frame t2 Hwf Hread) as (Hwf2 & _).
    destruct (unPinPage_wf t2 f n false _ Hwf2 Hunpin) as (Hwf3 & _).
    unfold scanning. split_and!; try done.
    + unfold numBufs, t2. simpl. by rewrite !length_insert.
    + unfold numBufs, t2. simpl. by rewrite !length_insert.
    + unfold t2. simpl. rewrite list_insert_insert_eq. by apply Forall_insert.
    + intros i d Hd Hv Hf. unfold t2 in Hd |- *. simpl in Hd |- *.
      rewrite list_insert_insert_eq in Hd.
      destruct (decide (i = N.to_nat frame)) as [->|Hne].
      * rewrite list_lookup_insert_eq in Hd by done. injection Hd as <-.
        split; [done|]. exists pg. by rewrite list_lookup_insert_eq by done.
      * rewrite list_lookup_insert_ne in Hd by done.
        rewrite list_lookup_insert_ne by done. by apply (Hcl i d).
Qed.

Lemma mapM_app_inv {A B : Type} (g : A -> Res B) (l1 l2 : list A) (o : list B) :
  mapM g (l1 ++ l2) = Ok o ->
  exists o1 o2, mapM g l1 = Ok o1 /\ mapM g l2 = Ok o2 /\ o = o1 ++ o2.
Proof.
  revert o. induction l1 as [|x l1 IH]; intros o H; simpl in H.
  - by exists [], o.
  - destruct (g x) as [y| |] eqn:Hx; simpl in H; [|done..].
    destruct (mapM g (l1 ++ l2)) as [o'| |] eqn:Hrest; simpl in H; [|done..].
    injection H as <-. destruct (IH o' eq_refl) as (o1 & o2 & H1 & H2 & ->).
    exists (y :: o1), o2. simpl. by rewrite Hx, H1.
Qed.

Lemma find_page_NoDup (ps : list Page) (pg : Page) :
  NoDup (page_number <$> ps) -> pg ∈ ps ->
  find_page (page_number pg) ps = Some pg.
Proof.
  induction ps as [|q ps IH]; intros Hnd Hin; [by apply elem_of_nil in Hin|].
  simpl in Hnd. apply NoDup_cons in Hnd as [Hq Hnd]. unfold find_page. simpl.
  apply elem_of_cons in Hin as [->|Hin]; [by rewrite N.eqb_refl|].
  destruct (N.eqb_spec (page_number q) (page_number pg)) as [E|_]; [|by apply IH].
  exfalso. apply Hq. rewrite E. apply list_elem_of_fmap. by exists pg.
Qed.

Lemma print_pages tableSchema f ps : forall todo out lines t,
  scanning f ps t ->
  (forall pg, pg ∈ todo -> find_page (page_number pg) ps = Some pg) ->
  mapM (print_key tableSchema) (concat (records <$> todo)) = Ok lines ->
  exists t', forM (print_page tableSchema f) todo (out, t) = Ok (out ++ lines, t') /\
             scanning f ps t'.
Proof.
  induction todo as [|pg todo IH]; intros out lines t Hsc Hfind Hlines.
  - simpl in *. injection Hlines as <-. exists t. by rewrite app_nil_r.
  - change (concat (records <$> pg :: todo))
      with (records pg ++ concat (records <$> todo)) in Hlines.
    apply mapM_app_inv in Hlines as (l1 & l2 & H1 & H2 & ->).
    assert (Hpg : find_page (page_number pg) ps = Some pg)
      by (apply Hfind, elem_of_cons; by left).
    assert (Hstep : exists t1, print_page tableSchema f pg (out, t) = Ok (out ++ l1, t1) /\
                               scanning f ps t1).
    { destruct (hashTable t !! (f, page_number pg)) as [frame|] eqn:Hhash.
      - by eapply print_page_hit.
      - by eapply print_page_miss. }
    destruct Hstep as (t1 & Hrun & Hsc1).
    destruct (IH (out ++ l1) l2 t1 Hsc1) as (t' & Hrest & Hsc'); [|done|].
    { intros pg' Hin. apply Hfind, elem_of_cons. by right. }
    exists t'. split; [|done]. cbn [forM]. rewrite Hrun. cbn [mbind Res_bind].
    by rewrite Hrest, app_assoc.
Qed.

(** X28. On a consistent pool without pinned frames, for a table file
    that has no page in the pool yet and whose pages have distinct
    numbers, [TableScanner::print] writes one line per tuple, page by page
    in file order (the lines of [print_key], when each tuple has one),
    and returns; afterwards the pool is consistent and holds no page of
    the file, and the file has the pages it had. *)
Theorem TableScanner_print_lines (tableSchema : TableSchema) (f : FilePtr)
    (s : BufMgr) (ps : list Page) (out : list bytes) :
  wf s -> f <> NULL -> numBufs s <> 0 -> numBufs s < UINT32 ->
  Forall (fun d => pinCnt d = 0) (bufDescTable s) ->
  (forall n, hashTable s !! (f, n) = None) ->
  files s !! f = Some ps -> NoDup (page_number <$> ps) ->
  mapM (print_key tableSchema) (concat (records <$> ps)) = Ok out ->
  exists s', TableScanner_print tableSchema f s = Ok (out, s') /\
    wf s' /\ (forall n, hashTable s' !! (f, n) = None) /\
    (forall n, stored (files s') f n = find_page n ps).
Proof.
  intros Hwf Hf Hn0 Hn Hall Hfresh Hfiles Hnd Hlines.
  assert (Hsc : scanning f ps s).
  { unfold scanning. split_and!; try done.
    - intros n. unfold stored. by rewrite Hfiles.
    - intros i d Hd Hv Hfd. destruct (wf_desc _ Hwf _ d Hd Hv) as (Hh & _).
      rewrite Hfd, Hfresh in Hh. done. }
  destruct (print_pages tableSchema f ps ps [] out s Hsc) as (t & Hrun & Hsct);
    [by intros pg; apply find_page_NoDup|done|].
  destruct Hsct as (Hwft & _ & _ & Hallt & Hstt & Hclt).
  destruct (flushFile_releases_aux t f Hwft Hf (find_pinned_none f _ Hallt))
    as (s' & Hflush & Hwf' & _ & _ & Hgone & _ & _ & Hsame).
  exists s'. unfold TableScanner_print. rewrite Hfiles, Hrun.
  cbn [mbind Res_bind]. rewrite Hflush. cbn [mbind Res_bind].
  split_and!; try done.
  intros n. rewrite Hsame; [done|].
  apply Forall_lookup. intros i d Hd Hfd.
  destruct (valid d) eqn:Hv.
  - by destruct (Hclt i d Hd Hv Hfd).
  - by destruct (wf_invalid _ Hwft i d Hd Hv) as (_ & ? & _).
Qed.

Lemma TableScanner_print_lines_witness :
  exists s', TableScanner_print schemaL fileL pool1_L
               = Ok ([str "(1,130)"; str "(158524875,160638540)"], s') /\
    wf s' /\ (forall n, hashTable s' !! (fileL, n) = None) /\
    (forall n, stored (files s') fileL n = find_page n tableL).
Proof.
  apply (TableScanner_print_lines schemaL fileL pool1_L tableL
           [str "(1,130)"; str "(158524875,160638540)"]).
  - apply BufMgr_new_wf. vm_compute. reflexivity.
  - vm_compute. discriminate.
  - vm_compute. discriminate.
  - vm_compute. reflexivity.
  - vm_compute. repeat constructor.
  - intros n. apply lookup_empty.
  - vm_compute. reflexivity.
  - apply (bool_decide_unpack _). vm_compute. exact I.
  - vm_compute. reflexivity.
Defined.
